(** * wasmdump: a shallow embedding of [wasmdump.py] and its properties

    The dump tool reads a WebAssembly binary through a cursor class
    ([ReadData]), decodes LEB128 integers, types, instructions and
    sections, and prints one annotation per decoded byte range.

    Conventions of the embedding.
    - A Python [bytes] object is a [list Z] of values in [0, 256).
    - Positions and sizes ([rpos], [fpos], the [size] argument of
      [read]) are [nat]: the program only ever builds them from [len],
      from sums of such values and from unsigned LEB128 values.
    - A method of a mutable object is a function from the object to an
      outcome and the object afterwards.
    - A Python exception is a value of [exn]; an uncaught exception ends
      the run, so every sequencing operator stops at the first [Raise].
    - A Python [str] is a Rocq [string] holding its UTF-8 encoding.
    - The interpreter is rendered within its limits.  The conversion of
      an int to decimal ([str], an f-string) is total here, and raises
      [ValueError] in CPython beyond [int_max_str_digits] digits; the
      walker nests without limit, and CPython ends with [RecursionError]
      beyond its recursion limit; an index is looked up as it is, and
      CPython refuses an index of [2^63] or more with an [IndexError] of
      its own.  The statements that depend on a limit carry it
      ([str_fits], [short_integers], [max_nesting], [shallow]). *)

From Stdlib Require Import ZArith String Ascii List Lia Bool.
From Stdlib Require Import DecimalString HexadecimalString.
Import ListNotations.

Open Scope string_scope.
Open Scope Z_scope.

(** ** Exceptions and outcomes *)

(** The exception classes the program raises, or that the Python
    runtime raises on its behalf, with the message text. *)
Inductive exn : Type :=
| IOError (msg : string)
| IndexError (msg : string)
| ValueError (msg : string)
| AttributeError (msg : string)
| NotImplementedError (msg : string)
| UnicodeDecodeError
| TypeError (msg : string).

(** [OutOfFuel] is not a Python outcome: it marks a walker of the
    embedding that was started with too small a recursion budget. *)
Inductive outcome (A : Type) : Type :=
| Return (a : A)
| Raise (e : exn)
| OutOfFuel.

Arguments Return {A} a.
Arguments Raise {A} e.
Arguments OutOfFuel {A}.

(** State-and-exception monad over a mutable object of type [S]. *)
Definition SE (S A : Type) : Type := S -> outcome A * S.

Definition ret {S A : Type} (a : A) : SE S A := fun s => (Return a, s).

Definition raise {S A : Type} (e : exn) : SE S A := fun s => (Raise e, s).

Definition bind {S A B : Type} (m : SE S A) (k : A -> SE S B) : SE S B :=
  fun s =>
    match m s with
    | (Return a, s') => k a s'
    | (Raise e, s') => (Raise e, s')
    | (OutOfFuel, s') => (OutOfFuel, s')
    end.

Definition get {S : Type} : SE S S := fun s => (Return s, s).

(** An outcome computed without touching the object. *)
Definition pure_outcome {S A : Type} (o : outcome A) : SE S A := fun s => (o, s).

Declare Scope se_scope.
Delimit Scope se_scope with se.
Notation "x <- c1 ;; c2" := (bind c1 (fun x => c2))
  (at level 61, c1 at next level, right associativity) : se_scope.
Notation "c1 ;; c2" := (bind c1 (fun _ => c2))
  (at level 61, right associativity) : se_scope.
Open Scope se_scope.

(** ** Python built-ins used by the program *)

(** [seq[key]] on a list, tuple or bytes object: a negative key counts
    from the end, a key out of range raises [IndexError] with the
    message of the sequence type.  (For a key of [2^63] or more CPython
    raises [IndexError] with another message, that of the conversion of
    the key.) *)
Definition py_getitem {A : Type} (msg : string) (l : list A) (key : Z) : outcome A :=
  let n := Z.of_nat (length l) in
  let k := if key <? 0 then key + n else key in
  if k <? 0 then Raise (IndexError msg)
  else match nth_error l (Z.to_nat k) with
       | Some v => Return v
       | None => Raise (IndexError msg)
       end.

Definition bytes_index_msg : string := "index out of range".
Definition list_index_msg : string := "list index out of range".
Definition tuple_index_msg : string := "tuple index out of range".

(** [str(n)] for an int, within the limit of the conversion to decimal
    (4300 digits by default in CPython). *)
Definition str_int (n : Z) : string :=
  DecimalString.NilZero.string_of_int (Z.to_int n).

(** [f'{n:x}']. *)
Definition hex_int (n : Z) : string :=
  HexadecimalString.NilZero.string_of_int (Z.to_hex_int n).

(** [f'{n:02x}']: lower-case hexadecimal, zero-padded to two characters. *)
Definition hex02 (n : Z) : string :=
  let s := hex_int n in
  if (String.length s <? 2)%nat then "0" ++ s else s.

(** [sep.join(parts)]. *)
Fixpoint join (sep : string) (parts : list string) : string :=
  match parts with
  | [] => EmptyString
  | [p] => p
  | p :: rest => p ++ sep ++ join sep rest
  end.

(** [s * n] for a one-character string and an int ([n <= 0] gives ['']). *)
Fixpoint repeat_string (s : string) (n : nat) : string :=
  match n with
  | O => EmptyString
  | S n' => s ++ repeat_string s n'
  end.

Definition spaces (n : Z) : string := repeat_string " " (Z.to_nat n).

Definition chr (c : Z) : string :=
  String (ascii_of_N (Z.to_N c)) EmptyString.

Definition dquote : string := chr 34.
Definition bslash : string := chr 92.

Definition string_of_bytes (b : list Z) : string :=
  fold_right (fun c acc => chr c ++ acc) EmptyString b.

(** [repr(b)] for a bytes object: the quote is ['] unless the bytes hold
    a ['] and no double quote; the quote and the backslash are escaped,
    tab, newline and carriage return have their letters, other bytes
    outside [0x20, 0x7f) are written [\xNN]. *)
Definition repr_byte (quote : Z) (c : Z) : string :=
  if (c =? quote) || (c =? 92) then bslash ++ chr c
  else if c =? 9 then bslash ++ "t"
  else if c =? 10 then bslash ++ "n"
  else if c =? 13 then bslash ++ "r"
  else if (c <? 32) || (127 <=? c) then bslash ++ "x" ++ hex02 c
  else chr c.

Definition repr_bytes (b : list Z) : string :=
  let squote := existsb (Z.eqb 39) b in
  let dq := existsb (Z.eqb 34) b in
  let quote := if squote && negb dq then 34 else 39 in
  "b" ++ chr quote ++ fold_right (fun c acc => repr_byte quote c ++ acc) EmptyString b
      ++ chr quote.

(** [codecs.decode(b)]: strict UTF-8.  The well-formed byte sequences are
    those of the Unicode standard (no overlong form, no surrogate, nothing
    above U+10FFFF). *)
Definition cont (b : Z) : bool := (128 <=? b) && (b <=? 191).

Fixpoint utf8_valid (b : list Z) : bool :=
  match b with
  | [] => true
  | b0 :: r0 =>
    if (0 <=? b0) && (b0 <=? 127) then utf8_valid r0
    else match r0 with
    | [] => false
    | b1 :: r1 =>
      if (194 <=? b0) && (b0 <=? 223) then cont b1 && utf8_valid r1
      else match r1 with
      | [] => false
      | b2 :: r2 =>
        if b0 =? 224 then (160 <=? b1) && (b1 <=? 191) && cont b2 && utf8_valid r2
        else if b0 =? 237 then (128 <=? b1) && (b1 <=? 159) && cont b2 && utf8_valid r2
        else if (225 <=? b0) && (b0 <=? 239) then cont b1 && cont b2 && utf8_valid r2
        else match r2 with
        | [] => false
        | b3 :: r3 =>
          if b0 =? 240 then
            (144 <=? b1) && (b1 <=? 191) && cont b2 && cont b3 && utf8_valid r3
          else if b0 =? 244 then
            (128 <=? b1) && (b1 <=? 143) && cont b2 && cont b3 && utf8_valid r3
          else if (241 <=? b0) && (b0 <=? 243) then
            cont b1 && cont b2 && cont b3 && utf8_valid r3
          else false
        end
      end
    end
  end.

Definition codecs_decode (b : list Z) : outcome string :=
  if utf8_valid b then Return (string_of_bytes b) else Raise UnicodeDecodeError.

(** A small universe of Python values, for the comparisons the program
    makes between values of different types.  [PyObject] is an instance of
    a class that defines neither [__eq__] nor [__ne__] (such as [Integer]);
    [id] is its identity. *)
#[local] Unset Elimination Schemes.
Inductive pyval : Type :=
| PyInt (n : Z)
| PyStr (s : string)
| PyTuple (items : list pyval)
| PyObject (id : nat).
#[local] Set Elimination Schemes.

(** [a == b]: values of different types are unequal, and an object with
    the default [__eq__] equals only itself. *)
Fixpoint py_eq (a b : pyval) : bool :=
  match a, b with
  | PyInt x, PyInt y => x =? y
  | PyStr s, PyStr t => String.eqb s t
  | PyTuple xs, PyTuple ys =>
    (fix all2 (xs ys : list pyval) : bool :=
       match xs, ys with
       | [], [] => true
       | x :: xs', y :: ys' => py_eq x y && all2 xs' ys'
       | _, _ => false
       end) xs ys
  | PyObject i, PyObject j => Nat.eqb i j
  | _, _ => false
  end.

Definition py_ne (a b : pyval) : bool := negb (py_eq a b).

(** ** LEB128 decoding *)

Fixpoint enumerate_from {A : Type} (n : Z) (l : list A) : list (Z * A) :=
  match l with
  | [] => []
  | v :: rest => (n, v) :: enumerate_from (n + 1) rest
  end.

Definition enumerate {A : Type} (l : list A) : list (Z * A) := enumerate_from 0 l.

(** [sum(xs)]. *)
Definition py_sum (xs : list Z) : Z := fold_left Z.add xs 0.

Definition decode_leb128u (data : list Z) : Z :=
  py_sum (map (fun nv => Z.shiftl (Z.land (snd nv) 127) (fst nv * 7)) (enumerate data)).

Definition decode_leb128s (data : list Z) : outcome Z :=
  let val := decode_leb128u data in
  match py_getitem bytes_index_msg data (-1) with
  | Return last =>
    Return (if Z.land last 64 =? 0 then val
            else val - Z.shiftl 1 (Z.of_nat (length data) * 7))
  | Raise e => Raise e
  | OutOfFuel => OutOfFuel
  end.

(** ** The cursor class [ReadData] *)

Module ReadData.

Record t : Type := mk { path : string; data : list Z; fpos : nat; rpos : nat }.

Definition set_rpos (self : t) (p : nat) : t :=
  mk (path self) (data self) (fpos self) p.

Definition len (self : t) : nat := length (data self).

Definition getitem (self : t) (key : Z) : outcome Z :=
  py_getitem bytes_index_msg (data self) key.

Definition remain (self : t) : nat := (length (data self) - rpos self)%nat.

Definition read (size : nat) : SE t t := fun self =>
  let fpos' := (fpos self + rpos self)%nat in
  let data' := firstn size (skipn (rpos self) (data self)) in
  (Return (mk (path self) data' fpos' 0),
   set_rpos self (rpos self + length data')%nat).

Definition load (size : nat) : SE t t :=
  data' <- read size ;;
  self <- get ;;
  if (len data' =? size)%nat then ret data'
  else raise (IOError ("not enough data: " ++ path self)).

(** [rlen = self.rpos - rpos] is negative when the saved position lies
    after the current one; [read] then returns no byte and [load]
    reports the mismatch. *)
Definition reload (rpos0 : nat) : SE t t := fun self =>
  if (rpos0 <=? rpos self)%nat
  then load (rpos self - rpos0) (set_rpos self rpos0)
  else (Raise (IOError ("not enough data: " ++ path self)), set_rpos self rpos0).

End ReadData.

(** The classes [ValueData], [Integer], [String], [List]: a decoded value
    and the bytes it came from. *)
Module ValueData.
Record t (V : Type) : Type := mk { value : V; data : ReadData.t }.
Arguments mk {V} value data.
Arguments value {V} _.
Arguments data {V} _.
End ValueData.

Definition Integer : Type := ValueData.t Z.
Definition String_ : Type := ValueData.t string.

(** [int(i)] through [Integer.__int__], [str(s)] through [String.__str__]. *)
Definition int (i : Integer) : Z := ValueData.value i.
Definition str (s : String_) : string := ValueData.value s.

(** The methods of [ReadData] that return an [Integer] or a [String]. *)
Module Cursor.
Import ReadData.

Definition byte : SE t Integer :=
  data' <- load 1 ;;
  b <- pure_outcome (getitem data' 0) ;;
  ret (ValueData.mk b data').

Definition long : SE t Integer :=
  data' <- read 4 ;;
  d0 <- pure_outcome (getitem data' 0) ;;
  d1 <- pure_outcome (getitem data' 1) ;;
  d2 <- pure_outcome (getitem data' 2) ;;
  d3 <- pure_outcome (getitem data' 3) ;;
  let u32 := Z.lor (Z.lor (Z.lor d0 (Z.shiftl d1 8)) (Z.shiftl d2 16)) (Z.shiftl d3 24) in
  ret (ValueData.mk u32 data').

(** The loop of [leb128]: [n] bytes have been read so far and [suffix]
    is [dat[pos:]]; the result is [pos - self.rpos] after the loop, or
    nothing when [dat[pos]] runs off the buffer. *)
Fixpoint leb128_scan (suffix : list Z) (n : nat) : option nat :=
  match suffix with
  | [] => None
  | val :: rest =>
    if Z.land val 128 =? 0 then Some (S n) else leb128_scan rest (S n)
  end.

Definition leb128 : SE t t := fun self =>
  match leb128_scan (skipn (rpos self) (data self)) 0 with
  | Some n => read n self
  | None => (Raise (IndexError bytes_index_msg), self)
  end.

Definition leb128u : SE t Integer :=
  dat <- leb128 ;;
  ret (ValueData.mk (decode_leb128u (data dat)) dat).

Definition leb128s : SE t Integer :=
  dat <- leb128 ;;
  v <- pure_outcome (decode_leb128s (data dat)) ;;
  ret (ValueData.mk v dat).

(** [cnt.data.data += utf8.data] extends the bytes of the span of the
    length prefix with the payload before the payload is decoded. *)
Definition utf8 : SE t String_ :=
  cnt <- leb128u ;;
  utf8' <- load (Z.to_nat (int cnt)) ;;
  let span := ValueData.data cnt in
  let span' := mk (path span) (data span ++ data utf8')%list (fpos span) (rpos span) in
  text <- pure_outcome (codecs_decode (data utf8')) ;;
  ret (ValueData.mk text span').

End Cursor.

(** ** Output *)

(** One line of the right-hand column.  Two kinds of text are kept
    symbolic: the decimal rendering of a float, and the default [str] of
    an object, which holds the address of the object. *)
Inductive line : Type :=
| Line (s : string)
| LineFloat (indent : string) (raw : list Z)
| LineObject (indent : string).

(** What the run writes: a call of [print], or a call of [dprint] with the
    byte range on the left and the annotation lines on the right.  The
    text of the left column (offset and hexadecimal rows) is a function of
    the recorded byte range and of the formatting globals and is not
    rendered here. *)
Inductive event : Type :=
| Print (s : string)
| Dprint (data : option ReadData.t) (right : list line).

(** The cursor a decoder works on, the output so far, and the global
    [BYTESW] (bytes per row, [--width]).  The embedding covers widths of
    at least one: with a width of zero the first [dprint] of a byte range
    stops the program in [range], and with a negative width no row of
    bytes is printed. *)
Record state : Type := mkState {
  stream : ReadData.t;
  out : list event;
  BYTESW : positive
}.

Definition M (A : Type) : Type := SE state A.

Definition on_stream {A : Type} (m : SE ReadData.t A) : M A := fun s =>
  let (r, c) := m (stream s) in (r, mkState c (out s) (BYTESW s)).

(** Run a decoder on another cursor object (a section or a code body);
    the cursor in use before the call is in use again after it. *)
Definition with_stream {A : Type} (sub : ReadData.t) (m : M A) : M A := fun s =>
  let (r, s') := m (mkState sub (out s) (BYTESW s)) in
  (r, mkState (stream s) (out s') (BYTESW s')).

Definition emit (e : event) : M unit := fun s =>
  (Return tt, mkState (stream s) (out s ++ [e])%list (BYTESW s)).

Definition print (text : string) : M unit := emit (Print text).

Definition dprint (data : option ReadData.t) (message : list line) : M unit :=
  emit (Dprint data message).

(** [dprint] with a [str] message. *)
Definition dprint1 (data : option ReadData.t) (message : string) : M unit :=
  dprint data [Line message].

(** [for x in xs: body(x)]. *)
Fixpoint for_each {S A : Type} (xs : list A) (body : A -> SE S unit) : SE S unit :=
  match xs with
  | [] => ret tt
  | x :: rest => body x ;; for_each rest body
  end.

(** [for idx in range(n): body(idx)], from [idx = start]. *)
Fixpoint for_range_from {S : Type} (start : Z) (n : nat) (body : Z -> SE S unit)
  : SE S unit :=
  match n with
  | O => ret tt
  | S n' => body start ;; for_range_from (start + 1) n' body
  end.

Definition for_range {S : Type} (n : Z) (body : Z -> SE S unit) : SE S unit :=
  for_range_from 0 (Z.to_nat n) body.

Definition LINE_SEP : string := repeat_string "-" 78.

(** ** Hexadecimal and character dumps *)

Definition data_string (data : list Z) : string :=
  fold_right (fun c acc => (if (32 <=? c) && (c <? 127) then chr c else ".") ++ acc)
             EmptyString data.

(** [data[p:p+w] for p in range(0, len(data), w)]; [fuel] bounds the
    number of rows. *)
Fixpoint rows (fuel : nat) (w : nat) (data : list Z) : list (list Z) :=
  match fuel with
  | O => []
  | S fuel' =>
    match data with
    | [] => []
    | _ => firstn w data :: rows fuel' w (skipn w data)
    end
  end.

Definition data_strings (bytesw : positive) (data : list Z) (indent : string) : list line :=
  map (fun row => Line (indent ++ dquote ++ data_string row ++ dquote))
      (rows (length data) (Pos.to_nat bytesw) data).

(** ** Types *)

(** A dict with int keys, in insertion order. *)
Definition dict (V : Type) : Type := list (Z * V).

Fixpoint dict_get {V : Type} (d : dict V) (key : Z) : option V :=
  match d with
  | [] => None
  | (k, v) :: rest => if k =? key then Some v else dict_get rest key
  end.

(** [a | b]: where both have a key, the entry of [b] is the one found. *)
Definition dict_or {V : Type} (a b : dict V) : dict V := (b ++ a)%list.

Definition NUMTYPE : dict string :=
  [(0x7F, "i32"); (0x7E, "i64"); (0x7D, "f32"); (0x7C, "f64")].
Definition VECTYPE : dict string := [(0x7B, "v128")].
Definition REFTYPE : dict string := [(0x70, "funcref"); (0x6F, "externref")].
Definition VALTYPE : dict string := dict_or (dict_or NUMTYPE VECTYPE) REFTYPE.
Definition FUNCTYPE : dict string := [(0x60, "functype")].
Definition MUTABILITY : dict string := [(0, "const"); (1, "var")].
Definition IMPORT_MODE : dict string :=
  [(0, "func"); (1, "table"); (2, "mem"); (3, "global")].
Definition EXPORT_MODE : dict string := IMPORT_MODE.

(** [f'{name}'] for the result of [dict.get]. *)
Definition str_opt (name : option string) : string :=
  match name with
  | Some s => s
  | None => "None"
  end.

Definition get_valtype (code : Z) : string :=
  match dict_get VALTYPE code with
  | Some name => name
  | None => "(valtype:0x" ++ hex02 code ++ ")"
  end.

Definition get_reftype (code : Z) : string :=
  match dict_get REFTYPE code with
  | Some name => name
  | None => "(reftype:0x" ++ hex02 code ++ ")"
  end.

Definition reference_type (prefix : string) : M unit :=
  code <- on_stream Cursor.leb128u ;;
  let name := dict_get REFTYPE (int code) in
  dprint1 (Some (ValueData.data code)) (prefix ++ str_opt name) ;;
  match name with
  | None => raise (NotImplementedError ("unknown reftype: 0x" ++ hex02 (int code)))
  | Some _ => ret tt
  end.

Definition value_type (prefix : string) : M unit :=
  code <- on_stream Cursor.byte ;;
  let name := dict_get VALTYPE (int code) in
  dprint1 (Some (ValueData.data code)) (prefix ++ str_opt name) ;;
  match name with
  | None => raise (NotImplementedError ("unknown valtype: 0x" ++ hex02 (int code)))
  | Some _ => ret tt
  end.

Definition result_type (name prefix : string) : M unit :=
  vsiz <- on_stream Cursor.leb128u ;;
  let vlen := int vsiz in
  dprint1 (Some (ValueData.data vsiz)) (prefix ++ name ++ "[" ++ str_int vlen ++ "]") ;;
  for_range vlen (fun _ => value_type (prefix ++ "  ")).

(** The message of the exception is written with a misplaced format
    specifier in the source, and reads [0x<mode>:02x]. *)
Definition limits (prefix : string) : M unit :=
  code <- on_stream Cursor.byte ;;
  let mode := int code in
  dprint1 (Some (ValueData.data code)) (prefix ++ "limits") ;;
  if 2 <=? mode
  then raise (NotImplementedError ("unknown limits: 0x" ++ str_int mode ++ ":02x"))
  else
    lmin <- on_stream Cursor.leb128u ;;
    dprint1 (Some (ValueData.data lmin)) (prefix ++ "  min = " ++ str_int (int lmin)) ;;
    if mode =? 1 then
      lmax <- on_stream Cursor.leb128u ;;
      dprint1 (Some (ValueData.data lmax)) (prefix ++ "  max = " ++ str_int (int lmax))
    else ret tt.

Definition mutability (prefix : string) : M unit :=
  code <- on_stream Cursor.byte ;;
  let mode := int code in
  let name := dict_get MUTABILITY mode in
  dprint1 (Some (ValueData.data code)) (prefix ++ str_opt name) ;;
  match name with
  | None => raise (NotImplementedError ("unknown mutability: " ++ str_int mode))
  | Some _ => ret tt
  end.

Definition read_valtype : M String_ :=
  code <- on_stream Cursor.byte ;;
  ret (ValueData.mk (get_valtype (int code)) (ValueData.data code)).

Definition read_reftype : M String_ :=
  code <- on_stream Cursor.byte ;;
  ret (ValueData.mk (get_reftype (int code)) (ValueData.data code)).

(** ** The opcode table *)

(** An operand kind of the table: an int literal or a name. *)
Inductive operand : Type :=
| OInt (n : Z)
| OStr (s : string).

(** An entry of [DISASM]: the empty list [No], a pair [Op] of the operand
    kinds and of the mnemonic followed by its operand names, or a nested
    plane [Plane]. *)
#[local] Unset Elimination Schemes.
Inductive ins : Type :=
| No
| Op (ops : list operand) (asm : list string)
| Plane (plane : list ins).
#[local] Set Elimination Schemes.

(** The plane under the prefix [0xFC]. *)
Definition DISASM_FC : list ins :=
  [
   (* 0x00 *)
   Op [] ["i32.trunc_sat_f32_s"]; Op [] ["i32.trunc_sat_f32_u"]; Op [] ["i32.trunc_sat_f64_s"];
   Op [] ["i32.trunc_sat_f64_u"]; Op [] ["i64.trunc_sat_f32_s"]; Op [] ["i64.trunc_sat_f32_u"];
   Op [] ["i64.trunc_sat_f64_s"]; Op [] ["i64.trunc_sat_f64_u"];
   Op [OStr "eid"; OInt 0] ["memory.init"; "eid"]; Op [OStr "did"] ["data.drop"; "did"];
   Op [OInt 0; OInt 0] ["memory.copy"]; Op [OInt 0] ["memory.fill"];
   Op [OStr "eid"; OStr "tid"] ["table.init"; "eid"; "tid"];
   Op [OStr "mid"] ["elem.drop"; "mid"];
   Op [OStr "tid1"; OStr "tid2"] ["table.copy"; "tid1"; "tid2"];
   Op [OStr "tid"] ["table.grow"; "tid"];
   (* 0x10 *)
   Op [OStr "tid"] ["table.size"; "tid"]; Op [OStr "tid"] ["table.fill"; "tid"]; No; No; No; No;
   No; No; No; No; No; No; No; No; No; No;
   (* 0x20 *)
   No; No; No; No; No; No; No; No; No; No; No; No; No; No; No; No;
   (* 0x30 *)
   No; No; No; No; No; No; No; No; No; No; No; No; No; No; No; No;
   (* 0x40 *)
   No; No; No; No; No; No; No; No; No; No; No; No; No; No; No; No;
   (* 0x50 *)
   No; No; No; No; No; No; No; No; No; No; No; No; No; No; No; No;
   (* 0x60 *)
   No; No; No; No; No; No; No; No; No; No; No; No; No; No; No; No;
   (* 0x70 *)
   No; No; No; No; No; No; No; No; No; No; No; No; No; No; No; No;
   (* 0x80 *)
   No; No; No; No; No; No; No; No; No; No; No; No; No; No; No; No;
   (* 0x90 *)
   No; No; No; No; No; No; No; No; No; No; No; No; No; No; No; No;
   (* 0xA0 *)
   No; No; No; No; No; No; No; No; No; No; No; No; No; No; No; No;
   (* 0xB0 *)
   No; No; No; No; No; No; No; No; No; No; No; No; No; No; No; No;
   (* 0xC0 *)
   No; No; No; No; No; No; No; No; No; No; No; No; No; No; No; No;
   (* 0xD0 *)
   No; No; No; No; No; No; No; No; No; No; No; No; No; No; No; No;
   (* 0xE0 *)
   No; No; No; No; No; No; No; No; No; No; No; No; No; No; No; No;
   (* 0xF0 *)
   No; No; No; No; No; No; No; No; No; No; No; No; No; No; No; No
  ].

(** The plane under the prefix [0xFD]. *)
Definition DISASM_FD : list ins :=
  [
   (* 0x00 *)
   Op [OStr "mao"] ["v128.load"; "mao"]; Op [OStr "mao"] ["v128.load8x8_s"; "mao"];
   Op [OStr "mao"] ["v128.load8x8_u"; "mao"]; Op [OStr "mao"] ["v128.load16x4_s"; "mao"];
   Op [OStr "mao"] ["v128.load16x4_u"; "mao"]; Op [OStr "mao"] ["v128.load32x2_s"; "mao"];
   Op [OStr "mao"] ["v128.load32x2_u"; "mao"]; Op [OStr "mao"] ["v128.load8_splat"; "mao"];
   Op [OStr "mao"] ["v128.load16_splat"; "mao"]; Op [OStr "mao"] ["v128.load32_splat"; "mao"];
   Op [OStr "mao"] ["v128.load64_splat"; "mao"]; Op [OStr "mao"] ["v128.store"; "mao"];
   Op [OStr "vb16"] ["v128.const"; "vb16"]; Op [OStr "vlt"] ["i8x16.shuffle"; "vlt"];
   Op [] ["i8x16.swizzle"]; Op [] ["i8x16.splat"];
   (* 0x10 *)
   Op [] ["i16x8.splat"]; Op [] ["i32x4.splat"]; Op [] ["i64x2.splat"]; Op [] ["f32x4.splat"];
   Op [] ["f64x2.splat"]; Op [OStr "vl"] ["i8x16.extract_lane_s"; "vl"];
   Op [OStr "vl"] ["i8x16.extract_lane_u"; "vl"]; Op [OStr "vl"] ["i8x16.replace_lane"; "vl"];
   Op [OStr "vl"] ["i16x8.extract_lane_s"; "vl"];
   Op [OStr "vl"] ["i16x8.extract_lane_u"; "vl"]; Op [OStr "vl"] ["i16x8.replace_lane"; "vl"];
   Op [OStr "vl"] ["i32x4.extract_lane"; "vl"]; Op [OStr "vl"] ["i32x4.replace_lane"; "vl"];
   Op [OStr "vl"] ["i64x2.extract_lane"; "vl"]; Op [OStr "vl"] ["i64x2.replace_lane"; "vl"];
   Op [OStr "vl"] ["f32x4.extract_lane"; "vl"];
   (* 0x20 *)
   Op [OStr "vl"] ["f32x4.replace_lane"; "vl"]; Op [OStr "vl"] ["f64x2.extract_lane"; "vl"];
   Op [OStr "vl"] ["f64x2.replace_lane"; "vl"]; Op [] ["i8x16.eq"]; Op [] ["i8x16.ne"];
   Op [] ["i8x16.lt_s"]; Op [] ["i8x16.lt_u"]; Op [] ["i8x16.gt_s"]; Op [] ["i8x16.gt_u"];
   Op [] ["i8x16.le_s"]; Op [] ["i8x16.le_u"]; Op [] ["i8x16.ge_s"]; Op [] ["i8x16.ge_u"];
   Op [] ["i16x8.eq"]; Op [] ["i16x8.ne"]; Op [] ["i16x8.lt_s"];
   (* 0x30 *)
   Op [] ["i16x8.lt_u"]; Op [] ["i16x8.gt_s"]; Op [] ["i16x8.gt_u"]; Op [] ["i16x8.le_s"];
   Op [] ["i16x8.le_u"]; Op [] ["i16x8.ge_s"]; Op [] ["i16x8.ge_u"]; Op [] ["i32x4.eq"];
   Op [] ["i32x4.ne"]; Op [] ["i32x4.lt_s"]; Op [] ["i32x4.lt_u"]; Op [] ["i32x4.gt_s"];
   Op [] ["i32x4.gt_u"]; Op [] ["i32x4.le_s"]; Op [] ["i32x4.le_u"]; Op [] ["i32x4.ge_s"];
   (* 0x40 *)
   Op [] ["i32x4.ge_u"]; Op [] ["f32x4.eq"]; Op [] ["f32x4.ne"]; Op [] ["f32x4.lt"];
   Op [] ["f32x4.gt"]; Op [] ["f32x4.le"]; Op [] ["f32x4.ge"]; Op [] ["f64x2.eq"];
   Op [] ["f64x2.ne"]; Op [] ["f64x2.lt"]; Op [] ["f64x2.gt"]; Op [] ["f64x2.le"];
   Op [] ["f64x2.ge"]; Op [] ["v128.not"]; Op [] ["v128.and"]; Op [] ["v128.andnot"];
   (* 0x50 *)
   Op [] ["v128.or"]; Op [] ["v128.xor"]; Op [] ["v128.bitselect"]; Op [] ["v128.any_true"];
   Op [OStr "mao"; OStr "vl"] ["v128.load8_lane"; "mao"; "vl"];
   Op [OStr "mao"; OStr "vl"] ["v128.load16_lane"; "mao"; "vl"];
   Op [OStr "mao"; OStr "vl"] ["v128.load32_lane"; "mao"; "vl"];
   Op [OStr "mao"; OStr "vl"] ["v128.load64_lane"; "mao"; "vl"];
   Op [OStr "mao"; OStr "vl"] ["v128.store8_lane"; "mao"; "vl"];
   Op [OStr "mao"; OStr "vl"] ["v128.store16_lane"; "mao"; "vl"];
   Op [OStr "mao"; OStr "vl"] ["v128.store32_lane"; "mao"; "vl"];
   Op [OStr "mao"; OStr "vl"] ["v128.store64_lane"; "mao"; "vl"];
   Op [OStr "mao"] ["v128.load32_zero"; "mao"]; Op [OStr "mao"] ["v128.load64_zero"; "mao"];
   Op [] ["f32x4.demote_f64x2_zero"]; Op [] ["f64x2.promote_low_f32x4"];
   (* 0x60 *)
   Op [] ["i8x16.abs"]; Op [] ["i8x16.neg"]; Op [] ["i8x16.popcnt"]; Op [] ["i8x16.all_true"];
   Op [] ["i8x16.bitmask"]; Op [] ["i8x16.narrow_i16x8_s"]; Op [] ["i8x16.narrow_i16x8_u"];
   Op [] ["f32x4.ceil"]; Op [] ["f32x4.floor"]; Op [] ["f32x4.trunc"]; Op [] ["f32x4.nearest"];
   Op [] ["i8x16.shl"]; Op [] ["i8x16.shr_s"]; Op [] ["i8x16.shr_u"]; Op [] ["i8x16.add"];
   Op [] ["i8x16.add_sat_s"];
   (* 0x70 *)
   Op [] ["i8x16.add_sat_u"]; Op [] ["i8x16.sub"]; Op [] ["i8x16.sub_sat_s"];
   Op [] ["i8x16.sub_sat_u"]; Op [] ["f64x2.ceil"]; Op [] ["f64x2.floor"];
   Op [] ["i8x16.min_s"]; Op [] ["i8x16.min_u"]; Op [] ["i8x16.max_s"]; Op [] ["i8x16.max_u"];
   Op [] ["f64x2.trunc"]; Op [] ["i8x16.avr_u"]; Op [] ["i16x8.extadd_pairwise_i8x16_s"];
   Op [] ["i16x8.extadd_pairwise_i8x16_u"]; Op [] ["i32x4.extadd_pairwise_i16x8_s"];
   Op [] ["i32x4.extadd_pairwise_i16x8_u"];
   (* 0x80 *)
   Op [] ["i16x8.abs"]; Op [] ["i16x8.neg"]; Op [] ["i16x8.q15mulr_sat_s"];
   Op [] ["i16x8.all_true"]; Op [] ["i16x8.bitmask"]; Op [] ["i16x8.narrow_i32x4_s"];
   Op [] ["i16x8.narrow_i32x4_u"]; Op [] ["i16x8.extend_low_i8x16_s"];
   Op [] ["i16x8.extend_high_i8x16_s"]; Op [] ["i16x8.extend_low_i8x16_u"];
   Op [] ["i16x8.extend_high_i8x16_u"]; Op [] ["i16x8.shl"]; Op [] ["i16x8.shr_s"];
   Op [] ["i16x8.shr_u"]; Op [] ["i16x8.add"]; Op [] ["i16x8.add_sat_s"];
   (* 0x90 *)
   Op [] ["i16x8.add_sat_u"]; Op [] ["i16x8.sub"]; Op [] ["i16x8.sub_sat_s"];
   Op [] ["i16x8.sub_sat_u"]; Op [] ["f64x2.nearest"]; Op [] ["i16x8.mul"];
   Op [] ["i16x8.min_s"]; Op [] ["i16x8.min_u"]; Op [] ["i16x8.max_s"]; Op [] ["i16x8.max_u"];
   No; Op [] ["i16x8.avr_u"]; Op [] ["i16x8.extmul_low_i8x16_s"];
   Op [] ["i16x8.extmul_high_i8x16_s"]; Op [] ["i16x8.extmul_low_i8x16_u"];
   Op [] ["i16x8.extmul_high_i8x16_u"];
   (* 0xA0 *)
   Op [] ["i32x4.abs"]; Op [] ["i32x4.neg"]; No; Op [] ["i32x4.all_true"];
   Op [] ["i32x4.bitmask"]; Op [] ["i32x4.narrow_i32x4_s"]; Op [] ["i32x4.narrow_i32x4_u"];
   Op [] ["i32x4.extend_low_i16x8_s"]; Op [] ["i32x4.extend_high_i16x8_s"];
   Op [] ["i32x4.extend_low_i16x8_u"]; Op [] ["i32x4.extend_high_i16x8_u"];
   Op [] ["i32x4.shl"]; Op [] ["i32x4.shr_s"]; Op [] ["i32x4.shr_u"]; Op [] ["i32x4.add"]; No;
   (* 0xB0 *)
   No; Op [] ["i32x4.sub"]; No; No; No; Op [] ["i32x4.mul"]; Op [] ["i32x4.min_s"];
   Op [] ["i32x4.min_u"]; Op [] ["i32x4.max_s"]; Op [] ["i32x4.max_u"];
   Op [] ["i32x4.dot_i16x8_s"]; No; Op [] ["i32x4.extmul_low_i16x8_s"];
   Op [] ["i32x4.extmul_high_i16x8_s"]; Op [] ["i32x4.extmul_low_i16x8_u"];
   Op [] ["i32x4.extmul_high_i16x8_u"];
   (* 0xC0 *)
   Op [] ["i64x2.abs"]; Op [] ["i64x2.neg"]; No; Op [] ["i64x2.all_true"];
   Op [] ["i64x2.bitmask"]; No; No; Op [] ["i64x2.extend_low_i32x4_s"];
   Op [] ["i64x2.extend_high_i32x4_s"]; Op [] ["i64x2.extend_low_i32x4_u"];
   Op [] ["i64x2.extend_high_i32x4_u"]; Op [] ["i64x2.shl"]; Op [] ["i64x2.shr_s"];
   Op [] ["i64x2.shr_u"]; Op [] ["i64x2.add"]; No;
   (* 0xD0 *)
   No; Op [] ["i64x2.sub"]; No; No; No; Op [] ["i64x2.mul"]; Op [] ["i64x2.eq"]; Op [] ["i64x2.ne"];
   Op [] ["i64x2.lt_s"]; Op [] ["i64x2.gt_s"]; Op [] ["i64x2.le_s"]; Op [] ["i64x2.ge_s"];
   Op [] ["i64x2.extmul_low_i8x16_s"]; Op [] ["i64x2.extmul_high_i8x16_s"];
   Op [] ["i64x2.extmul_low_i8x16_u"]; Op [] ["i64x2.extmul_high_i8x16_u"];
   (* 0xE0 *)
   Op [] ["f32x4.abs"]; Op [] ["f32x4.neg"]; No; Op [] ["f32x4.sqrt"]; Op [] ["f32x4.add"];
   Op [] ["f32x4.sub"]; Op [] ["f32x4.mul"]; Op [] ["f32x4.div"]; Op [] ["f32x4.min"];
   Op [] ["f32x4.max"]; Op [] ["f32x4.pmin"]; Op [] ["f32x4.pmax"]; Op [] ["f64x2.abs"];
   Op [] ["f64x2.neg"]; No; Op [] ["f64x2.sqrt"];
   (* 0xF0 *)
   Op [] ["f64x2.add"]; Op [] ["f64x2.sub"]; Op [] ["f64x2.mul"]; Op [] ["f64x2.div"];
   Op [] ["f64x2.min"]; Op [] ["f64x2.max"]; Op [] ["f64x2.pmin"]; Op [] ["f64x2.pmax"];
   Op [] ["i32x4.trunc_sat_f32x4_s"]; Op [] ["i32x4.trunc_sat_f32x4_u"];
   Op [] ["f32x4.convert_i32x4_s"]; Op [] ["f32x4.convert_i32x4_u"];
   Op [] ["i32x4.trunc_sat_f64x2_s_zero"]; Op [] ["i32x4.trunc_sat_f64x2_u_zero"];
   Op [] ["f64x2.convert_low_i32x4_s"]; Op [] ["f64x2.convert_low_i32x4_u"]
  ].

(** The one-byte plane; its entries [0xFC] and [0xFD] hold the two planes above. *)
Definition DISASM : list ins :=
  [
   (* 0x00 *)
   Op [] ["unreachable"]; Op [] ["nop"]; Op [OStr "bt"] ["block"; "bt"];
   Op [OStr "bt"] ["loop"; "bt"]; Op [OStr "bt"] ["if"; "bt"]; Op [] ["else"]; No; No; No; No; No;
   Op [] ["end"]; Op [OStr "lid"] ["br"; "lid"]; Op [OStr "lid"] ["br_if"; "lid"];
   Op [OStr "lid+"] ["br_table"; "lid+"]; Op [] ["return"];
   (* 0x10 *)
   Op [OStr "fid"] ["call"; "fid"];
   Op [OStr "xid"; OStr "tid"] ["call_indirect"; "xid"; "tid"]; No; No; No; No; No; No; No; No;
   Op [] ["drop"]; Op [] ["select"]; Op [OStr "t+"] ["select"; "t+"]; No; No; No;
   (* 0x20 *)
   Op [OStr "lid"] ["local.get"; "lid"]; Op [OStr "lid"] ["local.set"; "lid"];
   Op [OStr "lid"] ["local.tee"; "lid"]; Op [OStr "gid"] ["global.get"; "gid"];
   Op [OStr "gid"] ["global.set"; "gid"]; Op [OStr "tid"] ["table.get"; "tid"];
   Op [OStr "tid"] ["table.set"; "tid"]; No; Op [OStr "mao"] ["i32.load"; "mao"];
   Op [OStr "mao"] ["i64.load"; "mao"]; Op [OStr "mao"] ["f32.load"; "mao"];
   Op [OStr "mao"] ["f64.load"; "mao"]; Op [OStr "mao"] ["i32.load8_s"; "mao"];
   Op [OStr "mao"] ["i32.load8_u"; "mao"]; Op [OStr "mao"] ["i32.load16_s"; "mao"];
   Op [OStr "mao"] ["i32.load16_u"; "mao"];
   (* 0x30 *)
   Op [OStr "mao"] ["i64.load8_s"; "mao"]; Op [OStr "mao"] ["i64.load8_u"; "mao"];
   Op [OStr "mao"] ["i64.load16_s"; "mao"]; Op [OStr "mao"] ["i64.load16_u"; "mao"];
   Op [OStr "mao"] ["i64.load32_s"; "mao"]; Op [OStr "mao"] ["i64.load32_u"; "mao"];
   Op [OStr "mao"] ["i32.store"; "mao"]; Op [OStr "mao"] ["i64.store"; "mao"];
   Op [OStr "mao"] ["f32.store"; "mao"]; Op [OStr "mao"] ["f64.store"; "mao"];
   Op [OStr "mao"] ["i32.store8"; "mao"]; Op [OStr "mao"] ["i32.store16"; "mao"];
   Op [OStr "mao"] ["i64.store8"; "mao"]; Op [OStr "mao"] ["i64.store16"; "mao"];
   Op [OStr "mao"] ["i64.store32"; "mao"]; Op [OInt 0] ["memory.size"];
   (* 0x40 *)
   Op [OInt 0] ["memory.grow"]; Op [OStr "i32"] ["i32.const"; "i32"];
   Op [OStr "i64"] ["i64.const"; "i64"]; Op [OStr "f32"] ["f32.const"; "f32"];
   Op [OStr "f64"] ["f64.const"; "f64"]; Op [] ["i32.eqz"]; Op [] ["i32.eq"]; Op [] ["i32.ne"];
   Op [] ["i32.lt_s"]; Op [] ["i32.lt_u"]; Op [] ["i32.gt_s"]; Op [] ["i32.gt_u"];
   Op [] ["i32.le_s"]; Op [] ["i32.le_u"]; Op [] ["i32.ge_s"]; Op [] ["i32.ge_u"];
   (* 0x50 *)
   Op [] ["i64.eqz"]; Op [] ["i64.eq"]; Op [] ["i64.ne"]; Op [] ["i64.lt_s"]; Op [] ["i64.lt_u"];
   Op [] ["i64.gt_s"]; Op [] ["i64.gt_u"]; Op [] ["i64.le_s"]; Op [] ["i64.le_u"];
   Op [] ["i64.ge_s"]; Op [] ["i64.ge_u"]; Op [] ["f32.eq"]; Op [] ["f32.ne"]; Op [] ["f32.lt"];
   Op [] ["f32.gt"]; Op [] ["f32.le"];
   (* 0x60 *)
   Op [] ["f32.ge"]; Op [] ["f64.eq"]; Op [] ["f64.ne"]; Op [] ["f64.lt"]; Op [] ["f64.gt"];
   Op [] ["f64.le"]; Op [] ["f64.ge"]; Op [] ["i32.clz"]; Op [] ["i32.ctz"];
   Op [] ["i32.popcnt"]; Op [] ["i32.add"]; Op [] ["i32.sub"]; Op [] ["i32.mul"];
   Op [] ["i32.div_s"]; Op [] ["i32.div_u"]; Op [] ["i32.rem_s"];
   (* 0x70 *)
   Op [] ["i32.rem_u"]; Op [] ["i32.and"]; Op [] ["i32.or"]; Op [] ["i32.xor"];
   Op [] ["i32.shl"]; Op [] ["i32.shr_s"]; Op [] ["i32.shr_u"]; Op [] ["i32.rotl"];
   Op [] ["i32.rotr"]; Op [] ["i64.clz"]; Op [] ["i64.ctz"]; Op [] ["i64.popcnt"];
   Op [] ["i64.add"]; Op [] ["i64.sub"]; Op [] ["i64.mul"]; Op [] ["i64.div_s"];
   (* 0x80 *)
   Op [] ["i64.div_u"]; Op [] ["i64.rem_s"]; Op [] ["i64.rem_u"]; Op [] ["i64.and"];
   Op [] ["i64.or"]; Op [] ["i64.xor"]; Op [] ["i64.shl"]; Op [] ["i64.shr_s"];
   Op [] ["i64.shr_u"]; Op [] ["i64.rotl"]; Op [] ["i64.rotr"]; Op [] ["f32.abs"];
   Op [] ["f32.neg"]; Op [] ["f32.ceil"]; Op [] ["f32.floor"]; Op [] ["f32.trunc"];
   (* 0x90 *)
   Op [] ["f32.nearest"]; Op [] ["f32.sqrt"]; Op [] ["f32.add"]; Op [] ["f32.sub"];
   Op [] ["f32.mul"]; Op [] ["f32.div"]; Op [] ["f32.min"]; Op [] ["f32.max"];
   Op [] ["f32.copysign"]; Op [] ["f64.abs"]; Op [] ["f64.neg"]; Op [] ["f64.ceil"];
   Op [] ["f64.floor"]; Op [] ["f64.trunc"]; Op [] ["f64.nearest"]; Op [] ["f64.sqrt"];
   (* 0xA0 *)
   Op [] ["f64.add"]; Op [] ["f64.sub"]; Op [] ["f64.mul"]; Op [] ["f64.div"]; Op [] ["f64.min"];
   Op [] ["f64.max"]; Op [] ["f64.copysign"]; Op [] ["i32.wrap"]; Op [] ["i32.trunc_f32_s"];
   Op [] ["i32.trunc_f32_u"]; Op [] ["i32.trunc_f64_s"]; Op [] ["i32.trunc_f64_u"];
   Op [] ["i64.extend_i32_s"]; Op [] ["i64.extend_i32_u"]; Op [] ["i64.trunc_f32_s"];
   Op [] ["i64.trunc_f32_u"];
   (* 0xB0 *)
   Op [] ["i64.trunc_f64_s"]; Op [] ["i64.trunc_f64_u"]; Op [] ["f32.convert_i32_s"];
   Op [] ["f32.convert_i32_u"]; Op [] ["f32.convert_i64_s"]; Op [] ["f32.convert_i64_u"];
   Op [] ["f32.demote_f64"]; Op [] ["f64.convert_i32_s"]; Op [] ["f64.convert_i32_u"];
   Op [] ["f64.convert_i64_s"]; Op [] ["f64.convert_i64_u"]; Op [] ["f64.promote_f32"];
   Op [] ["i32.reinterpret_f32"]; Op [] ["i64.reinterpret_f64"]; Op [] ["f32.reinterpret_i32"];
   Op [] ["f64.reinterpret_i64"];
   (* 0xC0 *)
   Op [] ["i32.extend8_s"]; Op [] ["i32.extend16_s"]; Op [] ["i64.extend8_s"];
   Op [] ["i64.extend16_s"]; Op [] ["i64.extend32_s"]; No; No; No; No; No; No; No; No; No; No; No;
   (* 0xD0 *)
   Op [OStr "ref"] ["ref.null"; "ref"]; Op [] ["ref.is_null"];
   Op [OStr "fid"] ["ref.func"; "fid"]; No; No; No; No; No; No; No; No; No; No; No; No; No;
   (* 0xE0 *)
   No; No; No; No; No; No; No; No; No; No; No; No; No; No; No; No;
   (* 0xF0 *)
   No; No; No; No; No; No; No; No; No; No; No; No; Plane DISASM_FC; Plane DISASM_FD; No; No
  ].

(** ** Instructions *)

(** [not entry]: an empty list is false. *)
Definition ins_is_empty (entry : ins) : bool :=
  match entry with
  | No => true
  | Op _ _ => false
  | Plane plane => match plane with [] => true | _ => false end
  end.

(** [ins[code2]] for the entry found under a prefix byte.  The two prefix
    entries of the table are planes; indexing an [Op] entry would yield one
    of its two lists, which is no entry, and is reported as a [TypeError]
    here (the table as written never leads there). *)
Definition ins_getitem (entry : ins) (code2 : Z) : outcome ins :=
  match entry with
  | Plane plane => py_getitem list_index_msg plane code2
  | No => py_getitem list_index_msg [] code2
  | Op _ _ => Raise (TypeError "opcode entry used as a plane")
  end.

Definition index_operands : list string :=
  ["i32"; "i64"; "did"; "eid"; "fid"; "gid"; "lid"; "mid"; "tid"; "tid1"; "tid2"; "xid"].

Definition hex_bytes (data : list Z) : string :=
  join " " (map (fun b => "0x" ++ hex02 b) data).

(** One turn of the loop [for op in ins[0]]. *)
Definition operand_decode (asm0 indent : string) (op : operand) : M unit :=
  match op with
  | OInt op =>
    sfx <- on_stream Cursor.byte ;;
    if op =? int sfx
    then dprint1 (Some (ValueData.data sfx)) (indent ++ "(code:0x" ++ hex02 op ++ ")")
    else raise (NotImplementedError
                  ("unknown instruction code: " ++ asm0 ++ " -> 0x" ++ hex02 op))
  | OStr op =>
    if existsb (String.eqb op) index_operands then
      code <- on_stream Cursor.leb128u ;;
      dprint1 (Some (ValueData.data code)) (indent ++ str_int (int code))
    else if String.eqb op "f32" then
      code <- on_stream (ReadData.load 4) ;;
      dprint (Some code) [LineFloat indent (ReadData.data code)]
    else if String.eqb op "f64" then
      code <- on_stream (ReadData.load 8) ;;
      dprint (Some code) [LineFloat indent (ReadData.data code)]
    else if py_eq (PyStr op) (PyTuple [PyStr "vb16"; PyStr "vlt"]) then
      code <- on_stream (ReadData.load 16) ;;
      dprint1 (Some code) (indent ++ hex_bytes (ReadData.data code))
    else if String.eqb op "vl" then
      code <- on_stream Cursor.byte ;;
      dprint1 (Some (ValueData.data code)) (indent ++ "lane = 0x" ++ hex02 (int code))
    else if String.eqb op "mao" then
      code <- on_stream Cursor.leb128u ;;
      dprint1 (Some (ValueData.data code)) (indent ++ "align = " ++ str_int (int code)) ;;
      code <- on_stream Cursor.leb128u ;;
      dprint1 (Some (ValueData.data code)) (indent ++ "offset = " ++ str_int (int code))
    else if String.eqb op "bt" then
      leb128 <- on_stream Cursor.leb128 ;;
      cbt <- pure_outcome (ReadData.getitem leb128 0) ;;
      sbt <- (if negb (Z.land cbt 0x40 =? 0)
              then ret (if cbt =? 0x40 then "(empty)" else get_valtype cbt)
              else v <- pure_outcome (decode_leb128s (ReadData.data leb128)) ;;
                   ret (str_int v)) ;;
      dprint1 (Some leb128) (indent ++ sbt)
    else if String.eqb op "t+" then
      leb128 <- on_stream Cursor.leb128u ;;
      let count := int leb128 in
      dprint1 (Some (ValueData.data leb128)) (indent ++ "(types=" ++ str_int count ++ ")") ;;
      for_range count (fun _ =>
        cvt <- read_valtype ;;
        dprint1 (Some (ValueData.data cvt)) (indent ++ str cvt))
    else if String.eqb op "lid+" then
      leb128 <- on_stream Cursor.leb128u ;;
      let count := int leb128 in
      dprint1 (Some (ValueData.data leb128)) (indent ++ "(types=" ++ str_int count ++ ")") ;;
      for_range count (fun _ =>
        lid <- on_stream Cursor.leb128u ;;
        dprint (Some (ValueData.data lid)) [LineObject indent])
    else if String.eqb op "ref" then
      crt <- read_reftype ;;
      dprint1 (Some (ValueData.data crt)) (indent ++ str crt)
    else raise (NotImplementedError (asm0 ++ " -> " ++ op))
  end.

Definition instruction (indent_base indent_level indent_step : Z) : M string :=
  s0 <- get ;;
  let rpos := ReadData.rpos (stream s0) in
  scode1 <- on_stream Cursor.byte ;;
  let code1 := int scode1 in
  entry <- pure_outcome (py_getitem list_index_msg DISASM code1) ;;
  entry <- (if (code1 =? 0xFC) || (code1 =? 0xFD) then
              scode2 <- on_stream Cursor.leb128u ;;
              pure_outcome (ins_getitem entry (int scode2))
            else ret entry) ;;
  data <- on_stream (ReadData.reload rpos) ;;
  if ins_is_empty entry
  then raise (NotImplementedError ("unknown instruction: " ++ hex_bytes (ReadData.data data)))
  else
    match entry with
    | Op ops asm =>
      asm0 <- pure_outcome (py_getitem list_index_msg asm 0) ;;
      let indent_level :=
        if String.eqb asm0 "else" || String.eqb asm0 "end"
        then Z.max 0 (indent_level - 1) else indent_level in
      let indent_depth := (indent_base + indent_level) * indent_step in
      let indent := spaces indent_depth in
      dprint1 (Some data) (indent ++ asm0) ;;
      let indent := indent ++ "  --> " in
      for_each ops (operand_decode asm0 indent) ;;
      ret asm0
    | _ => raise (TypeError "opcode plane used as an entry")
    end.

(** The walker.  [fuel] bounds the number of loop turns and nested calls
    on any one path; [expression] starts it with one more than the number
    of bytes left, which is always enough (see [expression_fuel_enough]).
    The nested calls are those of Python, one for every open block; the
    recursion limit of the interpreter is not rendered. *)
Fixpoint expression_fuel (fuel : nat) (indent_base indent_level indent_step : Z)
  : M unit :=
  match fuel with
  | O => pure_outcome OutOfFuel
  | S fuel' =>
    s <- get ;;
    if (0 <? ReadData.remain (stream s))%nat then
      asm <- instruction indent_base indent_level indent_step ;;
      if String.eqb asm "end" then ret tt
      else
        (if existsb (String.eqb asm) ["block"; "loop"; "if"]
         then expression_fuel fuel' indent_base (indent_level + 1) indent_step
         else ret tt) ;;
        expression_fuel fuel' indent_base indent_level indent_step
    else ret tt
  end.

Definition expression (indent_base indent_level indent_step : Z) : M unit :=
  s <- get ;;
  expression_fuel (S (ReadData.remain (stream s))) indent_base indent_level indent_step.

(** ** Sections *)

Definition section_remain : M unit :=
  s <- get ;;
  remain <- on_stream (ReadData.load (ReadData.remain (stream s))) ;;
  if (0 <? ReadData.len remain)%nat then
    dprint1 None ("unknown data: size = " ++ str_int (Z.of_nat (ReadData.len remain))) ;;
    dprint (Some remain) (data_strings (BYTESW s) (ReadData.data remain) EmptyString)
  else ret tt.

Definition custom_section : M unit :=
  name <- on_stream Cursor.utf8 ;;
  dprint1 (Some (ValueData.data name)) ("name = " ++ dquote ++ str name ++ dquote) ;;
  s <- get ;;
  byte <- on_stream (ReadData.load (ReadData.remain (stream s))) ;;
  dprint (Some byte) (data_strings (BYTESW s) (ReadData.data byte) EmptyString).

Definition type_section : M unit :=
  let indent := spaces 2 in
  vsiz <- on_stream Cursor.leb128u ;;
  let vlen := int vsiz in
  dprint1 (Some (ValueData.data vsiz)) ("functype count = " ++ str_int vlen) ;;
  for_range vlen (fun typeidx =>
    dprint1 None ("typeidx[" ++ str_int typeidx ++ "]") ;;
    code <- on_stream Cursor.byte ;;
    match dict_get FUNCTYPE (int code) with
    | None => raise (NotImplementedError ("unknown code: 0x" ++ hex02 (int code)))
    | Some name =>
      dprint1 (Some (ValueData.data code)) (indent ++ name) ;;
      result_type "param" indent ;;
      result_type "result" indent
    end) ;;
  section_remain.

Definition import_section : M unit :=
  let indent := spaces 2 in
  let nindent := spaces 4 in
  vsiz <- on_stream Cursor.leb128u ;;
  let vlen := int vsiz in
  dprint1 (Some (ValueData.data vsiz)) ("import count = " ++ str_int vlen) ;;
  for_range vlen (fun idx =>
    dprint1 None ("import[" ++ str_int idx ++ "]") ;;
    mod' <- on_stream Cursor.utf8 ;;
    dprint1 (Some (ValueData.data mod'))
            (indent ++ "module = " ++ dquote ++ str mod' ++ dquote) ;;
    name <- on_stream Cursor.utf8 ;;
    dprint1 (Some (ValueData.data name))
            (indent ++ "name = " ++ dquote ++ str name ++ dquote) ;;
    imp <- on_stream Cursor.byte ;;
    let mode := int imp in
    let mnam := dict_get IMPORT_MODE mode in
    dprint1 (Some (ValueData.data imp)) (indent ++ str_opt mnam) ;;
    if mode =? 0 then
      typeidx <- on_stream Cursor.leb128u ;;
      dprint1 (Some (ValueData.data typeidx)) (nindent ++ "typeidx = " ++ str_int (int typeidx))
    else if mode =? 1 then
      reference_type nindent ;;
      limits nindent
    else if mode =? 2 then
      limits nindent
    else if mode =? 3 then
      value_type nindent ;;
      mutability nindent
    else raise (NotImplementedError ("unknown import section: " ++ str_int mode))) ;;
  section_remain.

Definition function_section : M unit :=
  let indent := spaces 2 in
  vsiz <- on_stream Cursor.leb128u ;;
  let vlen := int vsiz in
  dprint1 (Some (ValueData.data vsiz)) ("typeidx count = " ++ str_int vlen) ;;
  for_range vlen (fun idx =>
    code <- on_stream Cursor.leb128u ;;
    dprint1 (Some (ValueData.data code))
            (indent ++ "typeidx[" ++ str_int idx ++ "] = " ++ str_int (int code))) ;;
  section_remain.

Definition table_section : M unit :=
  let indent := spaces 2 in
  vsiz <- on_stream Cursor.leb128u ;;
  let vlen := int vsiz in
  dprint1 (Some (ValueData.data vsiz)) ("table count = " ++ str_int vlen) ;;
  for_range vlen (fun idx =>
    dprint1 None ("table[" ++ str_int idx ++ "]") ;;
    reference_type indent ;;
    limits indent) ;;
  section_remain.

Definition memory_section : M unit :=
  let indent := spaces 2 in
  vsiz <- on_stream Cursor.leb128u ;;
  let vlen := int vsiz in
  dprint1 (Some (ValueData.data vsiz)) ("memtype count = " ++ str_int vlen) ;;
  for_range vlen (fun idx =>
    dprint1 None ("mem[" ++ str_int idx ++ "]") ;;
    limits indent) ;;
  section_remain.

Definition global_section : M unit :=
  let indent := spaces 2 in
  vsiz <- on_stream Cursor.leb128u ;;
  let vlen := int vsiz in
  dprint1 (Some (ValueData.data vsiz)) ("global count = " ++ str_int vlen) ;;
  for_range vlen (fun idx =>
    dprint1 None ("global[" ++ str_int idx ++ "]") ;;
    value_type (indent ++ "valtype = ") ;;
    mutability (indent ++ "mut = ") ;;
    dprint1 None (indent ++ "expr") ;;
    expression 2 0 2) ;;
  section_remain.

Definition export_section : M unit :=
  let indent := spaces 2 in
  let nindent := spaces 4 in
  vsiz <- on_stream Cursor.leb128u ;;
  let vlen := int vsiz in
  dprint1 (Some (ValueData.data vsiz)) ("export count = " ++ str_int vlen) ;;
  for_range vlen (fun idx =>
    dprint1 None ("export[" ++ str_int idx ++ "]") ;;
    name <- on_stream Cursor.utf8 ;;
    dprint1 (Some (ValueData.data name))
            (indent ++ "name = " ++ dquote ++ str name ++ dquote) ;;
    exp <- on_stream Cursor.byte ;;
    let mode := int exp in
    let mnam := dict_get EXPORT_MODE mode in
    dprint1 (Some (ValueData.data exp)) (indent ++ str_opt mnam) ;;
    match mnam with
    | None => raise (NotImplementedError ("unknown export section: " ++ str_int mode))
    | Some mnam =>
      etid <- on_stream Cursor.leb128u ;;
      dprint1 (Some (ValueData.data etid)) (nindent ++ mnam ++ "idx = " ++ str_int (int etid))
    end) ;;
  section_remain.

Definition start_section : M unit :=
  funcidx <- on_stream Cursor.leb128u ;;
  dprint1 (Some (ValueData.data funcidx)) ("funcidx = " ++ str_int (int funcidx)) ;;
  section_remain.

(** [kind != 0] compares an [Integer] object with an int.  [Integer]
    defines [__int__] only, so the comparison is the default one, by
    identity; which identity the object has plays no part in it. *)
Definition Integer_ne_int (kind : Integer) (n : Z) : bool :=
  py_ne (PyObject 0) (PyInt n).

Definition element_section : M unit :=
  let indent := spaces 2 in
  vsiz <- on_stream Cursor.leb128u ;;
  let vlen := int vsiz in
  dprint1 (Some (ValueData.data vsiz)) ("element count = " ++ str_int vlen) ;;
  for_range vlen (fun idx =>
    code <- on_stream Cursor.byte ;;
    let mode := int code in
    dprint1 (Some (ValueData.data code))
            ("elem[" ++ str_int idx ++ "] (mode:" ++ str_int mode ++ ")") ;;
    if 8 <=? mode then raise (NotImplementedError ("unknown element: " ++ str_int mode))
    else
      (if (mode =? 2) || (mode =? 6) then
         tabidx <- on_stream Cursor.leb128u ;;
         dprint1 (Some (ValueData.data tabidx)) (indent ++ "tableidx = " ++ str_int (int tabidx))
       else ret tt) ;;
      (if Z.land mode 1 =? 0 then
         dprint1 None (indent ++ "expr") ;;
         expression 2 0 2
       else ret tt) ;;
      if negb (Z.land mode 4 =? 0) then
        (if negb (Z.land mode 3 =? 0) then
           cvt <- read_valtype ;;
           dprint1 (Some (ValueData.data cvt)) (indent ++ str cvt)
         else ret tt) ;;
        exprs <- on_stream Cursor.leb128u ;;
        let count := int exprs in
        dprint1 (Some (ValueData.data exprs)) (indent ++ "expr count = " ++ str_int count) ;;
        for_range count (fun idx =>
          dprint1 None (indent ++ "expr[" ++ str_int idx ++ "]") ;;
          expression 2 0 2)
      else
        (if negb (Z.land mode 3 =? 0) then
           kind <- on_stream Cursor.byte ;;
           if Integer_ne_int kind 0
           then raise (NotImplementedError ("unknown elemkind: " ++ str_int (int kind)))
           else dprint1 (Some (ValueData.data kind)) (indent ++ "funcref")
         else ret tt) ;;
        exprs <- on_stream Cursor.leb128u ;;
        let count := int exprs in
        dprint1 (Some (ValueData.data exprs)) (indent ++ "funcidx count = " ++ str_int count) ;;
        for_range count (fun idx =>
          fid <- on_stream Cursor.leb128u ;;
          dprint1 (Some (ValueData.data fid))
                  (indent ++ "funcidx[" ++ str_int idx ++ "] = " ++ str_int (int fid)))) ;;
  section_remain.

Definition code_section : M unit :=
  let indent := spaces 2 in
  vsiz <- on_stream Cursor.leb128u ;;
  let vlen := int vsiz in
  dprint1 (Some (ValueData.data vsiz)) ("code count = " ++ str_int vlen) ;;
  for_range vlen (fun idx =>
    csz <- on_stream Cursor.leb128u ;;
    dprint1 None ("code[" ++ str_int idx ++ "]") ;;
    dprint1 (Some (ValueData.data csz)) (indent ++ "code size = " ++ str_int (int csz)) ;;
    code <- on_stream (ReadData.load (Z.to_nat (int csz))) ;;
    with_stream code
      (lsz <- on_stream Cursor.leb128u ;;
       dprint1 (Some (ValueData.data lsz)) (indent ++ "local size = " ++ str_int (int lsz)) ;;
       for_range (int lsz) (fun lnum =>
         tcnt <- on_stream Cursor.leb128u ;;
         dprint1 None (indent ++ "local[" ++ str_int lnum ++ "]") ;;
         dprint1 (Some (ValueData.data tcnt))
                 (indent ++ "  type count = " ++ str_int (int tcnt)) ;;
         cvt <- read_valtype ;;
         dprint1 (Some (ValueData.data cvt)) (indent ++ "  type = " ++ str cvt)) ;;
       expression 1 0 2 ;;
       section_remain)) ;;
  section_remain.

(** [memidx.code]: an [Integer] has the attributes [value] and [data]
    only, so evaluating the first argument of the call raises. *)
Definition Integer_code (memidx : Integer) : outcome ReadData.t :=
  Raise (AttributeError "'Integer' object has no attribute 'code'").

Definition data_section : M unit :=
  let indent := spaces 2 in
  vsiz <- on_stream Cursor.leb128u ;;
  let vlen := int vsiz in
  dprint1 (Some (ValueData.data vsiz)) ("data count = " ++ str_int vlen) ;;
  for_range vlen (fun idx =>
    code <- on_stream Cursor.leb128u ;;
    let mode := int code in
    dprint1 (Some (ValueData.data code))
            ("data[" ++ str_int idx ++ "] (mode=" ++ str_int mode ++ ")") ;;
    if 3 <=? mode then raise (NotImplementedError ("unknown data: mode=" ++ str_int mode))
    else
      (if mode =? 2 then
         memidx <- on_stream Cursor.leb128u ;;
         span <- pure_outcome (Integer_code memidx) ;;
         dprint1 (Some span) (indent ++ "memidx = " ++ str_int (int memidx))
       else ret tt) ;;
      (if (mode =? 0) || (mode =? 2) then expression 1 0 2 else ret tt) ;;
      bsz <- on_stream Cursor.leb128u ;;
      dprint1 (Some (ValueData.data bsz)) (indent ++ "init size = " ++ str_int (int bsz)) ;;
      bdt <- on_stream (ReadData.load (Z.to_nat (int bsz))) ;;
      s <- get ;;
      dprint (Some bdt) (data_strings (BYTESW s) (ReadData.data bdt) (indent ++ "  "))) ;;
  section_remain.

Definition datacount_section : M unit :=
  count <- on_stream Cursor.long ;;
  dprint1 (Some (ValueData.data count)) ("data count = " ++ str_int (int count)) ;;
  section_remain.

(** ** The driver *)

Definition FILE_MAGIC : list Z := [0x00; 0x61; 0x73; 0x6D].

Definition SECTION_NAME : list string :=
  ["Custom"; "Type"; "Import"; "Function"; "Table"; "Memory"; "Global"; "Export";
   "Start"; "Element"; "Code"; "Data"; "Data Count"].

Definition SECTION_FUNC : list (M unit) :=
  [custom_section; type_section; import_section; function_section; table_section;
   memory_section; global_section; export_section; start_section; element_section;
   code_section; data_section; datacount_section].

Definition bytes_eqb (a b : list Z) : bool :=
  if list_eq_dec Z.eq_dec a b then true else false.

(** The loop [while file.remain()] of [main]; every turn reads at least
    the section id, so [fuel] above the number of bytes left is enough. *)
Fixpoint sections_fuel (fuel : nat) : M unit :=
  match fuel with
  | O => pure_outcome OutOfFuel
  | S fuel' =>
    s <- get ;;
    if (0 <? ReadData.remain (stream s))%nat then
      print LINE_SEP ;;
      secid <- on_stream Cursor.byte ;;
      let sid := int secid in
      name <- pure_outcome (py_getitem tuple_index_msg SECTION_NAME sid) ;;
      dprint1 (Some (ValueData.data secid))
              (name ++ " Section (id=" ++ str_int sid ++ ")") ;;
      secsize <- on_stream Cursor.leb128u ;;
      let ssz := int secsize in
      dprint1 (Some (ValueData.data secsize)) ("section size = " ++ str_int ssz) ;;
      handler <- pure_outcome (py_getitem tuple_index_msg SECTION_FUNC sid) ;;
      section <- on_stream (ReadData.read (Z.to_nat ssz)) ;;
      with_stream section handler ;;
      sections_fuel fuel'
    else ret tt
  end.

(** [main] from the point where the file has been read: [path] and
    [width] are the command-line arguments, [data] the file. *)
Definition main (path : string) (width : positive) (data : list Z) : outcome unit * state :=
  (print LINE_SEP ;;
   print ("Path: " ++ path) ;;
   print LINE_SEP ;;
   magic <- on_stream (ReadData.read 4) ;;
   dprint1 (Some magic) ("magic = " ++ repr_bytes (ReadData.data magic)) ;;
   if negb (bytes_eqb (ReadData.data magic) FILE_MAGIC) then raise (ValueError EmptyString)
   else
     version <- on_stream Cursor.long ;;
     dprint1 (Some (ValueData.data version)) ("version = " ++ str_int (int version)) ;;
     sections_fuel (S (length data)))
  (mkState (ReadData.mk path data 0 0) [] width).

(** * Vocabulary of the properties *)

Import ReadData.

(** The seven payload bits of the bytes, least significant group first. *)
Fixpoint leb128_value (bs : list Z) : Z :=
  match bs with
  | [] => 0
  | b :: rest => Z.land b 0x7F + 128 * leb128_value rest
  end.

(** [sum_below n f] is the sum of [f 0], ..., [f (n - 1)]. *)
Fixpoint sum_below (n : nat) (f : nat -> Z) : Z :=
  match n with
  | O => 0
  | S k => sum_below k f + f k
  end.

(** The value the specification gives to the bytes [b_0 .. b_(n-1)]:
    the sum over [i] of [(b_i & 0x7F) << (7 * i)]. *)
Definition leb128_sum (bs : list Z) : Z :=
  sum_below (length bs)
            (fun i => Z.shiftl (Z.land (nth i bs 0) 0x7F) (7 * Z.of_nat i)).

(** One LEB128: bytes, all with the high bit set but the last one. *)
Definition is_byte (b : Z) : bool := (0 <=? b) && (b <? 256).

Fixpoint is_leb128 (bs : list Z) : bool :=
  match bs with
  | [] => false
  | [b] => is_byte b && negb (Z.testbit b 7)
  | b :: rest => is_byte b && Z.testbit b 7 && is_leb128 rest
  end.

(** ** The cursor *)


(** The read position lies inside the buffer. *)
Definition wf (c : t) : Prop := (rpos c <= length (data c))%nat.

(** [c'] is the object [c] with its read position moved. *)
Definition same_buffer (c c' : t) : Prop :=
  path c' = path c /\ data c' = data c /\ fpos c' = fpos c.

(** The law of spans: the span starts where the cursor stood, and the
    cursor moved by the number of bytes of the span. *)
Definition span_law (c span c' : t) : Prop :=
  fpos span = (fpos c + rpos c)%nat /\ rpos c' = (rpos c + length (data span))%nat.

(** A read that keeps the buffer, stays inside it, never moves back, and
    returns a span obeying the law. *)
Definition reads {A : Type} (span_of : A -> t) (m : SE t A) : Prop :=
  forall c r c', wf c -> m c = (r, c') ->
    same_buffer c c' /\ wf c' /\ (rpos c <= rpos c')%nat /\ r <> OutOfFuel /\
    forall v, r = Return v -> span_law c (span_of v) c'.

(** The primitive reads of the cursor, under the names of the
    specification, each returning the span of what it read. *)
Inductive primitive : Type :=
| take (n : nat)
| require (n : nat)
| rewind_and_require (saved_pos : nat)
| u32_le
| leb128_raw
| leb128_u
| leb128_s
| utf8_name.

Definition span_of {A V : Type} (m : SE A (ValueData.t V)) : SE A t :=
  v <- m ;; ret (ValueData.data v).

Definition run (p : primitive) : SE t t :=
  match p with
  | take n => read n
  | require n => load n
  | rewind_and_require saved_pos => reload saved_pos
  | u32_le => span_of Cursor.long
  | leb128_raw => Cursor.leb128
  | leb128_u => span_of Cursor.leb128u
  | leb128_s => span_of Cursor.leb128s
  | utf8_name => span_of Cursor.utf8
  end.

(** What a primitive promises about the span it returns. *)
Definition span_promise (p : primitive) (c span c' : t) : Prop :=
  match p with
  | rewind_and_require saved_pos =>
    fpos span = (fpos c + saved_pos)%nat /\
    length (data span) = (rpos c - saved_pos)%nat /\
    rpos c' = rpos c
  | _ => span_law c span c'
  end.

(** ** Decoders keep the cursor inside its buffer and never move it back *)


(** [s'] continues [s]: the same buffer and width, the cursor inside the
    buffer and not before where it stood. *)
Definition continues (s s' : state) : Prop :=
  same_buffer (stream s) (stream s') /\ wf (stream s') /\
  (rpos (stream s) <= rpos (stream s'))%nat /\ BYTESW s' = BYTESW s.

(** A decoder is steady when every run from a well-formed cursor ends
    in a state that continues the first one, with a Python outcome. *)
Definition steady {A : Type} (m : M A) : Prop :=
  forall s r s', wf (stream s) -> m s = (r, s') -> continues s s' /\ r <> OutOfFuel.

(** [bounded n m]: from a well-formed cursor with fewer than [n] bytes
    left, [m] ends in a state that continues the first one, with a Python
    outcome. *)
Definition bounded {A : Type} (n : nat) (m : M A) : Prop :=
  forall s r s', wf (stream s) -> (remain (stream s) < n)%nat -> m s = (r, s') ->
                 continues s s' /\ r <> OutOfFuel.

(** ** The runs of the walker *)


(** ** Reading at a known byte *)

(** The bytes from the read position on. *)
Definition pending (c : t) : list Z := skipn (rpos c) (data c).

(** ** Unknown type codes *)


(** The failures the specification calls [TruncatedInput]: [load] found
    fewer bytes than asked for, or an index ran off a bytes object. *)
Definition TruncatedInput (e : exn) : bool :=
  match e with
  | IOError msg => String.prefix "not enough data: " msg
  | IndexError msg => String.eqb msg bytes_index_msg
  | _ => false
  end.

(** ** Vocabulary of the further properties *)

(** A byte that announces another byte of the same LEB128. *)
Definition continued (b : Z) : Prop := Z.land b 128 <> 0.

(** ** The byte ranges of the output *)

(** The span holds the bytes of the file [F] at its offset. *)
Definition shows (F : list Z) (sp : t) : Prop :=
  data sp = firstn (length (data sp)) (skipn (fpos sp) F).

(** Following the output from the top: a line group with a byte range is
    in order when the range starts at [pos], where the one before it ended,
    and holds the bytes of the file there; the next one must start where
    it ends.  Lines without a byte range are passed over. *)
Definition tile_step (F : list Z) (pos : option nat) (e : event) : option nat :=
  match pos, e with
  | Some p, Dprint (Some sp) _ =>
    if (fpos sp =? p)%nat && bytes_eqb (data sp) (firstn (length (data sp)) (skipn p F))
    then Some (p + length (data sp))%nat
    else None
  | _, _ => pos
  end.

(** [tile_end F evs = Some p]: the byte ranges of [evs], in the order of
    the output, are the bytes of [F] from offset 0 up to offset [p], with
    no gap, overlap or repetition. *)
Definition tile_end (F : list Z) (evs : list event) : option nat :=
  fold_left (tile_step F) evs (Some 0%nat).

(** The bytes of the left column, from the top. *)
Fixpoint printed_bytes (evs : list event) : list Z :=
  match evs with
  | [] => []
  | Dprint (Some sp) _ :: rest => (data sp ++ printed_bytes rest)%list
  | _ :: rest => printed_bytes rest
  end.

(** The output so far is in order. *)
Definition tiled (F : list Z) (s : state) : Prop :=
  exists p, tile_end F (out s) = Some p.

(** The cursor works on the buffer of [b], a slice of the file, and the
    output is in order up to position [p0] of that buffer, which the
    cursor has reached or passed. *)
Definition behind (F : list Z) (b : t) (p0 : nat) (s : state) : Prop :=
  same_buffer b (stream s) /\ wf (stream s) /\ shows F b /\
  tile_end F (out s) = Some (fpos b + p0)%nat /\ (p0 <= rpos (stream s))%nat.

(** The output has reached the cursor. *)
Definition in_step (F : list Z) (b : t) (s : state) : Prop :=
  behind F b (rpos (stream s)) s.

(** The output has reached the cursor but for the span [sp], read last
    and not written yet. *)
Definition owes (F : list Z) (b sp : t) (s : state) : Prop :=
  same_buffer b (stream s) /\ wf (stream s) /\ shows F b /\
  tile_end F (out s) = Some (fpos sp) /\ shows F sp /\ rpos sp = 0%nat /\
  (fpos sp + length (data sp) = fpos b + rpos (stream s))%nat.

(** The output has reached the cursor, and the cursor the end of its
    buffer. *)
Definition finished (F : list Z) (b : t) (s : state) : Prop :=
  in_step F b s /\ rpos (stream s) = length (data b).

(** From a state in [P], a run of [m] that returns [a] ends in [Q a], and
    any other run leaves the output in order. *)
Definition triple {A : Type} (F : list Z) (P : state -> Prop) (m : M A)
           (Q : A -> state -> Prop) : Prop :=
  forall s r s', P s -> m s = (r, s') ->
                 match r with
                 | Return a => Q a s'
                 | _ => tiled F s'
                 end.

(** The event carries no byte range. *)
Definition marginal (e : event) : Prop :=
  match e with
  | Dprint (Some _) _ => False
  | _ => True
  end.

(** [P] does not look at the lines without a byte range. *)
Definition stable (P : state -> Prop) : Prop :=
  forall s e, marginal e -> P s -> P (mkState (stream s) (out s ++ [e])%list (BYTESW s)).

(** The span a read returns is a new cursor on the bytes the cursor
    stood at, under the path of the cursor. *)
Definition slices {A : Type} (span_of : A -> t) (m : SE t A) : Prop :=
  forall c v c', wf c -> m c = (Return v, c') ->
                 rpos (span_of v) = 0%nat /\
                 data (span_of v) = firstn (length (data (span_of v))) (pending c) /\
                 path (span_of v) = path c.

(** ** The lines of a valid header *)

(** What [main] has written when the magic and the version have been
    read. *)
Definition header_lines (path : string) (version : list Z) : list event :=
  [Print LINE_SEP; Print ("Path: " ++ path); Print LINE_SEP;
   Dprint (Some (mk path FILE_MAGIC 0 0)) [Line ("magic = " ++ repr_bytes FILE_MAGIC)];
   Dprint (Some (mk path version 4 0))
          [Line ("version = " ++
                 str_int (Z.lor (Z.lor (Z.lor (nth 0 version 0) (Z.shiftl (nth 1 version 0) 8))
                                       (Z.shiftl (nth 2 version 0) 16))
                                (Z.shiftl (nth 3 version 0) 24)))]].

(** ** The exceptions of a dump *)

(** The exceptions that the bytes of a file can cause once its magic has
    been accepted.  [ValueError] is the answer to a wrong magic, and
    [TypeError] marks the two branches of the embedding that stand for an
    opcode table used against its shape. *)
Definition input_error (e : exn) : bool :=
  match e with
  | IOError _ | IndexError _ | NotImplementedError _ | UnicodeDecodeError
  | AttributeError _ => true
  | ValueError _ | TypeError _ => false
  end.

(** The buffer of the cursor holds bytes. *)
Definition bytes_buffer (c : t) : Prop := Forall (fun b => is_byte b = true) (data c).

(** A read that leaves the buffer as it is and fails with input errors
    only. *)
Definition plain {A : Type} (m : SE t A) : Prop :=
  forall c r c', m c = (r, c') ->
                 data c' = data c /\ forall e, r = Raise e -> input_error e = true.

(** A decoder that, on a buffer of bytes, leaves the buffer as it is and
    fails with input errors only. *)
Definition guarded {A : Type} (m : M A) : Prop :=
  forall s r s', bytes_buffer (stream s) -> m s = (r, s') ->
                 bytes_buffer (stream s') /\ forall e, r = Raise e -> input_error e = true.

(** The entry is an instruction or an empty slot, not a table. *)
Definition flat (entry : ins) : bool :=
  match entry with
  | Plane _ => false
  | _ => true
  end.

(** ** The limits of the interpreter *)

(** CPython converts an int to a decimal string only up to
    [sys.get_int_max_str_digits()] digits, 4300 by default: beyond that,
    [str] and an f-string raise [ValueError].  [str_int] renders the
    conversion within this limit, and [str_fits n] says that [n] is
    within it. *)
Definition int_max_str_digits : nat := 4300.

Definition str_fits (n : Z) : Prop := Z.abs n < 10 ^ Z.of_nat int_max_str_digits.

(** The integers of a file are LEB128s, and a LEB128 of [k] bytes is
    below [2^(7k)] in absolute value: one of at most [leb128_fit] bytes
    is within the limit of the conversion, and a longer one need not be.
    [continued_run run data] is the length of the longest run of bytes
    with the continuation bit set in [data], after [run] such bytes; in a
    file of [short_integers], no LEB128 is longer than [leb128_fit]
    bytes, wherever it is read from. *)
Definition leb128_fit : nat := 2040.

Fixpoint continued_run (run : nat) (data : list Z) : nat :=
  match data with
  | [] => run
  | b :: rest =>
    if Z.land b 128 =? 0 then Nat.max run (continued_run 0 rest)
    else continued_run (S run) rest
  end.

Definition short_integers (data : list Z) : Prop :=
  (continued_run 0 data < leb128_fit)%nat.

(** CPython ends a run with [RecursionError] when calls nest deeper than
    [sys.getrecursionlimit()], 1000 by default; the walker of the
    embedding nests without limit.  [expression] calls itself once for
    every block that is open, under the frames of the module, of [main]
    and of a section decoder, and above those of [instruction] and
    [dprint]: [max_nesting] open blocks are within the limit.  Every open
    block has its opcode byte in the file, [0x02] ([block]), [0x03]
    ([loop]) or [0x04] ([if]): a file that is [shallow] cannot nest
    deeper. *)
Definition max_nesting : nat := 900.

Definition opener (b : Z) : bool := (2 <=? b) && (b <=? 4).

Definition shallow (data : list Z) : Prop :=
  (length (filter opener data) <= max_nesting)%nat.

(** ** Well-nested instruction sequences *)

(** The mnemonics the walker acts on: [end] closes the sequence it is
    reading, and [block], [loop] and [if] open a nested one. *)
Definition closes (asm0 : string) : bool := String.eqb asm0 "end".

Definition nests (asm0 : string) : bool := existsb (String.eqb asm0) ["block"; "loop"; "if"].

(** An opcode without operand that neither opens nor closes a sequence
    ([else] is one of them). *)
Definition straight (b : Z) : bool :=
  match py_getitem list_index_msg DISASM b with
  | Return (Op [] (asm0 :: _)) => negb (closes asm0) && negb (nests asm0)
  | _ => false
  end.

(** An opcode followed by one index or integer constant. *)
Definition takes_index (b : Z) : bool :=
  match py_getitem list_index_msg DISASM b with
  | Return (Op [OStr kind] (asm0 :: _)) =>
    existsb (String.eqb kind) index_operands && negb (closes asm0) && negb (nests asm0)
  | _ => false
  end.

(** An opcode followed by a block type, whose mnemonic opens a nested
    sequence. *)
Definition opens (b : Z) : bool :=
  match py_getitem list_index_msg DISASM b with
  | Return (Op [OStr kind] (asm0 :: _)) =>
    String.eqb kind "bt" && negb (closes asm0) && nests asm0
  | _ => false
  end.

(** The bytes of a sequence of instructions up to and including the
    [end] that closes it, with blocks properly nested, at most [depth]
    deep.  The instructions are those without operand, those with one
    index or constant (within the limit of the conversion to decimal),
    and blocks with a block type of one byte. *)
Inductive body : nat -> list Z -> Prop :=
| body_end (depth : nat) : body depth [0x0B]
| body_straight (depth : nat) (b : Z) (rest : list Z) :
    straight b = true -> body depth rest -> body depth (b :: rest)
| body_index (depth : nat) (b : Z) (pre : list Z) (last : Z) (rest : list Z) :
    takes_index b = true -> Forall continued pre -> Z.land last 128 = 0 ->
    str_fits (decode_leb128u (pre ++ [last])) ->
    body depth rest -> body depth (b :: pre ++ last :: rest)
| body_block (depth : nat) (b bt : Z) (inner rest : list Z) :
    opens b = true -> Z.land bt 128 = 0 ->
    body depth inner -> body (S depth) rest -> body (S depth) (b :: bt :: inner ++ rest).

(** ** The left column *)

(** The formatting globals that [main] sets from the length of the file
    and the width: [fposw = len(f'{len(file) - 1:x}')], the format
    [ADRFMT = f'%0{fposw}x:'] applied to an offset, [LEFTW] and [LPAD]. *)
Definition fposw (file_len : nat) : nat :=
  String.length (hex_int (Z.of_nat file_len - 1)).

Definition ADRFMT (fposw : nat) (addr : nat) : string :=
  let digits := hex_int (Z.of_nat addr) in
  repeat_string "0" (fposw - String.length digits) ++ digits ++ ":".

Definition LEFTW (fposw : nat) (bytesw : positive) : nat :=
  (fposw + 2 + Pos.to_nat bytesw * 3 - 1)%nat.

Definition LPAD (fposw : nat) (bytesw : positive) : string :=
  repeat_string " " (LEFTW fposw bytesw).

(** [s[:n]]. *)
Definition str_take (n : nat) (s : string) : string := substring 0 n s.

(** The list [left] of [dprint] for the rows [data[p:p+BYTESW]], [p] in
    [range(0, len(data), BYTESW)]; [addr] is [data.fpos + p]. *)
Fixpoint left_rows (fposw : nat) (bytesw : positive) (addr : nat) (chunks : list (list Z))
  : list string :=
  match chunks with
  | [] => []
  | row :: rest =>
    str_take (LEFTW fposw bytesw)
             (ADRFMT fposw addr ++ " " ++ join " " (map hex02 row) ++ LPAD fposw bytesw)
    :: left_rows fposw bytesw (addr + Pos.to_nat bytesw) rest
  end.

(** The calls of [print] that a call of [dprint] makes, each as the text
    left of the separator [' | '] and the entry right of it
    ([print(llin + ' | ' + right[pos])]): the shorter of [left] and
    [right] is filled up, with [LPAD] or with empty entries.  An entry is
    printed as it is: one that holds a line feed continues on a further
    line of the output, which has no left column. *)
Definition dprint_calls (fposw : nat) (bytesw : positive) (data : option t)
           (message : list line) : list (string * line) :=
  let left :=
      match data with
      | None => []
      | Some d =>
        left_rows fposw bytesw (fpos d)
                  (rows (length (ReadData.data d)) (Pos.to_nat bytesw) (ReadData.data d))
      end in
  let diff := Z.of_nat (length message) - Z.of_nat (length left) in
  let left := (left ++ repeat (LPAD fposw bytesw) (Z.to_nat (Z.max 0 diff)))%list in
  let right := (message ++ repeat (Line EmptyString) (Z.to_nat (Z.max 0 (- diff))))%list in
  combine left right.

(** The number of line feeds of a text.  [print] ends what it writes
    with a line feed, so that a call writes one line, and one more for
    every line feed of its text. *)
Fixpoint line_feeds (s : string) : nat :=
  match s with
  | EmptyString => 0
  | String c rest => (if Ascii.eqb c "010"%char then 1 else 0) + line_feeds rest
  end.

(** A row as it reads when nothing is cut off: the offset, the bytes in
    hexadecimal, and three blanks for every byte the row is short of. *)
Fixpoint whole_rows (fposw : nat) (bytesw : positive) (addr : nat) (chunks : list (list Z))
  : list string :=
  match chunks with
  | [] => []
  | row :: rest =>
    (ADRFMT fposw addr ++ " " ++ join " " (map hex02 row)
            ++ repeat_string " " (3 * (Pos.to_nat bytesw - length row)))
    :: whole_rows fposw bytesw (addr + Pos.to_nat bytesw) rest
  end.

(** * Properties *)

(** ** LEB128 *)

Lemma fold_add_acc (xs : list Z) (acc : Z) :
  fold_left Z.add xs acc = acc + fold_left Z.add xs 0.
Proof.
  revert acc; induction xs as [|x xs IH]; intros acc; simpl.
  - lia.
  - rewrite IH, (IH x). lia.
Qed.

Lemma sum_enumerate_from (bs : list Z) (k : Z) :
  0 <= k ->
  py_sum (map (fun nv => Z.shiftl (Z.land (snd nv) 127) (fst nv * 7)) (enumerate_from k bs))
  = 2 ^ (7 * k) * leb128_value bs.
Proof.
  unfold py_sum. revert k; induction bs as [|b bs IH]; intros k Hk;
    cbn [enumerate_from map fold_left fst snd leb128_value].
  - lia.
  - rewrite fold_add_acc, IH by lia.
    rewrite Z.shiftl_mul_pow2 by lia.
    replace (7 * (k + 1)) with (7 * k + 7) by lia.
    rewrite Z.pow_add_r by lia.
    replace (k * 7) with (7 * k) by lia.
    change (2 ^ 7) with 128. rewrite Z.add_0_l. ring.
Qed.

Lemma decode_leb128u_value (bs : list Z) : decode_leb128u bs = leb128_value bs.
Proof.
  unfold decode_leb128u, enumerate.
  rewrite sum_enumerate_from by lia. change (2 ^ (7 * 0)) with 1. lia.
Qed.

Lemma sum_below_ext (n : nat) (f g : nat -> Z) :
  (forall i, (i < n)%nat -> f i = g i) -> sum_below n f = sum_below n g.
Proof.
  induction n as [|n IH]; intros H; cbn [sum_below]; [reflexivity|].
  rewrite IH, H by (intros; try apply H; lia). reflexivity.
Qed.

Lemma sum_below_shift (n : nat) (f : nat -> Z) :
  sum_below (S n) f = f O + sum_below n (fun i => f (S i)).
Proof.
  induction n as [|n IH].
  - cbn [sum_below]. lia.
  - change (sum_below (S (S n)) f) with (sum_below (S n) f + f (S n)).
    rewrite IH. cbn [sum_below]. lia.
Qed.

Lemma leb128_sum_value (bs : list Z) : leb128_sum bs = leb128_value bs.
Proof.
  unfold leb128_sum. induction bs as [|b bs IH].
  - reflexivity.
  - cbn [length leb128_value]. rewrite sum_below_shift.
    cbn [nth]. rewrite Z.shiftl_0_r. f_equal.
    rewrite <- IH.
    assert (E : forall n f, 128 * sum_below n f = sum_below n (fun i => 128 * f i)).
    { induction n as [|n IHn]; intros f; cbn [sum_below]; [reflexivity|].
      rewrite <- IHn. lia. }
    rewrite E. apply sum_below_ext. intros i _.
    rewrite !Z.shiftl_mul_pow2 by lia.
    replace (7 * Z.of_nat (S i)) with (7 * Z.of_nat i + 7) by lia.
    rewrite Z.pow_add_r by lia. change (2 ^ 7) with 128. ring.
Qed.

Lemma land_64_testbit (b : Z) : (Z.land b 64 =? 0) = negb (Z.testbit b 6).
Proof.
  destruct (Z.testbit b 6) eqn:E; cbn [negb].
  - apply Z.eqb_neq. intros H.
    assert (T : Z.testbit (Z.land b 64) 6 = true).
    { rewrite Z.land_spec, E. reflexivity. }
    rewrite H in T. discriminate.
  - apply Z.eqb_eq. apply Z.bits_inj'. intros n Hn.
    rewrite Z.land_spec, Z.bits_0.
    change 64 with (2 ^ 6). rewrite Z.pow2_bits_eqb by lia.
    destruct (Z.eqb_spec 6 n) as [<-|]; [rewrite E|]; auto using andb_false_r.
Qed.

Lemma nth_error_last (bs : list Z) :
  bs <> [] -> nth_error bs (length bs - 1) = Some (last bs 0).
Proof.
  induction bs as [|b bs IH]; intros H; [congruence|].
  destruct bs as [|c bs]; [reflexivity|].
  change (last (b :: c :: bs) 0) with (last (c :: bs) 0).
  rewrite <- IH by congruence.
  cbn [length]. replace (S (S (length bs)) - 1)%nat with (S (S (length bs) - 1)) by lia.
  reflexivity.
Qed.

Lemma last_getitem (bs : list Z) :
  bs <> [] -> py_getitem bytes_index_msg bs (-1) = Return (last bs 0).
Proof.
  intros H. unfold py_getitem.
  assert (L : (0 < length bs)%nat) by (destruct bs; [congruence | cbn; lia]).
  change (-1 <? 0) with true. cbv iota.
  destruct (Z.ltb_spec (-1 + Z.of_nat (length bs)) 0) as [|_]; [lia|].
  replace (Z.to_nat (-1 + Z.of_nat (length bs))) with (length bs - 1)%nat by lia.
  rewrite nth_error_last by exact H. reflexivity.
Qed.

Lemma is_leb128_nonempty (bs : list Z) : is_leb128 bs = true -> bs <> [].
Proof. destruct bs; [discriminate | congruence]. Qed.

(** The signed decode of a non-empty sequence, by bit 6 of its last byte. *)
Lemma decode_leb128s_value (bs : list Z) :
  bs <> [] ->
  decode_leb128s bs =
    Return (if Z.testbit (last bs 0) 6
            then leb128_value bs - Z.shiftl 1 (7 * Z.of_nat (length bs))
            else leb128_value bs).
Proof.
  intros H. unfold decode_leb128s.
  rewrite last_getitem by exact H.
  rewrite land_64_testbit, decode_leb128u_value.
  replace (Z.of_nat (length bs) * 7) with (7 * Z.of_nat (length bs)) by lia.
  destruct (Z.testbit (last bs 0) 6); reflexivity.
Qed.

(** C6.  For bytes [b_0 .. b_(n-1)] forming one LEB128, of any length
    [n], [decode_leb128u] is the sum over [i] of [(b_i & 0x7F) << (7 * i)],
    and [decode_leb128s] is that sum minus [1 << (7 * n)] when bit 6 of
    the last byte is set, and the sum itself when it is clear. *)
Theorem leb128_decode_sum (bs : list Z) :
  is_leb128 bs = true ->
  decode_leb128u bs = leb128_sum bs /\
  decode_leb128s bs =
    Return (if Z.testbit (last bs 0) 6
            then leb128_sum bs - Z.shiftl 1 (7 * Z.of_nat (length bs))
            else leb128_sum bs).
Proof.
  intros H. split.
  - rewrite decode_leb128u_value, leb128_sum_value. reflexivity.
  - rewrite decode_leb128s_value by (apply is_leb128_nonempty; exact H).
    rewrite leb128_sum_value. reflexivity.
Qed.

(** A sequence of three bytes decoded both ways, and one of eleven bytes
    whose value needs more than 64 bits. *)
Lemma leb128_decode_sum_witness :
  is_leb128 [0xE5; 0x8E; 0x26] = true /\
  decode_leb128u [0xE5; 0x8E; 0x26] = 624485 /\
  decode_leb128s [0xC0; 0xBB; 0x78] = Return (-123456) /\
  decode_leb128u [0x80; 0x80; 0x80; 0x80; 0x80; 0x80; 0x80; 0x80; 0x80; 0x80; 0x01] = 2 ^ 70.
Proof.
  split; [reflexivity|].
  destruct (leb128_decode_sum [0xE5; 0x8E; 0x26] eq_refl) as [Hu _].
  destruct (leb128_decode_sum [0xC0; 0xBB; 0x78] eq_refl) as [_ Hs].
  destruct (leb128_decode_sum
              [0x80; 0x80; 0x80; 0x80; 0x80; 0x80; 0x80; 0x80; 0x80; 0x80; 0x01] eq_refl)
    as [Hw _].
  split; [rewrite Hu | split; [rewrite Hs | rewrite Hw]]; reflexivity.
Defined.

Lemma land_127_range (b : Z) : 0 <= Z.land b 127 <= 127.
Proof.
  change 127 with (Z.ones 7) at 1 2. rewrite Z.land_ones by lia.
  change (2 ^ 7) with 128. pose proof (Z.mod_pos_bound b 128). lia.
Qed.

Lemma leb128_value_range (bs : list Z) :
  0 <= leb128_value bs <= 128 ^ Z.of_nat (length bs) - 1.
Proof.
  induction bs as [|b bs IH]; cbn [leb128_value length].
  - change (128 ^ Z.of_nat 0) with 1. lia.
  - rewrite Nat2Z.inj_succ, Z.pow_succ_r by lia.
    pose proof (land_127_range b). lia.
Qed.

Lemma leb128_value_app (pre : list Z) (b : Z) :
  leb128_value (pre ++ [b]) = leb128_value pre + 128 ^ Z.of_nat (length pre) * Z.land b 127.
Proof.
  induction pre as [|a pre IH]; cbn [app leb128_value length].
  - change (128 ^ Z.of_nat 0) with 1. lia.
  - rewrite IH, Nat2Z.inj_succ, Z.pow_succ_r by lia. ring.
Qed.

(** The payload is all ones exactly when every seven-bit group is. *)
Lemma leb128_value_all_ones (bs : list Z) :
  leb128_value bs = 128 ^ Z.of_nat (length bs) - 1 <->
  Forall (fun b => Z.land b 127 = 127) bs.
Proof.
  induction bs as [|b bs IH]; cbn [leb128_value length].
  - split; [constructor | reflexivity].
  - rewrite Nat2Z.inj_succ, Z.pow_succ_r by lia.
    pose proof (land_127_range b). pose proof (leb128_value_range bs).
    split.
    + intros E. assert (Z.land b 127 = 127 /\
                        leb128_value bs = 128 ^ Z.of_nat (length bs) - 1) as [Hb Hr] by lia.
      constructor; [exact Hb | apply IH; exact Hr].
    + intros F. inversion F as [|? ? Hb Hr]; subst.
      apply IH in Hr. lia.
Qed.

Lemma byte_high_bit (b : Z) :
  is_byte b = true -> Z.testbit b 7 = true -> b = Z.land b 127 + 128.
Proof.
  unfold is_byte. intros Hb Ht.
  apply andb_true_iff in Hb as [H0 H1]. apply Z.leb_le in H0. apply Z.ltb_lt in H1.
  change 127 with (Z.ones 7). rewrite Z.land_ones by lia. change (2 ^ 7) with 128.
  rewrite Z.testbit_true in Ht by lia. change (2 ^ 7) with 128 in Ht.
  assert (b / 128 = 1).
  { assert (0 <= b / 128 < 2) by (split; [apply Z.div_pos | apply Z.div_lt_upper_bound]; lia).
    destruct (Z.eq_dec (b / 128) 0) as [E|]; [rewrite E in Ht; discriminate | lia]. }
  pose proof (Z.div_mod b 128). lia.
Qed.

Lemma is_leb128_snoc (bs : list Z) :
  is_leb128 bs = true ->
  Forall (fun b => is_byte b = true /\ Z.testbit b 7 = true) (removelast bs).
Proof.
  induction bs as [|b bs IH]; [discriminate|].
  destruct bs as [|c bs]; intros H.
  - constructor.
  - change (removelast (b :: c :: bs)) with (b :: removelast (c :: bs)).
    change (is_leb128 (b :: c :: bs))
      with (is_byte b && Z.testbit b 7 && is_leb128 (c :: bs)) in H.
    apply andb_true_iff in H as [H Hr]. apply andb_true_iff in H as [Hb Ht].
    constructor; [split; assumption | apply IH; exact Hr].
Qed.

(** C7 (as amended).  For one LEB128 whose last byte is [0x7F], the
    signed decode is [-1] exactly when every earlier byte is [0xFF]; in
    particular it is [-1] for the single byte [0x7F]. *)
Theorem leb128s_last_7F (bs : list Z) :
  is_leb128 bs = true ->
  last bs 0 = 0x7F ->
  (decode_leb128s bs = Return (-1) <-> Forall (fun b => b = 0xFF) (removelast bs)).
Proof.
  intros Hwf Hlast.
  pose proof (is_leb128_nonempty bs Hwf) as Hne.
  pose proof (is_leb128_snoc bs Hwf) as Hpre.
  rewrite (decode_leb128s_value bs Hne), Hlast.
  change (Z.testbit 0x7F 6) with true. cbv iota.
  rewrite (app_removelast_last 0 Hne) at 1 2.
  rewrite leb128_value_app, length_app, Hlast. cbn [length].
  set (pre := removelast bs) in *.
  rewrite Z.shiftl_mul_pow2 by lia.
  replace (7 * Z.of_nat (length pre + 1)) with (7 * Z.of_nat (length pre) + 7) by lia.
  rewrite Z.pow_add_r, Z.pow_mul_r by lia. change (2 ^ 7) with 128.
  change (Z.land 0x7F 127) with 127. rewrite Z.mul_1_l.
  pose proof (leb128_value_all_ones pre) as A.
  split.
  - intros E. assert (E' : leb128_value pre = 128 ^ Z.of_nat (length pre) - 1).
    { injection E as E. lia. }
    apply A in E'. clear - E' Hpre.
    induction Hpre as [|b pre [Hb Ht] _ IH]; [constructor|].
    inversion E' as [|? ? Hd Hr]; subst.
    constructor; [pose proof (byte_high_bit b Hb Ht); lia | apply IH; exact Hr].
  - intros F. assert (F' : Forall (fun b => Z.land b 127 = 127) pre).
    { clear - F. induction F as [|b pre -> _ IH]; constructor; [reflexivity | exact IH]. }
    apply A in F'. f_equal. lia.
Qed.

Lemma leb128s_last_7F_witness :
  is_leb128 [0xFF; 0xFF; 0x7F] = true /\ last [0xFF; 0xFF; 0x7F] 0 = 0x7F /\
  decode_leb128s [0xFF; 0xFF; 0x7F] = Return (-1).
Proof.
  split; [reflexivity | split; [reflexivity |]].
  apply (proj2 (leb128s_last_7F [0xFF; 0xFF; 0x7F] eq_refl eq_refl)).
  repeat constructor.
Defined.

(** The two bytes [80 7F] form one LEB128 whose last byte is [0x7F]; its
    signed decode is [-128]. *)
Lemma leb128s_last_7F_not_minus_one :
  is_leb128 [0x80; 0x7F] = true /\ last [0x80; 0x7F] 0 = 0x7F /\
  decode_leb128s [0x80; 0x7F] = Return (-128) /\
  decode_leb128s [0x80; 0x7F] <> Return (-1).
Proof. repeat split. discriminate. Qed.

(** ** Reasoning about sequenced computations *)

Lemma bind_inv {S A B : Type} (m : SE S A) (k : A -> SE S B) (s s' : S) (r : outcome B) :
  bind m k s = (r, s') ->
  (exists a s1, m s = (Return a, s1) /\ k a s1 = (r, s')) \/
  (exists e, m s = (Raise e, s') /\ r = Raise e) \/
  (m s = (OutOfFuel, s') /\ r = OutOfFuel).
Proof.
  unfold bind. destruct (m s) as [[a|e|] s1]; intros H.
  - left. eauto.
  - right. left. inversion H; subst. eauto.
  - right. right. inversion H; subst. eauto.
Qed.

Lemma bind_return {S A B : Type} (m : SE S A) (k : A -> SE S B) (s s1 : S) (a : A) :
  m s = (Return a, s1) -> bind m k s = k a s1.
Proof. unfold bind. intros ->. reflexivity. Qed.

Lemma bind_raise {S A B : Type} (m : SE S A) (k : A -> SE S B) (s s1 : S) (e : exn) :
  m s = (Raise e, s1) -> bind m k s = (Raise e, s1).
Proof. unfold bind. intros ->. reflexivity. Qed.

Lemma bind_cong {S A B : Type} (m m' : SE S A) (k k' : A -> SE S B) (s : S) :
  m s = m' s ->
  (forall a s1, m s = (Return a, s1) -> k a s1 = k' a s1) ->
  bind m k s = bind m' k' s.
Proof.
  intros Hm Hk. unfold bind. rewrite <- Hm.
  destruct (m s) as [[a|e|] s1]; [apply Hk|..]; reflexivity.
Qed.

(** ** The cursor and its spans *)

Lemma same_buffer_refl (c : t) : same_buffer c c.
Proof. repeat split. Qed.

Lemma same_buffer_trans (a b c : t) : same_buffer a b -> same_buffer b c -> same_buffer a c.
Proof. unfold same_buffer. intuition congruence. Qed.

Lemma length_slice (c : t) (size : nat) :
  wf c ->
  (rpos c + length (firstn size (skipn (rpos c) (data c))) <= length (data c))%nat.
Proof. unfold wf. intros H. rewrite length_firstn, length_skipn. lia. Qed.

Lemma read_reads (size : nat) : reads (fun span => span) (read size).
Proof.
  intros c r c' Hwf H. unfold read in H. injection H as <- <-.
  split; [repeat split|].
  split; [unfold wf; cbn; apply length_slice; exact Hwf|].
  split; [cbn; lia|]. split; [discriminate|].
  intros v E. injection E as <-. split; reflexivity.
Qed.

Lemma load_reads (size : nat) : reads (fun span => span) (load size).
Proof.
  intros c r c' Hwf H. unfold load in H.
  apply bind_inv in H as [(span & c1 & Hr & H) | [(e & Hr & _) | (Hr & _)]];
    try (unfold read in Hr; discriminate).
  destruct (read_reads size c _ _ Hwf Hr) as (Hb & Hw & Hle & _ & Hs).
  unfold bind, get, ret, raise in H.
  destruct (len span =? size)%nat; injection H as <- <-;
    (split; [exact Hb | split; [exact Hw | split; [exact Hle | split; [discriminate |]]]]).
  - exact Hs.
  - intros v E. discriminate.
Qed.

Lemma load_length (size : nat) (c c' span : t) :
  load size c = (Return span, c') -> length (data span) = size.
Proof.
  unfold load. intros H.
  apply bind_inv in H as [(sp & c1 & Hr & H) | [(e & _ & ?) | (_ & ?)]]; try discriminate.
  unfold bind, get, ret, raise in H.
  destruct (Nat.eqb_spec (len sp) size) as [E|E]; [|discriminate].
  injection H as <- <-. exact E.
Qed.

(** [reload] rewinds: the span starts at the saved position and ends
    where the cursor stood, and the cursor is where it was. *)
Lemma reload_restores (saved : nat) (c : t) :
  wf c -> (saved <= rpos c)%nat ->
  reload saved c =
    (Return (mk (path c) (firstn (rpos c - saved) (skipn saved (data c)))
                (fpos c + saved) 0), c).
Proof.
  unfold wf. intros Hwf Hle. unfold reload.
  destruct (Nat.leb_spec saved (rpos c)) as [_|]; [|lia].
  unfold load, bind, read, get, set_rpos, len, ret;
    cbn [path data fpos rpos].
  rewrite length_firstn, length_skipn.
  replace (Nat.min (rpos c - saved) (length (data c) - saved)) with (rpos c - saved)%nat by lia.
  rewrite Nat.eqb_refl. do 2 f_equal.
  destruct c as [p d f r]; cbn [path data fpos rpos] in *. f_equal. lia.
Qed.

Lemma getitem_not_out_of_fuel {A : Type} (msg : string) (l : list A) (key : Z) :
  py_getitem msg l key <> OutOfFuel.
Proof.
  unfold py_getitem. destruct (_ <? 0); [discriminate|].
  destruct (nth_error _ _); discriminate.
Qed.

Lemma byte_reads : reads (@ValueData.data Z) Cursor.byte.
Proof.
  intros c r c' Hwf H. unfold Cursor.byte in H.
  apply bind_inv in H as [(span & c1 & Hr & H) | [(e & Hr & ->) | (Hr & ->)]];
    destruct (load_reads 1 c _ _ Hwf Hr) as (Hb & Hw & Hle & Hn & Hs);
    try congruence.
  - unfold bind, pure_outcome, ret in H.
    pose proof (getitem_not_out_of_fuel bytes_index_msg (data span) 0) as G.
    unfold getitem in H.
    destruct (py_getitem bytes_index_msg (data span) 0) as [b|e|]; [| |congruence];
      injection H as <- <-;
      (split; [exact Hb | split; [exact Hw | split; [exact Hle | split; [discriminate |]]]]).
    + intros v E. injection E as <-. apply Hs. reflexivity.
    + intros v E. discriminate.
  - split; [exact Hb | split; [exact Hw | split; [exact Hle | split; [discriminate |]]]].
    intros v E. discriminate.
Qed.

Ltac reads_intro Hb Hw Hle :=
  split; [exact Hb | split; [exact Hw | split; [exact Hle | split; [discriminate |]]]].

Lemma leb128_reads : reads (fun span => span) Cursor.leb128.
Proof.
  intros c r c' Hwf H. unfold Cursor.leb128 in H.
  destruct (Cursor.leb128_scan _ _) as [n|].
  - exact (read_reads n c r c' Hwf H).
  - injection H as <- <-.
    reads_intro (same_buffer_refl c) Hwf (Nat.le_refl (rpos c)).
    intros v E. discriminate.
Qed.

Lemma leb128u_reads : reads (@ValueData.data Z) Cursor.leb128u.
Proof.
  intros c r c' Hwf H. unfold Cursor.leb128u in H.
  apply bind_inv in H as [(span & c1 & Hr & H) | [(e & Hr & ->) | (Hr & ->)]];
    destruct (leb128_reads c _ _ Hwf Hr) as (Hb & Hw & Hle & Hn & Hs);
    try congruence.
  - unfold ret in H. injection H as <- <-. reads_intro Hb Hw Hle.
    intros v E. injection E as <-. apply Hs. reflexivity.
  - reads_intro Hb Hw Hle. intros v E. discriminate.
Qed.

Lemma decode_leb128s_not_out_of_fuel (bs : list Z) : decode_leb128s bs <> OutOfFuel.
Proof.
  unfold decode_leb128s.
  pose proof (getitem_not_out_of_fuel bytes_index_msg bs (-1)).
  destruct (py_getitem bytes_index_msg bs (-1)); congruence.
Qed.

Lemma leb128s_reads : reads (@ValueData.data Z) Cursor.leb128s.
Proof.
  intros c r c' Hwf H. unfold Cursor.leb128s in H.
  apply bind_inv in H as [(span & c1 & Hr & H) | [(e & Hr & ->) | (Hr & ->)]];
    destruct (leb128_reads c _ _ Hwf Hr) as (Hb & Hw & Hle & Hn & Hs);
    try congruence.
  - unfold bind, pure_outcome, ret in H.
    pose proof (decode_leb128s_not_out_of_fuel (data span)).
    destruct (decode_leb128s (data span)) as [v|e|]; [| |congruence];
      injection H as <- <-; reads_intro Hb Hw Hle.
    + intros w E. injection E as <-. apply Hs. reflexivity.
    + intros w E. discriminate.
  - reads_intro Hb Hw Hle. intros v E. discriminate.
Qed.

Lemma long_reads : reads (@ValueData.data Z) Cursor.long.
Proof.
  intros c r c' Hwf H. unfold Cursor.long in H.
  apply bind_inv in H as [(span & c1 & Hr & H) | [(e & Hr & _) | (Hr & _)]];
    try (unfold read in Hr; discriminate).
  destruct (read_reads 4 c _ _ Hwf Hr) as (Hb & Hw & Hle & Hn & Hs).
  unfold bind, pure_outcome, ret, getitem in H.
  pose proof (fun k => getitem_not_out_of_fuel bytes_index_msg (data span) k) as G.
  repeat match type of H with
         | context [py_getitem bytes_index_msg (data span) ?k] =>
           let Gk := fresh in
           pose proof (G k) as Gk;
           destruct (py_getitem bytes_index_msg (data span) k); [| |congruence]
         end;
    injection H as <- <-; reads_intro Hb Hw Hle;
    try (intros v E; discriminate).
  intros v E. injection E as <-. apply Hs. reflexivity.
Qed.

Lemma codecs_decode_not_out_of_fuel (b : list Z) : codecs_decode b <> OutOfFuel.
Proof. unfold codecs_decode. destruct (utf8_valid b); discriminate. Qed.

Lemma utf8_reads : reads (@ValueData.data string) Cursor.utf8.
Proof.
  intros c r c' Hwf H. unfold Cursor.utf8 in H.
  apply bind_inv in H as [(cnt & c1 & Hr & H) | [(e & Hr & ->) | (Hr & ->)]];
    destruct (leb128u_reads c _ _ Hwf Hr) as (Hb & Hw & Hle & Hn & Hs).
  - destruct (Hs cnt eq_refl) as [Hf Hp].
    apply bind_inv in H as [(pay & c2 & Hl & H) | [(e & Hl & ->) | (Hl & ->)]];
      destruct (load_reads _ c1 _ _ Hw Hl) as (Hb2 & Hw2 & Hle2 & Hn2 & Hs2).
    + destruct (Hs2 pay eq_refl) as [_ Hp2].
      unfold bind, pure_outcome, ret in H.
      pose proof (codecs_decode_not_out_of_fuel (data pay)).
      destruct (codecs_decode (data pay)) as [text|e|]; [| |congruence];
        injection H as <- <-;
        reads_intro (same_buffer_trans _ _ _ Hb Hb2) Hw2 (Nat.le_trans _ _ _ Hle Hle2).
      * intros v E. injection E as <-. unfold span_law.
        cbn [ValueData.data fpos data]. rewrite length_app. split; [exact Hf | lia].
      * intros v E. discriminate.
    + reads_intro (same_buffer_trans _ _ _ Hb Hb2) Hw2 (Nat.le_trans _ _ _ Hle Hle2).
      intros v E. discriminate.
    + exfalso; apply Hn2; reflexivity.
  - reads_intro Hb Hw Hle. intros v E. discriminate.
  - exfalso; apply Hn; reflexivity.
Qed.

Lemma span_of_reads {V : Type} (m : SE t (ValueData.t V)) :
  reads (@ValueData.data V) m -> reads (fun span => span) (span_of m).
Proof.
  intros Hm c r c' Hwf H. unfold span_of in H.
  apply bind_inv in H as [(v & c1 & Hr & H) | [(e & Hr & ->) | (Hr & ->)]];
    destruct (Hm c _ _ Hwf Hr) as (Hb & Hw & Hle & Hn & Hs);
    try congruence.
  - unfold ret in H. injection H as <- <-. reads_intro Hb Hw Hle.
    intros w E. injection E as <-. apply Hs. reflexivity.
  - reads_intro Hb Hw Hle. intros w E. discriminate.
Qed.

(** C5 (as amended).  On a cursor whose read position lies inside the
    buffer, every primitive read leaves the read position inside the
    buffer, whatever its outcome.  A successful [take], [require],
    [u32_le], LEB128 read or [utf8_name] returns a span that starts at the
    base offset plus the read position before the call and whose length
    is the number of positions the cursor advanced.  A successful
    [rewind_and_require], called with an earlier position, returns a span
    that starts at the base offset plus that saved position and whose
    length is the distance from it to the read position before the call;
    the call leaves the read position where it was. *)
Theorem primitive_spans (p : primitive) (c c' : t) (r : outcome t) :
  wf c ->
  (forall saved_pos, p = rewind_and_require saved_pos -> (saved_pos <= rpos c)%nat) ->
  run p c = (r, c') ->
  wf c' /\ forall span, r = Return span -> span_promise p c span c'.
Proof.
  intros Hwf Hsaved H.
  assert (G : forall m, reads (fun span => span) m -> run p = m ->
              wf c' /\ forall span, r = Return span -> span_law c span c').
  { intros m Hm E. rewrite E in H.
    destruct (Hm c r c' Hwf H) as (_ & Hw & _ & _ & Hs). split; assumption. }
  destruct p as [n|n|saved| | | | |]; cbn [span_promise].
  - apply (G _ (read_reads n) eq_refl).
  - apply (G _ (load_reads n) eq_refl).
  - cbn [run] in H. rewrite (reload_restores saved c Hwf (Hsaved saved eq_refl)) in H.
    injection H as <- <-. split; [exact Hwf|].
    intros span E. injection E as <-. cbn [fpos data].
    unfold wf in Hwf. rewrite length_firstn, length_skipn. repeat split. lia.
  - apply (G _ (span_of_reads _ long_reads) eq_refl).
  - apply (G _ leb128_reads eq_refl).
  - apply (G _ (span_of_reads _ leb128u_reads) eq_refl).
  - apply (G _ (span_of_reads _ leb128s_reads) eq_refl).
  - apply (G _ (span_of_reads _ utf8_reads) eq_refl).
Qed.

Lemma primitive_spans_witness :
  let c := mk "f" [0xFD; 0x0C; 0x00] 8 2 in
  wf c /\
  run (rewind_and_require 0) c = (Return (mk "f" [0xFD; 0x0C] 8 0), c) /\
  wf c /\
  span_promise (rewind_and_require 0) c (mk "f" [0xFD; 0x0C] 8 0) c.
Proof.
  cbv zeta.
  assert (Hwf : wf (mk "f" [0xFD; 0x0C; 0x00] 8 2)) by (unfold wf; cbn; lia).
  assert (Hrun : run (rewind_and_require 0) (mk "f" [0xFD; 0x0C; 0x00] 8 2) =
                 (Return (mk "f" [0xFD; 0x0C] 8 0), mk "f" [0xFD; 0x0C; 0x00] 8 2))
    by reflexivity.
  assert (Hsaved : forall saved_pos, rewind_and_require 0 = rewind_and_require saved_pos ->
                     (saved_pos <= 2)%nat)
    by (intros saved_pos E; injection E as <-; cbn; lia).
  destruct (primitive_spans (rewind_and_require 0) _ _ _ Hwf Hsaved Hrun) as [Hw Hs].
  split; [exact Hwf | split; [exact Hrun | split; [exact Hw | exact (Hs _ eq_refl)]]].
Defined.

(** The law of spans does not hold of [reload]: after one byte was read,
    rewinding to position 0 succeeds and returns the span of that byte.
    The span starts before the read position of the call, and it holds
    one byte although the cursor did not advance. *)
Lemma reload_breaks_span_law :
  let c := mk "f" [0x01] 0 1 in
  wf c /\
  reload 0 c = (Return (mk "f" [0x01] 0 0), c) /\
  ~ span_law c (mk "f" [0x01] 0 0) c.
Proof.
  cbv zeta. split; [unfold wf; cbn; lia | split; [reflexivity|]].
  unfold span_law. cbn. lia.
Qed.

(** ** Decoders keep the cursor inside its buffer *)

Lemma continues_refl (s : state) : wf (stream s) -> continues s s.
Proof. intros H. repeat split; auto. Qed.

Lemma continues_trans (a b c : state) : continues a b -> continues b c -> continues a c.
Proof.
  intros (B1 & W1 & L1 & E1) (B2 & W2 & L2 & E2).
  split; [exact (same_buffer_trans _ _ _ B1 B2)|].
  split; [exact W2|]. split; [lia | congruence].
Qed.

Lemma steady_ret {A : Type} (a : A) : steady (ret a).
Proof.
  intros s r s' Hwf H. injection H as <- <-.
  split; [apply continues_refl; exact Hwf | discriminate].
Qed.

Lemma steady_raise {A : Type} (e : exn) : steady (@raise state A e).
Proof.
  intros s r s' Hwf H. injection H as <- <-.
  split; [apply continues_refl; exact Hwf | discriminate].
Qed.

Lemma steady_get : steady (@get state).
Proof.
  intros s r s' Hwf H. injection H as <- <-.
  split; [apply continues_refl; exact Hwf | discriminate].
Qed.

Lemma steady_pure {A : Type} (o : outcome A) : o <> OutOfFuel -> steady (pure_outcome o).
Proof.
  intros Ho s r s' Hwf H. injection H as <- <-.
  split; [apply continues_refl; exact Hwf | exact Ho].
Qed.

Lemma steady_bind {A B : Type} (m : M A) (k : A -> M B) :
  steady m -> (forall a, steady (k a)) -> steady (bind m k).
Proof.
  intros Hm Hk s r s' Hwf H.
  apply bind_inv in H as [(a & s1 & H1 & H2) | [(e & H1 & ->) | (H1 & ->)]].
  - destruct (Hm _ _ _ Hwf H1) as [C1 _].
    destruct (Hk a _ _ _ (proj1 (proj2 C1)) H2) as [C2 N2].
    split; [exact (continues_trans _ _ _ C1 C2) | exact N2].
  - destruct (Hm _ _ _ Hwf H1) as [C1 _]. split; [exact C1 | discriminate].
  - destruct (Hm _ _ _ Hwf H1) as [_ N1]. exfalso. apply N1. reflexivity.
Qed.

Lemma steady_emit (e : event) : steady (emit e).
Proof.
  intros s r s' Hwf H. injection H as <- <-.
  split; [repeat split; auto | discriminate].
Qed.

Lemma steady_dprint (data : option t) (message : list line) : steady (dprint data message).
Proof. apply steady_emit. Qed.

Lemma steady_dprint1 (data : option t) (message : string) : steady (dprint1 data message).
Proof. apply steady_emit. Qed.

Lemma on_stream_inv {A : Type} (m : SE t A) (s s' : state) (r : outcome A) :
  on_stream m s = (r, s') ->
  exists c', m (stream s) = (r, c') /\ s' = mkState c' (out s) (BYTESW s).
Proof.
  unfold on_stream. destruct (m (stream s)) as [r0 c']. intros H.
  injection H as <- <-. eauto.
Qed.

Lemma steady_on_stream {A : Type} (span_of : A -> t) (m : SE t A) :
  reads span_of m -> steady (on_stream m).
Proof.
  intros Hm s r s' Hwf H.
  apply on_stream_inv in H as (c' & H & ->).
  destruct (Hm _ _ _ Hwf H) as (Hb & Hw & Hle & Hn & _).
  split; [repeat split; try apply Hb; auto | exact Hn].
Qed.

Lemma steady_for_each {A : Type} (xs : list A) (body : A -> M unit) :
  (forall x, steady (body x)) -> steady (for_each xs body).
Proof.
  intros Hb. induction xs as [|x xs IH]; cbn [for_each].
  - apply steady_ret.
  - apply steady_bind; [apply Hb | intros _; exact IH].
Qed.

Lemma steady_for_range (n : Z) (body : Z -> M unit) :
  (forall i, steady (body i)) -> steady (for_range n body).
Proof.
  intros Hb. unfold for_range. generalize 0 as start.
  induction (Z.to_nat n) as [|k IH]; intros start; cbn [for_range_from].
  - apply steady_ret.
  - apply steady_bind; [apply Hb | intros _; apply IH].
Qed.

Lemma steady_read_valtype : steady read_valtype.
Proof.
  apply steady_bind; [exact (steady_on_stream _ _ byte_reads) | intros; apply steady_ret].
Qed.

Lemma steady_read_reftype : steady read_reftype.
Proof.
  apply steady_bind; [exact (steady_on_stream _ _ byte_reads) | intros; apply steady_ret].
Qed.

Lemma ins_getitem_not_out_of_fuel (entry : ins) (code2 : Z) :
  ins_getitem entry code2 <> OutOfFuel.
Proof.
  destruct entry; cbn [ins_getitem];
    try apply getitem_not_out_of_fuel; discriminate.
Qed.

(** Steadiness of a decoder built from the steady pieces above. *)
Ltac steady :=
  repeat first
    [ apply steady_ret
    | apply steady_raise
    | apply steady_get
    | apply steady_dprint1
    | apply steady_dprint
    | apply steady_read_valtype
    | apply steady_read_reftype
    | exact (steady_on_stream _ _ byte_reads)
    | exact (steady_on_stream _ _ leb128u_reads)
    | exact (steady_on_stream _ _ leb128_reads)
    | exact (steady_on_stream _ _ (load_reads _))
    | apply steady_pure;
      first [ apply getitem_not_out_of_fuel
            | apply decode_leb128s_not_out_of_fuel
            | apply ins_getitem_not_out_of_fuel ]
    | apply steady_for_each; intros
    | apply steady_for_range; intros
    | apply steady_bind; [| intros]
    | match goal with
      | |- steady (if ?b then _ else _) => destruct b
      | |- steady (match ?x with _ => _ end) => destruct x
      end ].

Lemma steady_operand_decode (asm0 indent : string) (op : operand) :
  steady (operand_decode asm0 indent op).
Proof. unfold operand_decode. destruct op as [n|op]; steady. Qed.

Lemma byte_length (c c' : t) (v : Integer) :
  Cursor.byte c = (Return v, c') -> length (data (ValueData.data v)) = 1%nat.
Proof.
  unfold Cursor.byte. intros H.
  apply bind_inv in H as [(span & c1 & Hl & H) | [(e & _ & ?) | (_ & ?)]]; try discriminate.
  apply load_length in Hl.
  unfold bind, pure_outcome, ret in H.
  destruct (getitem span 0); try discriminate.
  injection H as <- <-. exact Hl.
Qed.

(** Every run of [instruction] continues the state it started from; a
    run that returns has moved the cursor forward. *)
Lemma instruction_advances (indent_base indent_level indent_step : Z)
      (s s' : state) (r : outcome string) :
  wf (stream s) ->
  instruction indent_base indent_level indent_step s = (r, s') ->
  continues s s' /\ r <> OutOfFuel /\
  (forall asm, r = Return asm -> (rpos (stream s) < rpos (stream s'))%nat).
Proof.
  intros Hwf H. unfold instruction in H.
  rewrite (bind_return get _ s s s eq_refl) in H.
  apply bind_inv in H as [(scode1 & s1 & H1 & H) | [(e & H1 & ->) | (H1 & ->)]];
    pose proof (steady_on_stream _ _ byte_reads _ _ _ Hwf H1) as [C1 N1].
  2:{ split; [exact C1 | split; [discriminate | intros asm E; discriminate]]. }
  2:{ exfalso. apply N1. reflexivity. }
  assert (L1 : (rpos (stream s) < rpos (stream s1))%nat).
  { apply on_stream_inv in H1 as (c1 & Hb & ->). cbn [stream].
    destruct (byte_reads _ _ _ Hwf Hb) as (_ & _ & _ & _ & Hs).
    destruct (Hs _ eq_refl) as [_ ->]. rewrite (byte_length _ _ _ Hb). lia. }
  assert (Tail : forall (m : M string) s2, steady m -> continues s s2 ->
             (rpos (stream s) < rpos (stream s2))%nat -> m s2 = (r, s') ->
             continues s s' /\ r <> OutOfFuel /\
             (forall asm, r = Return asm -> (rpos (stream s) < rpos (stream s'))%nat)).
  { intros m s2 Hm C2 L2 Hr.
    destruct (Hm _ _ _ (proj1 (proj2 C2)) Hr) as [C3 N3].
    split; [exact (continues_trans _ _ _ C2 C3)|]. split; [exact N3|].
    intros _ _. destruct C3 as (_ & _ & L3 & _). lia. }
  apply bind_inv in H as [(entry & s1' & H2 & H) | [(e & H2 & ->) | (H2 & ->)]];
    unfold pure_outcome in H2; injection H2 as H2 <-.
  2:{ split; [exact C1 | split; [discriminate | intros asm E; discriminate]]. }
  2:{ exfalso. exact (getitem_not_out_of_fuel _ _ _ H2). }
  clear H2.
  assert (S3 : steady (if (int scode1 =? 252) || (int scode1 =? 253)
                       then scode2 <- on_stream Cursor.leb128u;;
                            pure_outcome (ins_getitem entry (int scode2))
                       else ret entry)) by steady.
  apply bind_inv in H as [(entry' & s2 & H3 & H) | [(e & H3 & ->) | (H3 & ->)]];
    destruct (S3 _ _ _ (proj1 (proj2 C1)) H3) as [C2 N2];
    pose proof (continues_trans _ _ _ C1 C2) as C02.
  - assert (L2 : (rpos (stream s) < rpos (stream s2))%nat)
      by (destruct C2 as (_ & _ & L & _); lia).
    apply bind_inv in H as [(data & s3 & H4 & H) | [(e & H4 & ->) | (H4 & ->)]];
      apply on_stream_inv in H4 as (c3 & H4 & E3);
      rewrite (reload_restores _ _ (proj1 (proj2 C02))) in H4 by lia;
      [| discriminate | discriminate].
    injection H4 as _ <-.
    assert (s3 = s2) as -> by (rewrite E3; destruct s2; reflexivity).
    refine (Tail _ s2 _ C02 L2 H). steady; apply steady_operand_decode.
  - split; [exact C02 | split; [discriminate | intros asm E; discriminate]].
  - exfalso. apply N2. reflexivity.
Qed.

Lemma continues_remain (s s' : state) :
  continues s s' -> (remain (stream s') <= remain (stream s))%nat.
Proof.
  intros ((_ & Hd & _) & _ & Hle & _). unfold remain. rewrite Hd. lia.
Qed.

Lemma advance_remain (s s' : state) :
  continues s s' -> (rpos (stream s) < rpos (stream s'))%nat ->
  (remain (stream s') < remain (stream s))%nat.
Proof.
  intros ((_ & Hd & _) & Hw & _ & _) Hlt. unfold remain, wf in *. rewrite Hd in *. lia.
Qed.

(** ** The expression walker *)

(** One turn of the loop of [expression], as [expression_fuel] runs it. *)
Lemma expression_fuel_unfold (fuel : nat) (indent_base indent_level indent_step : Z)
      (s : state) :
  expression_fuel (S fuel) indent_base indent_level indent_step s =
  if (0 <? remain (stream s))%nat then
    (asm <- instruction indent_base indent_level indent_step ;;
     if String.eqb asm "end" then ret tt
     else
       (if existsb (String.eqb asm) ["block"; "loop"; "if"]
        then expression_fuel fuel indent_base (indent_level + 1) indent_step
        else ret tt) ;;
       expression_fuel fuel indent_base indent_level indent_step) s
  else (Return tt, s).
Proof.
  cbn [expression_fuel]. rewrite (bind_return get _ s s s eq_refl).
  destruct (0 <? remain (stream s))%nat; reflexivity.
Qed.

(** With more fuel than bytes left the walker ends with a Python
    outcome, in a state that continues the one it started from. *)
Lemma expression_fuel_enough (fuel : nat) :
  forall (indent_base indent_level indent_step : Z) (s s' : state) (r : outcome unit),
    wf (stream s) -> (remain (stream s) < fuel)%nat ->
    expression_fuel fuel indent_base indent_level indent_step s = (r, s') ->
    continues s s' /\ r <> OutOfFuel.
Proof.
  induction fuel as [|fuel IH]; intros base level step s s' r Hwf Hfuel H; [lia|].
  rewrite expression_fuel_unfold in H.
  destruct (0 <? remain (stream s))%nat.
  2:{ injection H as <- <-. split; [apply continues_refl; exact Hwf | discriminate]. }
  apply bind_inv in H as [(asm & s1 & Hi & H) | [(e & Hi & ->) | (Hi & ->)]];
    destruct (instruction_advances _ _ _ _ _ _ Hwf Hi) as (C1 & N1 & A1).
  2:{ split; [exact C1 | discriminate]. }
  2:{ exfalso. apply N1. reflexivity. }
  pose proof (advance_remain _ _ C1 (A1 asm eq_refl)) as R1.
  destruct (String.eqb asm "end").
  { injection H as <- <-. split; [exact C1 | discriminate]. }
  apply bind_inv in H as [([] & s2 & Hn & H) | [(e & Hn & ->) | (Hn & ->)]].
  - assert (C2 : continues s1 s2).
    { destruct (existsb _ _).
      - apply (IH _ _ _ _ _ _ (proj1 (proj2 C1))) in Hn; [apply Hn | lia].
      - injection Hn as <-. apply continues_refl. apply C1. }
    pose proof (continues_remain _ _ C2) as R2.
    apply (IH _ _ _ _ _ _ (proj1 (proj2 C2))) in H; [|lia].
    destruct H as [C3 N3].
    split; [exact (continues_trans _ _ _ C1 (continues_trans _ _ _ C2 C3)) | exact N3].
  - destruct (existsb _ _); [|discriminate].
    apply (IH _ _ _ _ _ _ (proj1 (proj2 C1))) in Hn; [|lia].
    split; [exact (continues_trans _ _ _ C1 (proj1 Hn)) | discriminate].
  - destruct (existsb _ _); [|discriminate].
    apply (IH _ _ _ _ _ _ (proj1 (proj2 C1))) in Hn; [|lia].
    exfalso. apply (proj2 Hn). reflexivity.
Qed.

(** Above that bound the amount of fuel does not matter. *)
Lemma expression_fuel_stable (fuel : nat) :
  forall (fuel' : nat) (indent_base indent_level indent_step : Z) (s : state),
    wf (stream s) -> (remain (stream s) < fuel)%nat -> (remain (stream s) < fuel')%nat ->
    expression_fuel fuel indent_base indent_level indent_step s =
    expression_fuel fuel' indent_base indent_level indent_step s.
Proof.
  induction fuel as [|fuel IH]; intros fuel' base level step s Hwf Hf Hf'; [lia|].
  destruct fuel' as [|fuel']; [lia|].
  rewrite !expression_fuel_unfold.
  destruct (0 <? remain (stream s))%nat; [|reflexivity].
  apply bind_cong; [reflexivity|]. intros asm s1 Hi.
  destruct (instruction_advances _ _ _ _ _ _ Hwf Hi) as (C1 & _ & A1).
  pose proof (advance_remain _ _ C1 (A1 asm eq_refl)) as R1.
  destruct (String.eqb asm "end"); [reflexivity|].
  apply bind_cong.
  - destruct (existsb _ _); [|reflexivity].
    apply IH; [apply C1 | lia | lia].
  - intros [] s2 Hn.
    assert (C2 : continues s1 s2).
    { destruct (existsb _ _).
      - apply (expression_fuel_enough _ _ _ _ _ _ _ (proj1 (proj2 C1))) in Hn;
          [apply Hn | lia].
      - injection Hn as <-. apply continues_refl. apply C1. }
    pose proof (continues_remain _ _ C2) as R2.
    apply IH; [apply C2 | lia | lia].
Qed.

(** C10.  The expression walker terminates on every buffer whose cursor
    stands inside it.  An instruction that decodes leaves strictly fewer
    bytes in the same buffer: it advanced the cursor by at least one
    byte, and a nested walk for [block], [loop] or [if] starts on that
    shorter remainder.  A budget of loop turns and nested calls above the
    number of bytes left is never used up: [expression_fuel] then ends
    with the outcome of [expression], which is a return or an exception,
    and the cursor is still inside the buffer. *)
Theorem expression_terminates (indent_base indent_level indent_step : Z) (s : state) :
  wf (stream s) ->
  (forall asm s1,
      instruction indent_base indent_level indent_step s = (Return asm, s1) ->
      data (stream s1) = data (stream s) /\ wf (stream s1) /\
      (remain (stream s1) < remain (stream s))%nat) /\
  (forall fuel, (remain (stream s) < fuel)%nat ->
      exists r s',
        expression_fuel fuel indent_base indent_level indent_step s = (r, s') /\
        expression indent_base indent_level indent_step s = (r, s') /\
        r <> OutOfFuel /\
        data (stream s') = data (stream s) /\ wf (stream s') /\
        (remain (stream s') <= remain (stream s))%nat).
Proof.
  intros Hwf. split.
  - intros asm s1 Hi.
    destruct (instruction_advances _ _ _ _ _ _ Hwf Hi) as (C1 & _ & A1).
    split; [apply C1 | split; [apply C1 |]].
    exact (advance_remain _ _ C1 (A1 asm eq_refl)).
  - intros fuel Hfuel.
    destruct (expression_fuel fuel indent_base indent_level indent_step s) as [r s'] eqn:H.
    exists r, s'. split; [reflexivity|].
    destruct (expression_fuel_enough _ _ _ _ _ _ _ Hwf Hfuel H) as [C N].
    split.
    { unfold expression. rewrite (bind_return get _ s s s eq_refl).
      rewrite <- H. apply expression_fuel_stable; [exact Hwf | lia | exact Hfuel]. }
    split; [exact N|]. split; [apply C | split; [apply C |]].
    exact (continues_remain _ _ C).
Qed.





Lemma expression_terminates_witness :
  let s := mkState (mk "f" [0x02; 0x40; 0x41; 0x2A; 0x0B; 0x0B] 0 0) [] 8 in
  wf (stream s) /\
  exists r s', expression_fuel 7 0 0 2 s = (r, s') /\ expression 0 0 2 s = (r, s') /\
               r <> OutOfFuel.
Proof.
  cbv zeta.
  assert (Hwf : wf (stream (mkState (mk "f" [0x02; 0x40; 0x41; 0x2A; 0x0B; 0x0B] 0 0) [] 8)))
    by (unfold wf; cbn; lia).
  split; [exact Hwf|].
  destruct (proj2 (expression_terminates 0 0 2 _ Hwf) 7%nat ltac:(cbn; lia))
    as (r & s' & H1 & H2 & H3 & _).
  exists r, s'. split; [exact H1 | split; [exact H2 | exact H3]].
Defined.

(** ** Decoding at a known byte *)

Lemma pending_wf (c : t) (b : Z) (rest : list Z) :
  pending c = b :: rest -> (rpos c < length (data c))%nat.
Proof.
  unfold pending. intros H.
  assert (L : length (skipn (rpos c) (data c)) = S (length rest)) by (rewrite H; reflexivity).
  rewrite length_skipn in L. lia.
Qed.

Lemma pending_next (c : t) (b : Z) (rest : list Z) :
  pending c = b :: rest -> pending (set_rpos c (rpos c + 1)) = rest.
Proof.
  unfold pending. cbn [rpos data set_rpos]. intros H.
  rewrite Nat.add_comm, <- skipn_skipn, H. reflexivity.
Qed.

Lemma byte_at (c : t) (b : Z) (rest : list Z) :
  pending c = b :: rest ->
  Cursor.byte c =
  (Return (ValueData.mk b (mk (path c) [b] (fpos c + rpos c) 0)), set_rpos c (rpos c + 1)).
Proof.
  unfold pending. intros H.
  unfold Cursor.byte, load, read, bind, get, ret, pure_outcome, len, getitem.
  rewrite H. reflexivity.
Qed.

(** A LEB128 of one byte. *)
Lemma leb128_at (c : t) (b : Z) (rest : list Z) :
  pending c = b :: rest -> Z.land b 128 = 0 ->
  Cursor.leb128 c = (Return (mk (path c) [b] (fpos c + rpos c) 0), set_rpos c (rpos c + 1)).
Proof.
  unfold pending. intros H Hb. unfold Cursor.leb128. rewrite H.
  cbn [Cursor.leb128_scan]. rewrite Hb. cbn [Z.eqb].
  unfold read. rewrite H. reflexivity.
Qed.

Lemma decode_leb128u_one (b : Z) : decode_leb128u [b] = Z.land b 127.
Proof.
  unfold decode_leb128u, enumerate, py_sum. cbn [enumerate_from map fold_left fst snd].
  rewrite Z.shiftl_0_r. reflexivity.
Qed.

Lemma leb128u_at (c : t) (b : Z) (rest : list Z) :
  pending c = b :: rest -> Z.land b 128 = 0 ->
  Cursor.leb128u c =
  (Return (ValueData.mk (Z.land b 127) (mk (path c) [b] (fpos c + rpos c) 0)),
   set_rpos c (rpos c + 1)).
Proof.
  intros H Hb. unfold Cursor.leb128u.
  rewrite (bind_return _ _ _ _ _ (leb128_at c b rest H Hb)).
  unfold ret. cbn [data]. rewrite decode_leb128u_one. reflexivity.
Qed.

Lemma on_stream_eq {A : Type} (m : SE t A) (c c' : t) (r : outcome A)
      (log : list event) (width : positive) :
  m c = (r, c') -> on_stream m (mkState c log width) = (r, mkState c' log width).
Proof. unfold on_stream. cbn [stream out BYTESW]. intros ->. reflexivity. Qed.

(** The opcode bytes of an instruction with a prefix: the cursor stands
    after the two bytes, which [reload] has collected in one span. *)
Lemma prefixed_opcode_at (c : t) (p code2 : Z) (rest : list Z) (entry : ins) :
  pending c = p :: code2 :: rest ->
  (p =? 0xFC) || (p =? 0xFD) = true ->
  Z.land code2 128 = 0 ->
  forall (plane : list ins),
  py_getitem list_index_msg DISASM p = Return (Plane plane) ->
  py_getitem list_index_msg plane (Z.land code2 127) = Return entry ->
  forall (A : Type) (k : ins -> t -> M A) (out : list event) (width : positive),
  (s0 <- get ;;
   scode1 <- on_stream Cursor.byte ;;
   entry <- pure_outcome (py_getitem list_index_msg DISASM (int scode1)) ;;
   entry <- (if (int scode1 =? 0xFC) || (int scode1 =? 0xFD) then
               scode2 <- on_stream Cursor.leb128u ;;
               pure_outcome (ins_getitem entry (int scode2))
             else ret entry) ;;
   data <- on_stream (reload (rpos (stream s0))) ;;
   k entry data) (mkState c out width) =
  k entry (mk (path c) [p; code2] (fpos c + rpos c) 0)
    (mkState (set_rpos c (rpos c + 2)) out width).
Proof.
  intros H Hp Hc plane Hplane Hentry A k out width.
  rewrite (bind_return get _ _ _ _ eq_refl). cbn [stream].
  rewrite (bind_return _ _ _ _ _ (on_stream_eq _ _ _ _ out width (byte_at c p _ H))).
  cbn [int ValueData.value].
  rewrite (bind_return (pure_outcome _) _ _ (mkState (set_rpos c (rpos c + 1)) out width)
                       (Plane plane)) by (unfold pure_outcome; rewrite Hplane; reflexivity).
  rewrite Hp.
  pose proof (pending_next c p _ H) as H1.
  rewrite (bind_return (_ <- on_stream Cursor.leb128u ;; _) _ _
             (mkState (set_rpos c (rpos c + 2)) out width) entry).
  2:{ rewrite (bind_return _ _ _ _ _
                 (on_stream_eq _ _ _ _ out width (leb128u_at _ code2 rest H1 Hc))).
      unfold pure_outcome. cbn [int ValueData.value ins_getitem set_rpos rpos path data fpos].
      rewrite Hentry.
      replace (rpos c + 1 + 1)%nat with (rpos c + 2)%nat by lia. reflexivity. }
  assert (Hwf : wf (set_rpos c (rpos c + 2))).
  { unfold wf. cbn [set_rpos rpos data].
    pose proof (pending_wf _ _ _ H1) as L. cbn [set_rpos rpos data] in L. lia. }
  rewrite (bind_return _ _ _ _ _
             (on_stream_eq _ _ _ _ out width
                (reload_restores (rpos c) _ Hwf ltac:(cbn [set_rpos rpos]; lia)))).
  cbn [set_rpos rpos path data fpos].
  replace (rpos c + 2 - rpos c)%nat with 2%nat by lia.
  unfold pending in H. rewrite H. reflexivity.
Qed.

(** ** Vector constants and shuffles *)

(** C1 (what the code does).  The entries [0x0C] and [0x0D] of the plane
    under [0xFD] are [v128.const] with the operand kind [vb16] and
    [i8x16.shuffle] with the operand kind [vlt].  At any position of any
    buffer, [instruction] on the bytes [FD 0C] or [FD 0D] writes the
    mnemonic and then raises [NotImplementedError "<mnemonic> -> <kind>"]:
    the test [op == ('vb16', 'vlt')] compares a [str] with a tuple and is
    never true, so the branch that loads 16 bytes is never taken and the
    cursor stays after the two opcode bytes. *)
Theorem instruction_vb16_vlt_raises (c : t) (rest : list Z) (sub : Z) (mnemonic kind : string)
        (out : list event) (width : positive) (indent_base indent_level indent_step : Z) :
  pending c = 0xFD :: sub :: rest ->
  In (sub, mnemonic, kind) [(0x0C, "v128.const", "vb16"); (0x0D, "i8x16.shuffle", "vlt")] ->
  py_getitem list_index_msg DISASM_FD sub = Return (Op [OStr kind] [mnemonic; kind]) /\
  instruction indent_base indent_level indent_step (mkState c out width) =
  (Raise (NotImplementedError (mnemonic ++ " -> " ++ kind)),
   mkState (set_rpos c (rpos c + 2))
           (out ++ [Dprint (Some (mk (path c) [0xFD; sub] (fpos c + rpos c) 0))
                           [Line (spaces ((indent_base + indent_level) * indent_step)
                                  ++ mnemonic)]])
           width).
Proof.
  intros H [E | [E | []]]; injection E as <- <- <-; (split; [reflexivity|]);
    unfold instruction;
    rewrite (prefixed_opcode_at c _ _ rest _ H eq_refl eq_refl DISASM_FD eq_refl eq_refl);
    reflexivity.
Qed.

Lemma instruction_vb16_vlt_raises_witness :
  let c := mk "f" [0x41; 0x00; 0xFD; 0x0C; 0; 1; 2; 3; 4; 5; 6; 7; 8; 9; 10; 11; 12; 13; 14; 15;
                   0x0B] 0 2 in
  instruction 1 0 2 (mkState c [] 8) =
  (Raise (NotImplementedError "v128.const -> vb16"),
   mkState (set_rpos c 4) [Dprint (Some (mk "f" [0xFD; 0x0C] 2 0)) [Line "  v128.const"]] 8).
Proof.
  cbv zeta.
  exact (proj2 (instruction_vb16_vlt_raises
                  (mk "f" [0x41; 0x00; 0xFD; 0x0C; 0; 1; 2; 3; 4; 5; 6; 7; 8; 9; 10; 11; 12; 13;
                           14; 15; 0x0B] 0 2)
                  [0; 1; 2; 3; 4; 5; 6; 7; 8; 9; 10; 11; 12; 13; 14; 15; 0x0B]
                  0x0C "v128.const" "vb16" [] 8 1 0 2 eq_refl (or_introl eq_refl))).
Defined.

(** ** Unknown type codes *)






(** The sites that do refuse an unknown value type: a parameter list of
    a function type, and a global. *)
Lemma unknown_valtype_refused :
  fst (type_section (mkState (mk "f" [0x01; 0x60; 0x01; 0x00] 0 0) [] 8)) =
  Raise (NotImplementedError "unknown valtype: 0x00") /\
  fst (global_section (mkState (mk "f" [0x01; 0x00] 0 0) [] 8)) =
  Raise (NotImplementedError "unknown valtype: 0x00").
Proof. split; reflexivity. Qed.

(** ** Element and data segments *)

(** C2 (what the code does).  [kind != 0] is true whatever byte was
    read, the byte 0 included: [kind] is an [Integer] object, which has
    no comparison of its own.  An element entry of mode 1, 2 or 3
    therefore always ends in [NotImplementedError "unknown elemkind: .."]
    once its elemkind byte was read; [funcref] is never written and the
    funcidx list is never reached. *)
Theorem element_kind_form_raises (path : string) (fpos : nat) (out : list event)
        (width : positive) (kind : Z) (rest : list Z) :
  Integer_ne_int (ValueData.mk kind (mk path [kind] (fpos + 2) 0)) 0 = true /\
  element_section (mkState (mk path (0x01 :: 0x01 :: kind :: rest) fpos 0) out width) =
  (Raise (NotImplementedError ("unknown elemkind: " ++ str_int kind)),
   mkState (mk path (0x01 :: 0x01 :: kind :: rest) fpos 3)
           ((out ++ [Dprint (Some (mk path [0x01] (fpos + 0) 0)) [Line "element count = 1"]])
                ++ [Dprint (Some (mk path [0x01] (fpos + 1) 0)) [Line "elem[0] (mode:1)"]])
           width) /\
  element_section (mkState (mk path (0x01 :: 0x03 :: kind :: rest) fpos 0) out width) =
  (Raise (NotImplementedError ("unknown elemkind: " ++ str_int kind)),
   mkState (mk path (0x01 :: 0x03 :: kind :: rest) fpos 3)
           ((out ++ [Dprint (Some (mk path [0x01] (fpos + 0) 0)) [Line "element count = 1"]])
                ++ [Dprint (Some (mk path [0x03] (fpos + 1) 0)) [Line "elem[0] (mode:3)"]])
           width) /\
  fst (element_section
         (mkState (mk path (0x01 :: 0x02 :: 0x00 :: 0x41 :: 0x00 :: 0x0B :: kind :: rest) fpos 0)
                  out width)) =
  Raise (NotImplementedError ("unknown elemkind: " ++ str_int kind)).
Proof.
  split; [reflexivity|].
  split; [vm_compute; reflexivity|].
  split; [vm_compute; reflexivity|].
  vm_compute; reflexivity.
Qed.

(** C3 (what the code does).  A data entry of mode 2 reads the memidx
    and then raises [AttributeError]: the annotation reads the attribute
    [code], which an [Integer] does not have.  The offset expression and
    the init bytes are never reached.  A mode of 3 or more raises
    [NotImplementedError "unknown data: mode=.."]. *)
Theorem data_mode_2_raises (path : string) (fpos : nat) (out : list event)
        (width : positive) (rest : list Z) :
  data_section (mkState (mk path (0x01 :: 0x02 :: 0x00 :: rest) fpos 0) out width) =
  (Raise (AttributeError "'Integer' object has no attribute 'code'"),
   mkState (mk path (0x01 :: 0x02 :: 0x00 :: rest) fpos 3)
           ((out ++ [Dprint (Some (mk path [0x01] (fpos + 0) 0)) [Line "data count = 1"]])
                ++ [Dprint (Some (mk path [0x02] (fpos + 1) 0)) [Line "data[0] (mode=2)"]])
           width) /\
  fst (data_section (mkState (mk path (0x01 :: 0x03 :: rest) fpos 0) out width)) =
  Raise (NotImplementedError "unknown data: mode=3") /\
  fst (data_section (mkState (mk path (0x01 :: 0x80 :: 0x01 :: rest) fpos 0) out width)) =
  Raise (NotImplementedError "unknown data: mode=128").
Proof.
  split; [vm_compute; reflexivity|].
  split; vm_compute; reflexivity.
Qed.

(** ** The driver *)

(** C8.  On the six bytes [00 61 73 6D 01 00], whatever the path and the
    width (at least one), [main] writes the banner and the annotation of the magic, and
    then fails while [long] reads the version: [read(4)] returns the two
    bytes that are left and indexing the third raises [IndexError], an
    index off the end of the bytes, which is a [TruncatedInput].  Nothing
    is written for the version. *)
Theorem main_truncated_version (path : string) (width : positive) :
  let input := [0x00; 0x61; 0x73; 0x6D; 0x01; 0x00] in
  main path width input =
  (Raise (IndexError bytes_index_msg),
   mkState (mk path input 0 6)
           [Print LINE_SEP; Print ("Path: " ++ path); Print LINE_SEP;
            Dprint (Some (mk path FILE_MAGIC 0 0)) [Line "magic = b'\x00asm'"]]
           width) /\
  TruncatedInput (IndexError bytes_index_msg) = true /\
  Cursor.long (mk path input 0 4) = (Raise (IndexError bytes_index_msg), mk path input 0 6).
Proof.
  cbv zeta. split; [vm_compute; reflexivity | split; reflexivity].
Qed.

(** ** The whole dump ends *)

Lemma steady_expression (indent_base indent_level indent_step : Z) :
  steady (expression indent_base indent_level indent_step).
Proof.
  intros s r s' Hwf H. unfold expression in H.
  rewrite (bind_return get _ s s s eq_refl) in H.
  exact (expression_fuel_enough _ _ _ _ _ _ _ Hwf (Nat.lt_succ_diag_r _) H).
Qed.

Lemma steady_with_stream {A : Type} (sub : t) (m : M A) :
  wf sub -> steady m -> steady (with_stream sub m).
Proof.
  intros Hsub Hm s r s' Hwf H. unfold with_stream in H.
  destruct (m (mkState sub (out s) (BYTESW s))) as [r0 s0] eqn:E.
  injection H as <- <-.
  destruct (Hm (mkState sub (out s) (BYTESW s)) _ _ Hsub E) as [(_ & _ & _ & Hw) N].
  split; [|exact N].
  split; [apply same_buffer_refl|]. split; [exact Hwf|]. split; [apply Nat.le_refl | exact Hw].
Qed.

Lemma read_span_wf (size : nat) (c c' span : t) :
  read size c = (Return span, c') -> wf span.
Proof. unfold read. intros H. injection H as <- _. unfold wf. cbn [rpos]. lia. Qed.

Lemma load_span_wf (size : nat) (c c' span : t) :
  load size c = (Return span, c') -> wf span.
Proof.
  unfold load. intros H.
  apply bind_inv in H as [(sp & c1 & Hr & H) | [(e & _ & ?) | (_ & ?)]]; try discriminate.
  apply read_span_wf in Hr.
  unfold bind, get, ret, raise in H.
  destruct (len sp =? size)%nat; [|discriminate]. injection H as <- _. exact Hr.
Qed.

(** A decoder that goes on with the span of a [read] or a [load]. *)
Lemma steady_then_span {B : Type} (m : SE t t) (k : t -> M B) :
  reads (fun span => span) m ->
  (forall c c' span, m c = (Return span, c') -> wf span) ->
  (forall span, wf span -> steady (k span)) ->
  steady (bind (on_stream m) k).
Proof.
  intros Hm Hspan Hk s r s' Hwf H.
  apply bind_inv in H as [(span & s1 & H1 & H2) | [(e & H1 & ->) | (H1 & ->)]];
    destruct (steady_on_stream _ _ Hm _ _ _ Hwf H1) as [C1 N1].
  - apply on_stream_inv in H1 as (c1 & H1 & _).
    destruct (Hk span (Hspan _ _ _ H1) _ _ _ (proj1 (proj2 C1)) H2) as [C2 N2].
    split; [exact (continues_trans _ _ _ C1 C2) | exact N2].
  - split; [exact C1 | discriminate].
  - exfalso. apply N1. reflexivity.
Qed.

Ltac steady_section :=
  repeat match goal with
         | |- steady (ret _) => apply steady_ret
         | |- steady (raise _) => apply steady_raise
         | |- steady get => apply steady_get
         | |- steady (dprint1 _ _) => apply steady_dprint1
         | |- steady (dprint _ _) => apply steady_dprint
         | |- steady read_valtype => apply steady_read_valtype
         | |- steady (expression _ _ _) => apply steady_expression
         | |- steady (on_stream Cursor.byte) => exact (steady_on_stream _ _ byte_reads)
         | |- steady (on_stream Cursor.long) => exact (steady_on_stream _ _ long_reads)
         | |- steady (on_stream Cursor.utf8) => exact (steady_on_stream _ _ utf8_reads)
         | |- steady (on_stream Cursor.leb128u) => exact (steady_on_stream _ _ leb128u_reads)
         | |- steady (pure_outcome (py_getitem _ _ _)) =>
           apply steady_pure, getitem_not_out_of_fuel
         | |- steady (pure_outcome (Integer_code _)) => apply steady_pure; discriminate
         | H : wf ?sub |- steady (with_stream ?sub _) => apply (steady_with_stream _ _ H)
         | |- steady (for_range _ _) => apply steady_for_range; intros
         | |- steady (bind (on_stream (load _)) _) =>
           apply (steady_then_span (load _) _ (load_reads _) (load_span_wf _)); intros
         | |- steady (bind _ _) => apply steady_bind; [| intros]
         | |- steady (if ?b then _ else _) => destruct b
         | |- steady (match ?x with _ => _ end) => destruct x
         | |- steady section_remain => unfold section_remain
         | |- steady (value_type _) => unfold value_type
         | |- steady (reference_type _) => unfold reference_type
         | |- steady (limits _) => unfold limits
         | |- steady (mutability _) => unfold mutability
         | |- steady (result_type _ _) => unfold result_type
         end.

Lemma steady_section_remain : steady section_remain.
Proof. unfold section_remain. steady_section. Qed.

Lemma steady_SECTION_FUNC (handler : M unit) : In handler SECTION_FUNC -> steady handler.
Proof.
  unfold SECTION_FUNC. cbn [In]. intros H.
  repeat (destruct H as [<- | H]); [..| contradiction].
  - unfold custom_section. steady_section.
  - unfold type_section. steady_section.
  - unfold import_section. steady_section.
  - unfold function_section. steady_section.
  - unfold table_section. steady_section.
  - unfold memory_section. steady_section.
  - unfold global_section. steady_section.
  - unfold export_section. steady_section.
  - unfold start_section. steady_section.
  - unfold element_section. steady_section.
  - unfold code_section. steady_section.
  - unfold data_section. steady_section.
  - unfold datacount_section. steady_section.
Qed.

Lemma bounded_bind {A B : Type} (n : nat) (m : M A) (k : A -> M B) :
  steady m -> (forall a, bounded n (k a)) -> bounded n (bind m k).
Proof.
  intros Hm Hk s r s' Hwf Hn H.
  apply bind_inv in H as [(a & s1 & H1 & H2) | [(e & H1 & ->) | (H1 & ->)]];
    destruct (Hm _ _ _ Hwf H1) as [C1 N1].
  - pose proof (continues_remain _ _ C1) as R1.
    destruct (Hk a _ _ _ (proj1 (proj2 C1)) ltac:(lia) H2) as [C2 N2].
    split; [exact (continues_trans _ _ _ C1 C2) | exact N2].
  - split; [exact C1 | discriminate].
  - exfalso. apply N1. reflexivity.
Qed.

(** Reading one byte leaves one byte less. *)
Lemma bounded_bind_byte {B : Type} (n : nat) (k : Integer -> M B) :
  (forall a, bounded n (k a)) -> bounded (S n) (bind (on_stream Cursor.byte) k).
Proof.
  intros Hk s r s' Hwf Hn H.
  apply bind_inv in H as [(a & s1 & H1 & H2) | [(e & H1 & ->) | (H1 & ->)]];
    destruct (steady_on_stream _ _ byte_reads _ _ _ Hwf H1) as [C1 N1].
  - assert (R1 : (remain (stream s1) < remain (stream s))%nat).
    { apply (advance_remain _ _ C1).
      apply on_stream_inv in H1 as (c1 & Hb & E1). rewrite E1. cbn [stream].
      destruct (byte_reads _ _ _ Hwf Hb) as (_ & _ & _ & _ & Hs).
      destruct (Hs _ eq_refl) as [_ ->]. rewrite (byte_length _ _ _ Hb). lia. }
    destruct (Hk a _ _ _ (proj1 (proj2 C1)) ltac:(lia) H2) as [C2 N2].
    split; [exact (continues_trans _ _ _ C1 C2) | exact N2].
  - split; [exact C1 | discriminate].
  - exfalso. apply N1. reflexivity.
Qed.

Lemma bounded_then_span {B : Type} (n : nat) (m : SE t t) (k : t -> M B) :
  reads (fun span => span) m ->
  (forall c c' span, m c = (Return span, c') -> wf span) ->
  (forall span, wf span -> bounded n (k span)) ->
  bounded n (bind (on_stream m) k).
Proof.
  intros Hm Hspan Hk s r s' Hwf Hn H.
  apply bind_inv in H as [(span & s1 & H1 & H2) | [(e & H1 & ->) | (H1 & ->)]];
    destruct (steady_on_stream _ _ Hm _ _ _ Hwf H1) as [C1 N1].
  - pose proof (continues_remain _ _ C1) as R1.
    apply on_stream_inv in H1 as (c1 & H1 & _).
    destruct (Hk span (Hspan _ _ _ H1) _ _ _ (proj1 (proj2 C1)) ltac:(lia) H2) as [C2 N2].
    split; [exact (continues_trans _ _ _ C1 C2) | exact N2].
  - split; [exact C1 | discriminate].
  - exfalso. apply N1. reflexivity.
Qed.

Lemma getitem_In {A : Type} (msg : string) (l : list A) (key : Z) (v : A) :
  py_getitem msg l key = Return v -> In v l.
Proof.
  unfold py_getitem. destruct (_ <? 0); [discriminate|].
  destruct (nth_error l _) eqn:E; [|discriminate].
  intros H. injection H as <-. exact (nth_error_In _ _ E).
Qed.

Lemma sections_fuel_bounded (fuel : nat) : bounded fuel (sections_fuel fuel).
Proof.
  induction fuel as [|fuel IH]; [intros s r s' _ H; lia|].
  intros s r s' Hwf Hn H. cbn [sections_fuel] in H.
  rewrite (bind_return get _ s s s eq_refl) in H.
  destruct (0 <? remain (stream s))%nat.
  2:{ injection H as <- <-. split; [apply continues_refl; exact Hwf | discriminate]. }
  revert H. apply (bounded_bind (S fuel)); [apply steady_emit | intros _ | exact Hwf | exact Hn].
  apply bounded_bind_byte. intros secid.
  apply bounded_bind; [apply steady_pure, getitem_not_out_of_fuel | intros name].
  apply bounded_bind; [apply steady_dprint1 | intros _].
  apply bounded_bind; [exact (steady_on_stream _ _ leb128u_reads) | intros secsize].
  apply bounded_bind; [apply steady_dprint1 | intros _].
  intros s0 r0 s0' Hwf0 Hn0 H0.
  apply bind_inv in H0 as [(handler & s1 & H1 & H2) | [(e & H1 & ->) | (H1 & ->)]];
    unfold pure_outcome in H1; injection H1 as H1 <-.
  - apply getitem_In, steady_SECTION_FUNC in H1.
    revert H2.
    apply (bounded_then_span fuel (read _) _ (read_reads _) (read_span_wf _));
      [| exact Hwf0 | exact Hn0].
    intros span Hspan.
    apply bounded_bind; [apply steady_with_stream; assumption | intros _; exact IH].
  - split; [apply continues_refl; exact Hwf0 | discriminate].
  - exfalso. exact (getitem_not_out_of_fuel _ _ _ H1).
Qed.

(** X1.  The dump of any file, with any path and width, ends with a
    return or an exception: the loop over the sections reads at least one
    byte of the file per turn, and no walker of the embedding runs out of
    fuel. *)
Theorem main_ends (path : string) (width : positive) (data : list Z) :
  fst (main path width data) <> OutOfFuel.
Proof.
  unfold main.
  destruct ((print LINE_SEP ;; _) (mkState (mk path data 0 0) [] width)) as [r s'] eqn:H.
  cbn [fst].
  assert (Hwf : wf (stream (mkState (mk path data 0 0) [] width)))
    by (unfold wf; cbn [stream rpos]; lia).
  assert (Hn : (remain (stream (mkState (mk path data 0 0) [] width)) < S (length data))%nat)
    by (unfold remain; cbn [stream rpos ReadData.data]; lia).
  revert H.
  enough (B : bounded (S (length data))
                (print LINE_SEP ;;
                 print ("Path: " ++ path) ;;
                 print LINE_SEP ;;
                 magic <- on_stream (ReadData.read 4) ;;
                 dprint1 (Some magic) ("magic = " ++ repr_bytes (ReadData.data magic)) ;;
                 if negb (bytes_eqb (ReadData.data magic) FILE_MAGIC)
                 then raise (ValueError EmptyString)
                 else
                   version <- on_stream Cursor.long ;;
                   dprint1 (Some (ValueData.data version))
                           ("version = " ++ str_int (int version)) ;;
                   sections_fuel (S (length data)))).
  { intros H. exact (proj2 (B _ _ _ Hwf Hn H)). }
  apply bounded_bind; [apply steady_emit | intros _].
  apply bounded_bind; [apply steady_emit | intros _].
  apply bounded_bind; [apply steady_emit | intros _].
  apply bounded_bind; [exact (steady_on_stream _ _ (read_reads 4)) | intros magic].
  apply bounded_bind; [apply steady_dprint1 | intros _].
  destruct (negb _).
  - intros s r0 s0 Hw _ H0. exact (steady_raise _ _ _ _ Hw H0).
  - apply bounded_bind; [exact (steady_on_stream _ _ long_reads) | intros version].
    apply bounded_bind; [apply steady_dprint1 | intros _].
    apply sections_fuel_bounded.
Qed.

(** * Further properties *)

(** ** The cursor: [load], [leb128], [long] *)

Lemma pending_length (c : t) : length (pending c) = remain c.
Proof. unfold pending, remain. apply length_skipn. Qed.

Lemma load_enough (size : nat) (c : t) :
  (size <= remain c)%nat ->
  load size c =
  (Return (mk (path c) (firstn size (pending c)) (fpos c + rpos c) 0),
   set_rpos c (rpos c + size)) /\
  length (firstn size (pending c)) = size.
Proof.
  intros H.
  assert (L : length (firstn size (pending c)) = size)
    by (rewrite length_firstn, pending_length; lia).
  split; [|exact L].
  unfold load, bind, read, get, ret, raise, len. fold (pending c).
  cbn [data path set_rpos]. rewrite L, Nat.eqb_refl. reflexivity.
Qed.

Lemma load_short (size : nat) (c : t) :
  wf c -> (remain c < size)%nat ->
  load size c =
  (Raise (IOError ("not enough data: " ++ path c)), set_rpos c (length (data c))).
Proof.
  unfold wf. intros Hwf H.
  assert (L : length (firstn size (pending c)) = remain c)
    by (rewrite length_firstn, pending_length; lia).
  unfold load, bind, read, get, ret, raise, len. fold (pending c).
  cbn [data path set_rpos]. rewrite L.
  destruct (Nat.eqb_spec (remain c) size) as [E|_]; [lia|].
  unfold remain. replace (rpos c + (length (data c) - rpos c))%nat with (length (data c)) by lia.
  reflexivity.
Qed.

(** X2.  [load] succeeds exactly when the bytes asked for are there.  It
    then returns them in a span at the read position and advances by
    their number.  When fewer bytes are left it raises [IOError] with the
    path, and the cursor has been moved to the end of the buffer: the
    bytes that were left are consumed by the failed call. *)
Theorem load_succeeds_iff (size : nat) (c : t) :
  wf c ->
  ((size <= remain c)%nat ->
   load size c =
   (Return (mk (path c) (firstn size (pending c)) (fpos c + rpos c) 0),
    set_rpos c (rpos c + size)) /\
   length (firstn size (pending c)) = size) /\
  ((remain c < size)%nat ->
   load size c =
   (Raise (IOError ("not enough data: " ++ path c)), set_rpos c (length (data c)))).
Proof.
  intros Hwf. split; [apply load_enough | apply load_short; exact Hwf].
Qed.

Lemma load_succeeds_iff_witness :
  let c := mk "f" [0x01; 0x02; 0x03] 0 1 in
  wf c /\
  load 2 c = (Return (mk "f" [0x02; 0x03] 1 0), set_rpos c 3) /\
  load 3 c = (Raise (IOError "not enough data: f"), set_rpos c 3).
Proof.
  cbv zeta.
  assert (Hwf : wf (mk "f" [0x01; 0x02; 0x03] 0 1)) by (unfold wf; cbn; lia).
  split; [exact Hwf|]. split.
  - exact (proj1 (proj1 (load_succeeds_iff 2 _ Hwf) ltac:(cbn; lia))).
  - exact (proj2 (load_succeeds_iff 3 _ Hwf) ltac:(cbn; lia)).
Defined.

Lemma leb128_scan_found (pre : list Z) (b : Z) (rest : list Z) (n : nat) :
  Forall continued pre -> Z.land b 128 = 0 ->
  Cursor.leb128_scan (pre ++ b :: rest)%list n = Some (n + length pre + 1)%nat.
Proof.
  intros Hpre Hb. revert n.
  induction Hpre as [|a pre Ha _ IH]; intros n; cbn [app Cursor.leb128_scan length].
  - rewrite Hb. cbn [Z.eqb]. f_equal. lia.
  - destruct (Z.eqb_spec (Z.land a 128) 0) as [E|_]; [contradiction|].
    rewrite IH. f_equal. lia.
Qed.

Lemma leb128_scan_none (bs : list Z) (n : nat) :
  Forall continued bs -> Cursor.leb128_scan bs n = None.
Proof.
  intros H. revert n. induction H as [|a bs Ha _ IH]; intros n; cbn [Cursor.leb128_scan].
  - reflexivity.
  - destruct (Z.eqb_spec (Z.land a 128) 0) as [E|_]; [contradiction | apply IH].
Qed.

Lemma firstn_app_exact {A : Type} (l1 l2 : list A) (n : nat) :
  n = length l1 -> firstn n (l1 ++ l2)%list = l1.
Proof.
  intros ->. rewrite firstn_app, Nat.sub_diag, firstn_all. cbn [firstn]. apply app_nil_r.
Qed.

Lemma leb128_found (c : t) (pre : list Z) (b : Z) (rest : list Z) :
  pending c = (pre ++ b :: rest)%list -> Forall continued pre -> Z.land b 128 = 0 ->
  Cursor.leb128 c =
  (Return (mk (path c) (pre ++ [b])%list (fpos c + rpos c) 0),
   set_rpos c (rpos c + (length pre + 1))).
Proof.
  intros H Hpre Hb.
  unfold Cursor.leb128. fold (pending c). rewrite H.
  rewrite (leb128_scan_found pre b rest 0 Hpre Hb). cbn [Nat.add].
  unfold read. fold (pending c). rewrite H.
  replace (pre ++ b :: rest)%list with ((pre ++ [b]) ++ rest)%list
    by (rewrite <- app_assoc; reflexivity).
  rewrite firstn_app_exact by (rewrite length_app; reflexivity).
  rewrite length_app. reflexivity.
Qed.

Lemma leb128_missing (c : t) :
  Forall continued (pending c) -> Cursor.leb128 c = (Raise (IndexError bytes_index_msg), c).
Proof.
  intros H. unfold Cursor.leb128. fold (pending c). rewrite (leb128_scan_none _ 0 H).
  reflexivity.
Qed.

Lemma pending_after (c : t) (l1 l2 : list Z) :
  pending c = (l1 ++ l2)%list -> pending (set_rpos c (rpos c + length l1)) = l2.
Proof.
  unfold pending. cbn [rpos data set_rpos]. intros H.
  rewrite Nat.add_comm, <- skipn_skipn, H, skipn_app, skipn_all, Nat.sub_diag.
  reflexivity.
Qed.

(** X3.  [leb128] reads the bytes up to and including the first one
    whose high bit is clear, and nothing more; [leb128u] decodes exactly
    those bytes.  When every byte left has its high bit set (also when no
    byte is left) the three LEB128 reads raise [IndexError] and the cursor
    has not moved. *)
Theorem leb128_reads_one_integer (c : t) :
  (forall pre b rest,
      pending c = (pre ++ b :: rest)%list -> Forall continued pre -> Z.land b 128 = 0 ->
      let span := mk (path c) (pre ++ [b])%list (fpos c + rpos c) 0 in
      let after := set_rpos c (rpos c + (length pre + 1)) in
      Cursor.leb128 c = (Return span, after) /\
      Cursor.leb128u c = (Return (ValueData.mk (decode_leb128u (pre ++ [b])%list) span), after) /\
      pending after = rest) /\
  (Forall continued (pending c) ->
   Cursor.leb128 c = (Raise (IndexError bytes_index_msg), c) /\
   Cursor.leb128u c = (Raise (IndexError bytes_index_msg), c) /\
   Cursor.leb128s c = (Raise (IndexError bytes_index_msg), c)).
Proof.
  split.
  - intros pre b rest H Hpre Hb span after.
    pose proof (leb128_found c pre b rest H Hpre Hb) as E.
    split; [exact E|]. split.
    + unfold Cursor.leb128u. rewrite (bind_return _ _ _ _ _ E). reflexivity.
    + unfold after.
      replace (length pre + 1)%nat with (length (pre ++ [b])%list)
        by (rewrite length_app; reflexivity).
      apply pending_after. rewrite <- app_assoc. exact H.
  - intros H. pose proof (leb128_missing c H) as E.
    split; [exact E|]. split.
    + unfold Cursor.leb128u. rewrite (bind_raise _ _ _ _ _ E). reflexivity.
    + unfold Cursor.leb128s. rewrite (bind_raise _ _ _ _ _ E). reflexivity.
Qed.

Lemma leb128_reads_one_integer_witness :
  let c := mk "f" [0x41; 0xE5; 0x8E; 0x26; 0x0B] 0 1 in
  pending c = ([0xE5; 0x8E] ++ 0x26 :: [0x0B])%list /\
  Cursor.leb128u c =
  (Return (ValueData.mk 624485 (mk "f" [0xE5; 0x8E; 0x26] 1 0)), set_rpos c 4) /\
  Cursor.leb128u (mk "f" [0x41; 0xE5; 0x8E] 0 1)
  = (Raise (IndexError bytes_index_msg), mk "f" [0x41; 0xE5; 0x8E] 0 1).
Proof.
  cbv zeta. split; [reflexivity|]. split.
  - assert (Hpre : Forall continued [0xE5; 0x8E])
      by (repeat constructor; unfold continued; cbn; discriminate).
    exact (proj1 (proj2 (proj1 (leb128_reads_one_integer
                                  (mk "f" [0x41; 0xE5; 0x8E; 0x26; 0x0B] 0 1))
                               [0xE5; 0x8E] 0x26 [0x0B] eq_refl Hpre eq_refl))).
  - assert (Hall : Forall continued (pending (mk "f" [0x41; 0xE5; 0x8E] 0 1)))
      by (repeat constructor; unfold continued; cbn; discriminate).
    exact (proj1 (proj2 (proj2 (leb128_reads_one_integer (mk "f" [0x41; 0xE5; 0x8E] 0 1))
                               Hall))).
Defined.

Lemma lor_shiftl_add (a b n : Z) :
  0 <= n -> 0 <= a < 2 ^ n -> Z.lor a (Z.shiftl b n) = a + b * 2 ^ n.
Proof.
  intros Hn Ha. rewrite Z.shiftl_mul_pow2 by assumption.
  assert (L : Z.land a (b * 2 ^ n) = 0).
  { apply Z.bits_inj'. intros i Hi. rewrite Z.land_spec, Z.bits_0.
    destruct (Z.lt_ge_cases i n) as [Hlt|Hge].
    - rewrite Z.mul_pow2_bits_low by assumption. apply andb_false_r.
    - rewrite <- (Z.mod_small a (2 ^ n)) by assumption.
      rewrite Z.mod_pow2_bits_high by lia. reflexivity. }
  rewrite <- Z.lxor_lor by assumption. symmetry. apply Z.add_nocarry_lxor. assumption.
Qed.

Lemma is_byte_range (b : Z) : is_byte b = true -> 0 <= b < 256.
Proof. unfold is_byte. lia. Qed.

Lemma long_at (c : t) (b0 b1 b2 b3 : Z) (rest : list Z) :
  pending c = b0 :: b1 :: b2 :: b3 :: rest ->
  Cursor.long c =
  (Return (ValueData.mk
             (Z.lor (Z.lor (Z.lor b0 (Z.shiftl b1 8)) (Z.shiftl b2 16)) (Z.shiftl b3 24))
             (mk (path c) [b0; b1; b2; b3] (fpos c + rpos c) 0)),
   set_rpos c (rpos c + 4)).
Proof.
  intros H. unfold Cursor.long, bind, read. fold (pending c). rewrite H. reflexivity.
Qed.

Lemma long_short (c : t) :
  wf c -> (remain c < 4)%nat ->
  Cursor.long c = (Raise (IndexError bytes_index_msg), set_rpos c (length (data c))).
Proof.
  intros Hwf Hlt. unfold wf in Hwf.
  pose proof (pending_length c) as L.
  assert (E : set_rpos c (length (data c)) = set_rpos c (rpos c + length (pending c)))
    by (f_equal; unfold remain in *; lia).
  rewrite E. clear E.
  unfold Cursor.long, bind, read. fold (pending c).
  destruct (pending c) as [|b0 [|b1 [|b2 [|b3 rest]]]];
    [reflexivity | reflexivity | reflexivity | reflexivity |].
  cbn [length] in L. lia.
Qed.

Lemma u32_le_value (b0 b1 b2 b3 : Z) :
  is_byte b0 = true -> is_byte b1 = true -> is_byte b2 = true -> is_byte b3 = true ->
  Z.lor (Z.lor (Z.lor b0 (Z.shiftl b1 8)) (Z.shiftl b2 16)) (Z.shiftl b3 24)
  = b0 + 2 ^ 8 * b1 + 2 ^ 16 * b2 + 2 ^ 24 * b3.
Proof.
  intros H0 H1 H2 H3. apply is_byte_range in H0, H1, H2, H3.
  rewrite (lor_shiftl_add b0 b1 8) by lia.
  rewrite (lor_shiftl_add _ b2 16) by lia.
  rewrite (lor_shiftl_add _ b3 24) by lia. lia.
Qed.

(** X4.  [long] reads four bytes as a little-endian unsigned integer:
    its value is [b0 + 2^8 b1 + 2^16 b2 + 2^24 b3], below [2^32].  With
    fewer than four bytes left it raises [IndexError], and the bytes that
    were left have been consumed. *)
Theorem long_little_endian (c : t) :
  (forall b0 b1 b2 b3 rest,
      pending c = b0 :: b1 :: b2 :: b3 :: rest ->
      is_byte b0 = true -> is_byte b1 = true -> is_byte b2 = true -> is_byte b3 = true ->
      let value := b0 + 2 ^ 8 * b1 + 2 ^ 16 * b2 + 2 ^ 24 * b3 in
      Cursor.long c =
      (Return (ValueData.mk value (mk (path c) [b0; b1; b2; b3] (fpos c + rpos c) 0)),
       set_rpos c (rpos c + 4)) /\
      0 <= value < 2 ^ 32) /\
  (wf c -> (remain c < 4)%nat ->
   Cursor.long c = (Raise (IndexError bytes_index_msg), set_rpos c (length (data c)))).
Proof.
  split; [|apply long_short].
  intros b0 b1 b2 b3 rest H H0 H1 H2 H3 value.
  split.
  - rewrite (long_at c _ _ _ _ rest H), (u32_le_value _ _ _ _ H0 H1 H2 H3). reflexivity.
  - apply is_byte_range in H0, H1, H2, H3. unfold value. lia.
Qed.

Lemma long_little_endian_witness :
  let c := mk "f" [0x00; 0x61; 0x73; 0x6D; 0x01; 0x00; 0x00; 0x00] 0 4 in
  Cursor.long c = (Return (ValueData.mk 1 (mk "f" [0x01; 0x00; 0x00; 0x00] 4 0)),
                   set_rpos c 8) /\
  Cursor.long (mk "f" [0x00; 0x61; 0x73; 0x6D; 0x01; 0x00] 0 4)
  = (Raise (IndexError bytes_index_msg), mk "f" [0x00; 0x61; 0x73; 0x6D; 0x01; 0x00] 0 6).
Proof.
  cbv zeta. split.
  - exact (proj1 (proj1 (long_little_endian
                           (mk "f" [0x00; 0x61; 0x73; 0x6D; 0x01; 0x00; 0x00; 0x00] 0 4))
                        0x01 0x00 0x00 0x00 [] eq_refl eq_refl eq_refl eq_refl eq_refl)).
  - apply (proj2 (long_little_endian (mk "f" [0x00; 0x61; 0x73; 0x6D; 0x01; 0x00] 0 4))).
    + unfold wf; cbn; lia.
    + cbn; lia.
Defined.

(** ** LEB128: ranges and padding *)

Lemma land_127_bit6 (b : Z) : Z.testbit b 6 = true <-> 64 <= Z.land b 127.
Proof.
  change 127 with (Z.ones 7). rewrite Z.land_ones by lia. change (2 ^ 7) with 128.
  rewrite <- (Z.mod_pow2_bits_low b 7 6) by lia. change (2 ^ 7) with 128.
  pose proof (Z.mod_pos_bound b 128 ltac:(lia)) as R.
  set (x := b mod 128) in *. rewrite Z.testbit_true by lia. change (2 ^ 6) with 64.
  assert (D : 0 <= x / 64 < 2)
    by (split; [apply Z.div_pos | apply Z.div_lt_upper_bound]; lia).
  pose proof (Z.div_mod x 64 ltac:(lia)) as E.
  pose proof (Z.mod_pos_bound x 64 ltac:(lia)) as M.
  destruct (Z.eq_dec (x / 64) 0) as [Z0|Z1].
  - rewrite Z0. change (0 mod 2) with 0. lia.
  - replace (x / 64) with 1 by lia. change (1 mod 2) with 1. lia.
Qed.

Lemma pow_128 (n : Z) : 0 <= n -> 128 ^ n = 2 ^ (7 * n).
Proof. intros H. rewrite Z.pow_mul_r by lia. reflexivity. Qed.

Lemma leb128_value_concat (l1 l2 : list Z) :
  leb128_value (l1 ++ l2) = leb128_value l1 + 128 ^ Z.of_nat (length l1) * leb128_value l2.
Proof.
  induction l1 as [|a l1 IH]; cbn [app leb128_value length].
  - change (128 ^ Z.of_nat 0) with 1. lia.
  - rewrite IH, Nat2Z.inj_succ, Z.pow_succ_r by lia. ring.
Qed.

(** X5.  The range of the decoded values, for any bytes (at least one):
    [n] bytes decode unsigned into [0, 2^(7n)) and signed into
    [-2^(7n-1), 2^(7n-1)); the signed value is negative exactly when bit 6
    of the last byte is set, and it is the unsigned value modulo
    [2^(7n)].  The decoders put no bound on [n]: values are not limited
    to 32 or 64 bits. *)
Theorem leb128_ranges (bs : list Z) :
  bs <> [] ->
  let n := Z.of_nat (length bs) in
  0 <= decode_leb128u bs < 2 ^ (7 * n) /\
  exists s, decode_leb128s bs = Return s /\
            - 2 ^ (7 * n - 1) <= s < 2 ^ (7 * n - 1) /\
            (s < 0 <-> Z.testbit (last bs 0) 6 = true) /\
            s mod 2 ^ (7 * n) = decode_leb128u bs.
Proof.
  intros Hne n.
  rewrite decode_leb128u_value, (decode_leb128s_value bs Hne).
  pose proof (leb128_value_range bs) as R. fold n in R.
  assert (Hn : 1 <= n) by (unfold n; destruct bs; [congruence | cbn [length]; lia]).
  rewrite pow_128 in R by lia.
  split; [lia|].
  rewrite Z.shiftl_mul_pow2, Z.mul_1_l by lia. fold n.
  assert (P : 2 ^ (7 * n) = 2 * 2 ^ (7 * n - 1)).
  { rewrite <- Z.pow_succ_r by lia. f_equal. lia. }
  assert (B : Z.testbit (last bs 0) 6 = true <-> 2 ^ (7 * n - 1) <= leb128_value bs).
  { rewrite land_127_bit6.
    rewrite (app_removelast_last 0 Hne) at 2. rewrite leb128_value_app.
    assert (L : Z.of_nat (length (removelast bs)) = n - 1).
    { unfold n. rewrite (app_removelast_last 0 Hne) at 2. rewrite length_app. cbn [length]. lia. }
    rewrite L, pow_128 by lia.
    replace (7 * n - 1) with (7 * (n - 1) + 6) by lia.
    rewrite Z.pow_add_r by lia. change (2 ^ 6) with 64.
    pose proof (leb128_value_range (removelast bs)) as Rp.
    rewrite L, pow_128 in Rp by lia.
    pose proof (land_127_range (last bs 0)) as Rl.
    set (p := 2 ^ (7 * (n - 1))) in *.
    assert (0 < p) by (apply Z.pow_pos_nonneg; lia).
    split; intros; nia. }
  assert (Q : 0 < 2 ^ (7 * n - 1)) by (apply Z.pow_pos_nonneg; lia).
  destruct (Z.testbit (last bs 0) 6) eqn:E.
  - pose proof (proj1 B eq_refl) as G.
    eexists. split; [reflexivity|]. split; [lia|]. split; [split; [reflexivity | lia]|].
    symmetry. apply Z.mod_unique_pos with (q := -1); lia.
  - assert (G : leb128_value bs < 2 ^ (7 * n - 1)).
    { destruct (Z.lt_ge_cases (leb128_value bs) (2 ^ (7 * n - 1))) as [|G]; [assumption|].
      apply B in G. discriminate. }
    eexists. split; [reflexivity|]. split; [lia|]. split; [split; [lia | discriminate]|].
    apply Z.mod_small. lia.
Qed.

Lemma leb128_ranges_witness :
  [0xC0; 0xBB; 0x78] <> [] /\
  0 <= decode_leb128u [0xC0; 0xBB; 0x78] < 2 ^ 21 /\
  exists s, decode_leb128s [0xC0; 0xBB; 0x78] = Return s /\ - 2 ^ 20 <= s < 2 ^ 20.
Proof.
  assert (Hne : [0xC0; 0xBB; 0x78] <> []) by discriminate.
  split; [exact Hne|].
  destruct (leb128_ranges [0xC0; 0xBB; 0x78] Hne) as [Hu [s [Hs [Hr _]]]].
  split; [exact Hu|]. exists s. split; [exact Hs | exact Hr].
Defined.

Lemma leb128_value_zeros (k : nat) : leb128_value (repeat 0x80 k ++ [0x00]) = 0.
Proof.
  induction k as [|k IH]; [reflexivity|].
  cbn [repeat app leb128_value]. rewrite IH. reflexivity.
Qed.

Lemma leb128_value_ones (k : nat) :
  leb128_value (repeat 0xFF k ++ [0x7F]) = 128 ^ Z.of_nat (S k) - 1.
Proof.
  induction k as [|k IH]; [reflexivity|].
  cbn [repeat app leb128_value]. rewrite IH.
  rewrite (Nat2Z.inj_succ (S k)), Z.pow_succ_r by lia.
  change (Z.land 0xFF 0x7F) with 127. lia.
Qed.

Lemma land_127_continued (b : Z) : 0 <= b < 128 -> Z.land (b + 128) 127 = Z.land b 127.
Proof.
  intros H. change 127 with (Z.ones 7). rewrite !Z.land_ones by lia.
  change (2 ^ 7) with 128. replace (b + 128) with (b + 1 * 128) by lia.
  apply Z.mod_add. lia.
Qed.

(** X6.  Padded encodings are accepted and decode to the value of the
    short form.  For a last byte [b] (below 128) after any bytes [pre]:
    setting its high bit and appending [k] bytes [0x80] and a byte [0x00]
    leaves the unsigned value unchanged, and gives that unsigned value under
    signed decoding; when bit 6 of [b] is set, appending [k] bytes [0xFF]
    and a byte [0x7F] instead leaves the signed value unchanged. *)
Theorem leb128_padding (pre : list Z) (b : Z) (k : nat) :
  0 <= b < 128 ->
  let zero_padded := (pre ++ (b + 128) :: repeat 0x80 k ++ [0x00])%list in
  let sign_padded := (pre ++ (b + 128) :: repeat 0xFF k ++ [0x7F])%list in
  decode_leb128u zero_padded = decode_leb128u (pre ++ [b])%list /\
  decode_leb128s zero_padded = Return (decode_leb128u (pre ++ [b])%list) /\
  (Z.testbit b 6 = true -> decode_leb128s sign_padded = decode_leb128s (pre ++ [b])%list).
Proof.
  intros Hb zero_padded sign_padded.
  assert (U : leb128_value zero_padded = leb128_value (pre ++ [b])%list).
  { unfold zero_padded. rewrite !leb128_value_concat.
    cbn [leb128_value]. rewrite leb128_value_zeros, land_127_continued by assumption. lia. }
  assert (Lz : last zero_padded 0 = 0x00).
  { unfold zero_padded.
    replace (pre ++ (b + 128) :: repeat 128 k ++ [0])%list
      with ((pre ++ (b + 128) :: repeat 128 k) ++ [0])%list
      by (rewrite <- app_assoc; reflexivity).
    apply last_last. }
  assert (Ls : last sign_padded 0 = 0x7F).
  { unfold sign_padded.
    replace (pre ++ (b + 128) :: repeat 255 k ++ [127])%list
      with ((pre ++ (b + 128) :: repeat 255 k) ++ [127])%list
      by (rewrite <- app_assoc; reflexivity).
    apply last_last. }
  split; [rewrite !decode_leb128u_value; exact U|]. split.
  - rewrite decode_leb128s_value by (unfold zero_padded; destruct pre; discriminate).
    rewrite Lz. change (Z.testbit 0 6) with false. cbv iota.
    rewrite decode_leb128u_value. f_equal. exact U.
  - intros H6.
    rewrite decode_leb128s_value by (unfold sign_padded; destruct pre; discriminate).
    rewrite decode_leb128s_value by (destruct pre; discriminate).
    rewrite Ls, last_last, H6. change (Z.testbit 127 6) with true. cbv iota.
    f_equal. unfold sign_padded.
    rewrite !leb128_value_concat. cbn [leb128_value].
    rewrite leb128_value_ones, land_127_continued by assumption.
    rewrite !length_app. cbn [length]. rewrite length_app, repeat_length. cbn [length].
    rewrite !Z.shiftl_mul_pow2, !Z.mul_1_l by lia.
    replace (7 * Z.of_nat (length pre + S (k + 1))) with
      (7 * Z.of_nat (length pre) + 7 + 7 * Z.of_nat (S k)) by lia.
    replace (7 * Z.of_nat (length pre + 1)) with (7 * Z.of_nat (length pre) + 7) by lia.
    rewrite !Z.pow_add_r by lia. rewrite <- !pow_128 by lia.
    change (2 ^ 7) with 128. change (128 ^ Z.of_nat 0) with 1.
    set (p := 128 ^ Z.of_nat (length pre)). set (q := 128 ^ Z.of_nat (S k)).
    ring.
Qed.

Lemma leb128_padding_witness :
  0 <= 0x7F < 128 /\
  decode_leb128u [0xFF; 0x80; 0x80; 0x00] = decode_leb128u [0x7F] /\
  decode_leb128s [0xFF; 0x80; 0x80; 0x00] = Return 127 /\
  decode_leb128s [0xFF; 0xFF; 0xFF; 0x7F] = decode_leb128s [0x7F].
Proof.
  assert (Hb : 0 <= 0x7F < 128) by lia.
  split; [exact Hb|].
  destruct (leb128_padding [] 0x7F 2 Hb) as [Hu [Hz Hs]].
  split; [exact Hu|]. split; [exact Hz | exact (Hs eq_refl)].
Defined.

(** ** The byte ranges of the output follow the file *)

Lemma firstn_is_prefix {A : Type} (l l' : list A) (k : nat) :
  l = firstn k l' -> l = firstn (length l) l'.
Proof.
  intros ->. rewrite length_firstn.
  destruct (Nat.le_ge_cases k (length l')) as [H|H].
  - rewrite Nat.min_l by exact H. reflexivity.
  - rewrite Nat.min_r by exact H. rewrite !firstn_all2 by lia. reflexivity.
Qed.

Lemma firstn_firstn_skipn {A : Type} (l : list A) (a b : nat) :
  (firstn a l ++ firstn b (skipn a l))%list = firstn (a + b) l.
Proof.
  revert l. induction a as [|a IH]; intros l; [reflexivity|].
  destruct l as [|x l]; cbn [firstn skipn app Nat.add].
  - rewrite firstn_nil. reflexivity.
  - rewrite IH. reflexivity.
Qed.

Lemma shows_slice (F : list Z) (b sp : t) (r : nat) :
  shows F b ->
  data sp = firstn (length (data sp)) (skipn r (data b)) ->
  fpos sp = (fpos b + r)%nat ->
  shows F sp.
Proof.
  unfold shows. intros Hb Hd Hf.
  rewrite Hb, skipn_firstn_comm, skipn_skipn, firstn_firstn in Hd.
  rewrite Hf, (Nat.add_comm (fpos b) r).
  exact (firstn_is_prefix _ _ _ Hd).
Qed.

Lemma bytes_eqb_refl (l : list Z) : bytes_eqb l l = true.
Proof. unfold bytes_eqb. destruct (list_eq_dec Z.eq_dec l l); congruence. Qed.

Lemma bytes_eqb_eq (a b : list Z) : bytes_eqb a b = true -> a = b.
Proof. unfold bytes_eqb. destruct (list_eq_dec Z.eq_dec a b); [trivial | discriminate]. Qed.

Lemma tile_end_snoc (F : list Z) (evs : list event) (e : event) :
  tile_end F (evs ++ [e]) = tile_step F (tile_end F evs) e.
Proof. unfold tile_end. rewrite fold_left_app. reflexivity. Qed.

Lemma tile_step_marginal (F : list Z) (pos : option nat) (e : event) :
  marginal e -> tile_step F pos e = pos.
Proof. destruct pos, e as [|[sp|] msg]; cbn; intros H; try reflexivity; contradiction. Qed.

Lemma tile_step_span (F : list Z) (sp : t) (msg : list line) :
  shows F sp ->
  tile_step F (Some (fpos sp)) (Dprint (Some sp) msg) = Some (fpos sp + length (data sp))%nat.
Proof.
  unfold shows. intros H. cbn [tile_step].
  rewrite Nat.eqb_refl, <- H, bytes_eqb_refl. reflexivity.
Qed.

(** *** The three stations imply an output in order *)

Lemma behind_tiled (F : list Z) (b : t) (p0 : nat) (s : state) : behind F b p0 s -> tiled F s.
Proof. intros (_ & _ & _ & H & _). eexists. exact H. Qed.

Lemma in_step_tiled (F : list Z) (b : t) (s : state) : in_step F b s -> tiled F s.
Proof. apply behind_tiled. Qed.

Lemma owes_tiled (F : list Z) (b sp : t) (s : state) : owes F b sp s -> tiled F s.
Proof. intros (_ & _ & _ & H & _). eexists. exact H. Qed.

Lemma stable_behind (F : list Z) (b : t) (p0 : nat) : stable (behind F b p0).
Proof.
  intros s e He (Hb & Hw & Hs & Ht & Hp). unfold behind. cbn [stream out].
  rewrite tile_end_snoc, Ht, tile_step_marginal by exact He. auto.
Qed.

Lemma stable_in_step (F : list Z) (b : t) : stable (in_step F b).
Proof. intros s e He H. exact (stable_behind F b _ s e He H). Qed.

Lemma stable_owes (F : list Z) (b sp : t) : stable (owes F b sp).
Proof.
  intros s e He (Hb & Hw & Hs & Ht & Hrest). unfold owes. cbn [stream out].
  rewrite tile_end_snoc, Ht, tile_step_marginal by exact He. auto.
Qed.

(** *** Rules *)

Lemma triple_bind {A B : Type} (F : list Z) (P : state -> Prop) (m : M A)
      (Q : A -> state -> Prop) (k : A -> M B) (R : B -> state -> Prop) :
  triple F P m Q -> (forall a, triple F (Q a) (k a) R) -> triple F P (bind m k) R.
Proof.
  intros Hm Hk s r s' HP H.
  apply bind_inv in H as [(a & s1 & H1 & H2) | [(e & H1 & ->) | (H1 & ->)]].
  - exact (Hk a _ _ _ (Hm _ _ _ HP H1) H2).
  - exact (Hm _ _ _ HP H1).
  - exact (Hm _ _ _ HP H1).
Qed.

Lemma triple_weaken {A : Type} (F : list Z) (P P' : state -> Prop) (m : M A)
      (Q : A -> state -> Prop) :
  (forall s, P s -> P' s) -> triple F P' m Q -> triple F P m Q.
Proof. intros HP Hm s r s' Hs H. exact (Hm _ _ _ (HP _ Hs) H). Qed.

Lemma triple_ret {A : Type} (F : list Z) (P : state -> Prop) (a : A)
      (Q : A -> state -> Prop) :
  (forall s, P s -> Q a s) -> triple F P (ret a) Q.
Proof. intros HQ s r s' HP H. injection H as <- <-. exact (HQ _ HP). Qed.

Lemma triple_raise {A : Type} (F : list Z) (P : state -> Prop) (e : exn)
      (Q : A -> state -> Prop) :
  (forall s, P s -> tiled F s) -> triple F P (raise e) Q.
Proof. intros HT s r s' HP H. injection H as <- <-. exact (HT _ HP). Qed.

Lemma triple_raise_bind {A B : Type} (F : list Z) (P : state -> Prop) (e : exn)
      (k : A -> M B) (Q : B -> state -> Prop) :
  (forall s, P s -> tiled F s) -> triple F P (bind (raise e) k) Q.
Proof. intros HT s r s' HP H. injection H as <- <-. exact (HT _ HP). Qed.

Lemma triple_ret_bind {A B : Type} (F : list Z) (P : state -> Prop) (a : A)
      (k : A -> M B) (Q : B -> state -> Prop) :
  triple F P (k a) Q -> triple F P (bind (ret a) k) Q.
Proof. intros Hk s r s' HP H. exact (Hk _ _ _ HP H). Qed.

Lemma triple_pure_bind {A B : Type} (F : list Z) (P : state -> Prop) (o : outcome A)
      (k : A -> M B) (Q : B -> state -> Prop) :
  (forall s, P s -> tiled F s) ->
  (forall a, o = Return a -> triple F P (k a) Q) ->
  triple F P (bind (pure_outcome o) k) Q.
Proof.
  intros HT Hk s r s' HP H. unfold bind, pure_outcome in H.
  destruct o as [a|e|].
  - exact (Hk a eq_refl _ _ _ HP H).
  - injection H as <- <-. exact (HT _ HP).
  - injection H as <- <-. exact (HT _ HP).
Qed.

Lemma triple_get_bind {B : Type} (F : list Z) (P : state -> Prop)
      (k : state -> M B) (Q : B -> state -> Prop) :
  (forall s0, P s0 -> triple F (fun s => s = s0) (k s0) Q) ->
  triple F P (bind get k) Q.
Proof. intros Hk s r s' HP H. exact (Hk s HP _ _ _ eq_refl H). Qed.

Lemma triple_get_any {B : Type} (F : list Z) (P : state -> Prop)
      (k : state -> M B) (Q : B -> state -> Prop) :
  (forall s0, triple F P (k s0) Q) -> triple F P (bind get k) Q.
Proof. intros Hk s r s' HP H. exact (Hk s _ _ _ HP H). Qed.

Lemma triple_assoc {A B C : Type} (F : list Z) (P : state -> Prop) (m : M A)
      (k1 : A -> M B) (k2 : B -> M C) (Q : C -> state -> Prop) :
  triple F P (bind m (fun a => bind (k1 a) k2)) Q -> triple F P (bind (bind m k1) k2) Q.
Proof.
  intros Hm s r s' HP H. apply (Hm _ _ _ HP). rewrite <- H.
  unfold bind. destruct (m s) as [[a|e|] s1]; reflexivity.
Qed.

Lemma triple_emit_bind {B : Type} (F : list Z) (P : state -> Prop) (e : event)
      (k : unit -> M B) (Q : B -> state -> Prop) :
  stable P -> marginal e -> triple F P (k tt) Q -> triple F P (bind (emit e) k) Q.
Proof. intros HS He Hk s r s' HP H. exact (Hk _ _ _ (HS _ _ He HP) H). Qed.

Lemma triple_dprint (F : list Z) (b sp : t) (msg : list line) :
  triple F (owes F b sp) (dprint (Some sp) msg) (fun _ => in_step F b).
Proof.
  intros s r s' (Hb & Hw & Hs & Ht & Hsp & _ & He) H.
  injection H as <- <-. unfold in_step, behind. cbn [stream out].
  rewrite tile_end_snoc, Ht, (tile_step_span F sp msg Hsp), He. auto.
Qed.

Lemma triple_read {A : Type} (F : list Z) (b : t) (span_of : A -> t) (m : SE t A) :
  reads span_of m -> slices span_of m ->
  triple F (in_step F b) (on_stream m) (fun v => owes F b (span_of v)).
Proof.
  intros Hr Hsl s r s' (Hb & Hw & Hs & Ht & _) H.
  apply on_stream_inv in H as (c' & Hm & ->).
  destruct (Hr _ _ _ Hw Hm) as (Hb' & Hw' & Hle & Hn & Hlaw).
  destruct r as [v|e|].
  - destruct (Hlaw v eq_refl) as [Hf Hp]. destruct (Hsl _ _ _ Hw Hm) as (H0 & Hd & _).
    destruct Hb as (Bp & Bd & Bf).
    assert (Ef : fpos (span_of v) = (fpos b + rpos (stream s))%nat) by (rewrite Hf, Bf; reflexivity).
    unfold owes. cbn [stream out].
    split; [exact (same_buffer_trans _ _ _ (conj Bp (conj Bd Bf)) Hb')|].
    split; [exact Hw'|]. split; [exact Hs|].
    split; [rewrite Ef; exact Ht|].
    split; [apply (shows_slice F b _ (rpos (stream s)) Hs); [|exact Ef];
            unfold pending in Hd; rewrite Bd in Hd; exact Hd|].
    split; [exact H0|]. rewrite Ef, Hp. lia.
  - eexists. exact Ht.
  - eexists. exact Ht.
Qed.

Lemma triple_read_behind {A : Type} (F : list Z) (b : t) (p0 : nat) (span_of : A -> t)
      (m : SE t A) :
  reads span_of m -> triple F (behind F b p0) (on_stream m) (fun _ => behind F b p0).
Proof.
  intros Hr s r s' (Hb & Hw & Hs & Ht & Hp) H.
  apply on_stream_inv in H as (c' & Hm & ->).
  destruct (Hr _ _ _ Hw Hm) as (Hb' & Hw' & Hle & Hn & Hlaw).
  destruct r as [v|e|]; [|eexists; exact Ht..].
  unfold behind. cbn [stream out].
  split; [exact (same_buffer_trans _ _ _ Hb Hb')|].
  split; [exact Hw'|]. split; [exact Hs|]. split; [exact Ht | lia].
Qed.

Lemma triple_reload (F : list Z) (b : t) (p0 : nat) :
  triple F (behind F b p0) (on_stream (reload p0)) (fun span => owes F b span).
Proof.
  intros s r s' (Hb & Hw & Hs & Ht & Hp) H.
  apply on_stream_inv in H as (c' & Hm & ->).
  rewrite (reload_restores p0 _ Hw Hp) in Hm. injection Hm as <- <-.
  destruct Hb as (Bp & Bd & Bf).
  unfold owes. cbn [stream out fpos data rpos].
  split; [exact (conj Bp (conj Bd Bf))|]. split; [exact Hw|]. split; [exact Hs|].
  split; [rewrite Bf; exact Ht|].
  split.
  - apply (shows_slice F b _ p0 Hs); cbn [data fpos].
    + rewrite Bd. apply (firstn_is_prefix _ _ (rpos (stream s) - p0)). reflexivity.
    + rewrite Bf. reflexivity.
  - split; [reflexivity|].
    unfold wf in Hw. rewrite length_firstn, length_skipn, Bf. lia.
Qed.

Lemma triple_for_range_from (F : list Z) (P : state -> Prop) (body : Z -> M unit)
      (n : nat) (start : Z) :
  (forall i, triple F P (body i) (fun _ => P)) ->
  triple F P (for_range_from start n body) (fun _ => P).
Proof.
  intros Hbody. revert start. induction n as [|n IH]; intros start; cbn [for_range_from].
  - apply triple_ret. auto.
  - apply (triple_bind F P _ (fun _ => P)); [apply Hbody | intros _; apply IH].
Qed.

Lemma triple_for_range (F : list Z) (P : state -> Prop) (body : Z -> M unit) (n : Z) :
  (forall i, triple F P (body i) (fun _ => P)) ->
  triple F P (for_range n body) (fun _ => P).
Proof. apply triple_for_range_from. Qed.

Lemma triple_for_each {A : Type} (F : list Z) (P : state -> Prop) (body : A -> M unit)
      (xs : list A) :
  (forall x, triple F P (body x) (fun _ => P)) ->
  triple F P (for_each xs body) (fun _ => P).
Proof.
  intros Hbody. induction xs as [|x xs IH]; cbn [for_each].
  - apply triple_ret. auto.
  - apply (triple_bind F P _ (fun _ => P)); [apply Hbody | intros _; apply IH].
Qed.

Lemma triple_with_stream {A : Type} (F : list Z) (b sub : t) (m : M A) :
  triple F (in_step F sub) m (fun _ => finished F sub) ->
  triple F (owes F b sub) (with_stream sub m) (fun _ => in_step F b).
Proof.
  intros Hm s r s' (Hb & Hw & Hs & Ht & Hsub & H0 & He) H.
  unfold with_stream in H.
  destruct (m (mkState sub (out s) (BYTESW s))) as [r0 s0] eqn:E.
  injection H as <- <-.
  assert (Pre : in_step F sub (mkState sub (out s) (BYTESW s))).
  { unfold in_step, behind. cbn [stream out].
    split; [apply same_buffer_refl|]. split; [unfold wf; rewrite H0; lia|].
    split; [exact Hsub|]. split; [rewrite H0, Nat.add_0_r; exact Ht | lia]. }
  specialize (Hm _ _ _ Pre E).
  destruct r0 as [a|e|].
  - destruct Hm as [(_ & _ & _ & Ht' & _) Hend].
    unfold in_step, behind. cbn [stream out].
    split; [exact Hb|]. split; [exact Hw|]. split; [exact Hs|].
    split; [rewrite Ht', Hend, He; reflexivity | lia].
  - destruct Hm as [p Hp]. exists p. exact Hp.
  - destruct Hm as [p Hp]. exists p. exact Hp.
Qed.

(** *** The spans of the primitive reads *)

Lemma read_slices (size : nat) : slices (fun span => span) (read size).
Proof.
  intros c v c' _ H. unfold read in H. injection H as <- _. cbn [rpos data path].
  split; [reflexivity|]. split; [|reflexivity].
  apply (firstn_is_prefix _ _ size). reflexivity.
Qed.

Lemma load_returns_read (size : nat) (c c' span : t) :
  load size c = (Return span, c') -> read size c = (Return span, c').
Proof.
  unfold load. intros H.
  apply bind_inv in H as [(sp & c1 & Hr & H) | [(e & _ & ?) | (_ & ?)]]; try discriminate.
  unfold bind, get, ret, raise in H.
  destruct (len sp =? size)%nat; [|discriminate]. injection H as <- <-. exact Hr.
Qed.

Lemma load_slices (size : nat) : slices (fun span => span) (load size).
Proof. intros c v c' Hwf H. exact (read_slices size c v c' Hwf (load_returns_read _ _ _ _ H)). Qed.

Lemma leb128_slices : slices (fun span => span) Cursor.leb128.
Proof.
  intros c v c' Hwf H. unfold Cursor.leb128 in H.
  destruct (Cursor.leb128_scan _ _) as [n|]; [|discriminate].
  exact (read_slices n c v c' Hwf H).
Qed.

Lemma byte_slices : slices (@ValueData.data Z) Cursor.byte.
Proof.
  intros c v c' Hwf H. unfold Cursor.byte in H.
  apply bind_inv in H as [(span & c1 & Hr & H) | [(e & _ & ?) | (_ & ?)]]; try discriminate.
  unfold bind, pure_outcome, ret in H.
  destruct (getitem span 0); try discriminate. injection H as <- <-.
  exact (load_slices 1 c span c1 Hwf Hr).
Qed.

Lemma leb128u_slices : slices (@ValueData.data Z) Cursor.leb128u.
Proof.
  intros c v c' Hwf H. unfold Cursor.leb128u in H.
  apply bind_inv in H as [(span & c1 & Hr & H) | [(e & _ & ?) | (_ & ?)]]; try discriminate.
  unfold ret in H. injection H as <- <-.
  exact (leb128_slices c span c1 Hwf Hr).
Qed.

Lemma leb128s_slices : slices (@ValueData.data Z) Cursor.leb128s.
Proof.
  intros c v c' Hwf H. unfold Cursor.leb128s in H.
  apply bind_inv in H as [(span & c1 & Hr & H) | [(e & _ & ?) | (_ & ?)]]; try discriminate.
  unfold bind, pure_outcome, ret in H.
  destruct (decode_leb128s (data span)); try discriminate. injection H as <- <-.
  exact (leb128_slices c span c1 Hwf Hr).
Qed.

Lemma long_slices : slices (@ValueData.data Z) Cursor.long.
Proof.
  intros c v c' Hwf H. unfold Cursor.long in H.
  apply bind_inv in H as [(span & c1 & Hr & H) | [(e & _ & ?) | (_ & ?)]]; try discriminate.
  unfold bind, pure_outcome, ret in H.
  repeat match type of H with
         | context [getitem span ?k] => destruct (getitem span k); try discriminate
         end.
  injection H as <- <-.
  exact (read_slices 4 c span c1 Hwf Hr).
Qed.

Lemma utf8_slices : slices (@ValueData.data string) Cursor.utf8.
Proof.
  intros c v c' Hwf H. unfold Cursor.utf8 in H.
  apply bind_inv in H as [(cnt & c1 & Hr & H) | [(e & _ & ?) | (_ & ?)]]; try discriminate.
  destruct (leb128u_reads c _ _ Hwf Hr) as ((_ & Bd & _) & Hw & _ & _ & Hs).
  destruct (Hs cnt eq_refl) as [_ Hp].
  destruct (leb128u_slices c cnt c1 Hwf Hr) as (H0 & Hd & Hpath).
  apply bind_inv in H as [(pay & c2 & Hl & H) | [(e & _ & ?) | (_ & ?)]]; try discriminate.
  destruct (load_slices _ c1 pay c2 Hw Hl) as (_ & Hd2 & _).
  unfold bind, pure_outcome, ret in H.
  destruct (codecs_decode (data pay)); try discriminate. injection H as <- <-.
  cbn [ValueData.data rpos data path]. split; [exact H0|]. split; [|exact Hpath].
  rewrite length_app, <- firstn_firstn_skipn. f_equal; [exact Hd|].
  unfold pending in *. rewrite Bd, Hp in Hd2. rewrite Hd2 at 1.
  rewrite (Nat.add_comm (rpos c)), <- skipn_skipn.
  reflexivity.
Qed.

(** *** The decoders of types *)

Ltac tiles_step :=
  match goal with
  | |- triple _ _ (let _ := _ in _) _ => cbv zeta
  | |- triple _ _ ((fun _ => _) _) _ => cbv beta
  | |- triple _ _ (bind (bind _ _) _) _ => apply triple_assoc
  | |- triple _ _ (bind (if ?c then _ else _) _) _ => destruct c
  | |- triple _ _ (bind (match ?x with _ => _ end) _) _ => destruct x
  | |- triple _ _ (if ?c then _ else _) _ => destruct c
  | |- triple _ _ (match ?x with _ => _ end) _ => destruct x
  | |- triple _ _ (bind (ret _) _) _ => apply triple_ret_bind
  | |- triple _ _ (bind get _) _ => apply triple_get_any; intros ?
  (* nothing is written *)
  | |- triple _ (in_step _ _) (raise _) _ => apply triple_raise, in_step_tiled
  | |- triple _ (owes _ _ _) (raise _) _ => apply triple_raise, owes_tiled
  | |- triple _ (in_step _ _) (bind (raise _) _) _ => apply triple_raise_bind, in_step_tiled
  | |- triple _ (owes _ _ _) (bind (raise _) _) _ => apply triple_raise_bind, owes_tiled
  | |- triple _ (in_step _ _) (bind (pure_outcome _) _) _ =>
    apply triple_pure_bind; [apply in_step_tiled | intros ? ?]
  | |- triple _ (owes _ _ _) (bind (pure_outcome (Integer_code _)) _) _ =>
    apply triple_pure_bind; [apply owes_tiled | intros ? ?; discriminate]
  | |- triple _ (owes _ _ _) (bind (pure_outcome _) _) _ =>
    apply triple_pure_bind; [apply owes_tiled | intros ? ?]
  | |- triple _ (in_step _ _) (ret _) (fun _ => in_step _ _) =>
    apply triple_ret; intros ? ?; assumption
  (* a line without a byte range *)
  | |- triple _ (in_step _ _) (bind (dprint1 None _) _) _ =>
    apply triple_emit_bind; [apply stable_in_step | exact I |]
  | |- triple _ (owes _ _ _) (bind (dprint1 None _) _) _ =>
    apply triple_emit_bind; [apply stable_owes | exact I |]
  | |- triple _ (in_step _ _) (bind (print _) _) _ =>
    apply triple_emit_bind; [apply stable_in_step | exact I |]
  (* a read, and the line of what was read *)
  | |- triple ?F (in_step ?F ?b) (bind (on_stream Cursor.byte) _) _ =>
    apply (triple_bind F _ _ _ _ _ (triple_read F b _ _ byte_reads byte_slices)); intros ?
  | |- triple ?F (in_step ?F ?b) (bind (on_stream Cursor.long) _) _ =>
    apply (triple_bind F _ _ _ _ _ (triple_read F b _ _ long_reads long_slices)); intros ?
  | |- triple ?F (in_step ?F ?b) (bind (on_stream Cursor.utf8) _) _ =>
    apply (triple_bind F _ _ _ _ _ (triple_read F b _ _ utf8_reads utf8_slices)); intros ?
  | |- triple ?F (in_step ?F ?b) (bind (on_stream Cursor.leb128u) _) _ =>
    apply (triple_bind F _ _ _ _ _ (triple_read F b _ _ leb128u_reads leb128u_slices)); intros ?
  | |- triple ?F (in_step ?F ?b) (bind (on_stream Cursor.leb128) _) _ =>
    apply (triple_bind F _ _ _ _ _ (triple_read F b _ _ leb128_reads leb128_slices)); intros ?
  | |- triple ?F (in_step ?F ?b) (bind (on_stream (load ?n)) _) _ =>
    apply (triple_bind F _ _ _ _ _ (triple_read F b _ _ (load_reads n) (load_slices n)));
    intros ?
  | |- triple ?F (in_step ?F ?b) (bind (on_stream (read ?n)) _) _ =>
    apply (triple_bind F _ _ _ _ _ (triple_read F b _ _ (read_reads n) (read_slices n)));
    intros ?
  | |- triple ?F (owes ?F ?b ?sp) (bind (dprint1 (Some ?sp) ?msg) _) _ =>
    apply (triple_bind F _ _ _ _ _ (triple_dprint F b sp [Line msg])); intros _
  | |- triple ?F (owes ?F ?b ?sp) (bind (dprint (Some ?sp) ?msg) _) _ =>
    apply (triple_bind F _ _ _ _ _ (triple_dprint F b sp msg)); intros _
  | |- triple ?F (owes ?F ?b ?sp) (dprint1 (Some ?sp) ?msg) _ =>
    exact (triple_dprint F b sp [Line msg])
  | |- triple ?F (owes ?F ?b ?sp) (dprint (Some ?sp) ?msg) _ =>
    exact (triple_dprint F b sp msg)
  (* loops *)
  | |- triple ?F (in_step ?F ?b) (bind (for_range _ _) _) _ =>
    apply (triple_bind F _ _ (fun _ => in_step F b)); [apply triple_for_range; intros ? | intros _]
  | |- triple ?F (in_step ?F ?b) (for_range _ _) _ => apply triple_for_range; intros ?
  end.

Ltac tiles := repeat tiles_step.

Lemma triple_read_valtype (F : list Z) (b : t) :
  triple F (in_step F b) read_valtype (fun v => owes F b (ValueData.data v)).
Proof.
  unfold read_valtype. tiles. apply triple_ret. intros s H. exact H.
Qed.

Lemma triple_read_reftype (F : list Z) (b : t) :
  triple F (in_step F b) read_reftype (fun v => owes F b (ValueData.data v)).
Proof.
  unfold read_reftype. tiles. apply triple_ret. intros s H. exact H.
Qed.

Lemma triple_value_type (F : list Z) (b : t) (prefix : string) :
  triple F (in_step F b) (value_type prefix) (fun _ => in_step F b).
Proof. unfold value_type. tiles. Qed.

Lemma triple_reference_type (F : list Z) (b : t) (prefix : string) :
  triple F (in_step F b) (reference_type prefix) (fun _ => in_step F b).
Proof. unfold reference_type. tiles. Qed.

Lemma triple_mutability (F : list Z) (b : t) (prefix : string) :
  triple F (in_step F b) (mutability prefix) (fun _ => in_step F b).
Proof. unfold mutability. tiles. Qed.

Lemma triple_limits (F : list Z) (b : t) (prefix : string) :
  triple F (in_step F b) (limits prefix) (fun _ => in_step F b).
Proof. unfold limits. tiles. Qed.

Lemma triple_result_type (F : list Z) (b : t) (name prefix : string) :
  triple F (in_step F b) (result_type name prefix) (fun _ => in_step F b).
Proof. unfold result_type. tiles. apply triple_value_type. Qed.

(** ** What the spans hold *)

Lemma span_of_slices {V : Type} (m : SE t (ValueData.t V)) :
  slices (@ValueData.data V) m -> slices (fun span => span) (span_of m).
Proof.
  intros Hm c v c' Hwf H. unfold span_of in H.
  apply bind_inv in H as [(a & c1 & Hr & H) | [(e & _ & ?) | (_ & ?)]]; try discriminate.
  unfold ret in H. injection H as <- <-. exact (Hm c a c1 Hwf Hr).
Qed.

(** X7.  What a span holds.  The span returned by a successful [take],
    [require], [u32_le], LEB128 read or [utf8_name] is a new cursor at
    position 0, under the path of the cursor read from, on exactly the
    bytes the cursor has passed over, the length prefix of a name
    included.  The span of a successful [rewind_and_require] holds the
    bytes from the saved position to the read position. *)
Theorem primitive_span_bytes (p : primitive) (c c' span : t) :
  wf c ->
  (forall saved_pos, p = rewind_and_require saved_pos -> (saved_pos <= rpos c)%nat) ->
  run p c = (Return span, c') ->
  path span = path c /\ rpos span = 0%nat /\
  data span = match p with
              | rewind_and_require saved_pos =>
                firstn (rpos c - saved_pos) (skipn saved_pos (data c))
              | _ => firstn (rpos c' - rpos c) (skipn (rpos c) (data c))
              end.
Proof.
  intros Hwf Hsaved H.
  assert (G : forall m : SE t t,
             reads (fun span => span) m -> slices (fun span => span) m ->
             m c = (Return span, c') ->
             path span = path c /\ rpos span = 0%nat /\
             data span = firstn (rpos c' - rpos c) (skipn (rpos c) (data c))).
  { intros m Hr Hs Hm.
    destruct (Hr _ _ _ Hwf Hm) as (_ & _ & _ & _ & Hlaw).
    destruct (Hlaw span eq_refl) as [_ Hp].
    destruct (Hs _ _ _ Hwf Hm) as (H0 & Hd & Hpath).
    split; [exact Hpath|]. split; [exact H0|].
    replace (rpos c' - rpos c)%nat with (length (data span)) by lia. exact Hd. }
  destruct p as [n|n|saved| | | | |]; cbn [run] in H.
  - exact (G _ (read_reads n) (read_slices n) H).
  - exact (G _ (load_reads n) (load_slices n) H).
  - rewrite (reload_restores saved c Hwf (Hsaved saved eq_refl)) in H.
    injection H as <- _. cbn [path rpos data]. auto.
  - exact (G _ (span_of_reads _ long_reads) (span_of_slices _ long_slices) H).
  - exact (G _ leb128_reads leb128_slices H).
  - exact (G _ (span_of_reads _ leb128u_reads) (span_of_slices _ leb128u_slices) H).
  - exact (G _ (span_of_reads _ leb128s_reads) (span_of_slices _ leb128s_slices) H).
  - exact (G _ (span_of_reads _ utf8_reads) (span_of_slices _ utf8_slices) H).
Qed.

Lemma primitive_span_bytes_witness :
  let c := mk "f" [0x01; 0x03; 0x65; 0x6E; 0x76; 0x00] 16 1 in
  wf c /\
  run utf8_name c = (Return (mk "f" [0x03; 0x65; 0x6E; 0x76] 17 0), set_rpos c 5) /\
  data (mk "f" [0x03; 0x65; 0x6E; 0x76] 17 0) = firstn (5 - 1) (skipn 1 (data c)).
Proof.
  cbv zeta.
  assert (Hwf : wf (mk "f" [0x01; 0x03; 0x65; 0x6E; 0x76; 0x00] 16 1))
    by (unfold wf; cbn; lia).
  split; [exact Hwf|]. split; [reflexivity|].
  exact (proj2 (proj2 (primitive_span_bytes utf8_name _ _ _ Hwf
                         ltac:(intros saved_pos E; discriminate E) eq_refl))).
Defined.

(** *** Instructions and expressions *)

Lemma triple_operand_decode (F : list Z) (b : t) (asm0 indent : string) (op : operand) :
  triple F (in_step F b) (operand_decode asm0 indent op) (fun _ => in_step F b).
Proof.
  unfold operand_decode. destruct op as [op|op]; tiles.
  - apply (triple_bind F _ _ _ _ _ (triple_read_valtype F b)). intros cvt. tiles.
  - apply (triple_bind F _ _ _ _ _ (triple_read_reftype F b)). intros crt. tiles.
Qed.

Lemma triple_instruction (F : list Z) (b : t) (indent_base indent_level indent_step : Z) :
  triple F (in_step F b) (instruction indent_base indent_level indent_step)
         (fun _ => in_step F b).
Proof.
  unfold instruction. apply triple_get_bind. intros s0 H0. cbv zeta.
  apply (triple_weaken F _ (behind F b (rpos (stream s0)))); [intros s ->; exact H0|].
  apply (triple_bind F _ _ _ _ _ (triple_read_behind F b _ _ _ byte_reads)). intros scode1.
  apply triple_pure_bind; [apply behind_tiled | intros entry _].
  assert (K : forall entry' : ins,
             triple F (behind F b (rpos (stream s0)))
                    (data <- on_stream (reload (rpos (stream s0))) ;;
                     if ins_is_empty entry'
                     then raise (NotImplementedError
                                   ("unknown instruction: " ++ hex_bytes (ReadData.data data)))
                     else
                       match entry' with
                       | Op ops asm =>
                         asm0 <- pure_outcome (py_getitem list_index_msg asm 0) ;;
                         let indent_level :=
                           if String.eqb asm0 "else" || String.eqb asm0 "end"
                           then Z.max 0 (indent_level - 1) else indent_level in
                         let indent_depth := (indent_base + indent_level) * indent_step in
                         let indent := spaces indent_depth in
                         dprint1 (Some data) (indent ++ asm0) ;;
                         let indent := indent ++ "  --> " in
                         for_each ops (operand_decode asm0 indent) ;;
                         ret asm0
                       | _ => raise (TypeError "opcode plane used as an entry")
                       end)
                    (fun _ => in_step F b)).
  { intros entry'.
    apply (triple_bind F _ _ _ _ _ (triple_reload F b _)). intros data.
    destruct (ins_is_empty entry'); [tiles|].
    destruct entry' as [|ops asm|plane]; tiles.
    apply (triple_bind F _ _ (fun _ => in_step F b)).
    - apply triple_for_each. intros op. apply triple_operand_decode.
    - intros _. tiles. }
  destruct ((int scode1 =? 0xFC) || (int scode1 =? 0xFD)).
  - apply triple_assoc.
    apply (triple_bind F _ _ _ _ _ (triple_read_behind F b _ _ _ leb128u_reads)). intros scode2.
    apply triple_pure_bind; [apply behind_tiled | intros entry2 _]. apply K.
  - apply triple_ret_bind. apply K.
Qed.

Lemma triple_expression_fuel (F : list Z) (b : t) (fuel : nat) :
  forall indent_base indent_level indent_step,
    triple F (in_step F b) (expression_fuel fuel indent_base indent_level indent_step)
           (fun _ => in_step F b).
Proof.
  induction fuel as [|fuel IH]; intros indent_base indent_level indent_step.
  - intros s r s' H E. cbn in E. injection E as <- <-. exact (in_step_tiled _ _ _ H).
  - cbn [expression_fuel]. apply triple_get_any. intros s0.
    destruct (0 <? remain (stream s0))%nat; [|tiles].
    apply (triple_bind F _ _ _ _ _ (triple_instruction F b _ _ _)). intros asm.
    destruct (String.eqb asm "end"); [tiles|].
    apply (triple_bind F _ _ (fun _ => in_step F b)); [|intros _; apply IH].
    destruct (existsb _ _); [apply IH | tiles].
Qed.

Lemma triple_expression (F : list Z) (b : t) (indent_base indent_level indent_step : Z) :
  triple F (in_step F b) (expression indent_base indent_level indent_step)
         (fun _ => in_step F b).
Proof. unfold expression. apply triple_get_any. intros s0. apply triple_expression_fuel. Qed.

(** *** Sections *)

(** What [section_remain] and [custom_section] end with: the rest of
    the buffer is loaded, which cannot fail. *)
Lemma load_rest (c : t) :
  wf c ->
  load (remain c) c =
  (Return (mk (path c) (pending c) (fpos c + rpos c) 0), set_rpos c (length (data c))).
Proof.
  intros Hwf. pose proof (pending_length c) as L.
  destruct (load_enough (remain c) c (Nat.le_refl _)) as [E _].
  rewrite E, firstn_all2 by lia. unfold wf, remain in *. do 2 f_equal. lia.
Qed.

Lemma triple_load_rest (F : list Z) (b : t) :
  triple F (in_step F b)
         (s <- get ;; on_stream (load (remain (stream s))))
         (fun span s => owes F b span s /\ rpos (stream s) = length (data b)).
Proof.
  apply triple_get_bind. intros s0 H0 s r s' -> H.
  pose proof (triple_read F b _ _ (load_reads (remain (stream s0)))
                          (load_slices (remain (stream s0))) s0 r s' H0 H) as T.
  destruct H0 as ((_ & Bd & _) & Hw & _).
  unfold on_stream in H. rewrite (load_rest _ Hw) in H. injection H as <- <-.
  split; [exact T|]. cbn [stream rpos set_rpos]. rewrite Bd. reflexivity.
Qed.

Lemma owes_nothing (F : list Z) (b sp : t) (s : state) :
  owes F b sp s -> length (data sp) = 0%nat -> in_step F b s.
Proof.
  intros (Hb & Hw & Hs & Ht & _ & _ & He) H0. unfold in_step, behind.
  rewrite H0, Nat.add_0_r in He. rewrite <- He. auto.
Qed.

Lemma triple_section_remain (F : list Z) (b : t) :
  triple F (in_step F b) section_remain (fun _ => finished F b).
Proof.
  unfold section_remain.
  assert (A : forall w : positive,
             triple F (in_step F b)
                    (remain <- (s <- get ;; on_stream (load (ReadData.remain (stream s)))) ;;
                     if (0 <? len remain)%nat then
                       dprint1 None ("unknown data: size = " ++ str_int (Z.of_nat (len remain))) ;;
                       dprint (Some remain) (data_strings w (data remain) EmptyString)
                     else ret tt)
                    (fun _ => finished F b)).
  { intros w.
    apply (triple_bind F _ _ _ _ _ (triple_load_rest F b)). intros span.
    destruct (Nat.ltb_spec 0 (len span)) as [Hlen|Hlen].
    - intros s r s' [Ho He] H.
      unfold bind, dprint1, dprint, emit in H. injection H as <- <-.
      pose proof (stable_owes F b span _ (Dprint None [Line
         ("unknown data: size = " ++ str_int (Z.of_nat (len span)))]) I Ho) as Ho'.
      pose proof (triple_dprint F b span (data_strings w (data span) EmptyString)
                                _ _ _ Ho' eq_refl) as T.
      split; [exact T | exact He].
    - apply triple_ret. intros s [Ho He].
      split; [|exact He]. apply (owes_nothing F b span s Ho). unfold len in Hlen. lia. }
  intros s r s' HP H. apply (A (BYTESW s) s r s' HP). rewrite <- H.
  unfold bind, get. reflexivity.
Qed.

Lemma triple_custom_section (F : list Z) (b : t) :
  triple F (in_step F b) custom_section (fun _ => finished F b).
Proof.
  unfold custom_section.
  apply (triple_bind F _ _ _ _ _ (triple_read F b _ _ utf8_reads utf8_slices)). intros name.
  apply (triple_bind F _ _ _ _ _ (triple_dprint F b _ [Line _])). intros _.
  assert (A : forall w : positive,
             triple F (in_step F b)
                    (byte <- (s <- get ;; on_stream (load (ReadData.remain (stream s)))) ;;
                     dprint (Some byte) (data_strings w (data byte) EmptyString))
                    (fun _ => finished F b)).
  { intros w.
    apply (triple_bind F _ _ _ _ _ (triple_load_rest F b)). intros span.
    intros s r s' [Ho He] H.
    pose proof (triple_dprint F b span _ _ _ _ Ho H) as T.
    injection H as <- <-. split; [exact T | exact He]. }
  intros s r s' HP H. apply (A (BYTESW s) s r s' HP). rewrite <- H.
  unfold bind, get. reflexivity.
Qed.

Ltac tiles_section :=
  repeat first
         [ tiles_step
         | match goal with
           | |- triple ?F (in_step ?F ?b) (bind (value_type _) _) _ =>
             apply (triple_bind F _ _ _ _ _ (triple_value_type F b _)); intros _
           | |- triple ?F (in_step ?F ?b) (bind (reference_type _) _) _ =>
             apply (triple_bind F _ _ _ _ _ (triple_reference_type F b _)); intros _
           | |- triple ?F (in_step ?F ?b) (bind (mutability _) _) _ =>
             apply (triple_bind F _ _ _ _ _ (triple_mutability F b _)); intros _
           | |- triple ?F (in_step ?F ?b) (bind (limits _) _) _ =>
             apply (triple_bind F _ _ _ _ _ (triple_limits F b _)); intros _
           | |- triple ?F (in_step ?F ?b) (bind (result_type _ _) _) _ =>
             apply (triple_bind F _ _ _ _ _ (triple_result_type F b _ _)); intros _
           | |- triple ?F (in_step ?F ?b) (bind (expression _ _ _) _) _ =>
             apply (triple_bind F _ _ _ _ _ (triple_expression F b _ _ _)); intros _
           | |- triple ?F (in_step ?F ?b) (bind read_valtype _) _ =>
             apply (triple_bind F _ _ _ _ _ (triple_read_valtype F b)); intros ?
           | |- triple ?F (owes ?F ?b ?sub) (bind (with_stream ?sub _) _) _ =>
             apply (triple_bind F _ _ (fun _ => in_step F b));
             [apply triple_with_stream | intros _]
           | |- triple ?F (owes ?F ?b ?sub) (with_stream ?sub _) _ =>
             apply triple_with_stream
           | |- triple ?F (in_step ?F ?b) (value_type _) _ => apply triple_value_type
           | |- triple ?F (in_step ?F ?b) (reference_type _) _ => apply triple_reference_type
           | |- triple ?F (in_step ?F ?b) (mutability _) _ => apply triple_mutability
           | |- triple ?F (in_step ?F ?b) (limits _) _ => apply triple_limits
           | |- triple ?F (in_step ?F ?b) (result_type _ _) _ => apply triple_result_type
           | |- triple ?F (in_step ?F ?b) (expression _ _ _) _ => apply triple_expression
           | |- triple ?F (in_step ?F ?b) section_remain _ => apply triple_section_remain
           end ].

Lemma triple_SECTION_FUNC (F : list Z) (b : t) (handler : M unit) :
  In handler SECTION_FUNC -> triple F (in_step F b) handler (fun _ => finished F b).
Proof.
  unfold SECTION_FUNC. cbn [In]. intros H.
  repeat (destruct H as [<- | H]); [..| contradiction].
  - apply triple_custom_section.
  - unfold type_section. tiles_section.
  - unfold import_section. tiles_section.
  - unfold function_section. tiles_section.
  - unfold table_section. tiles_section.
  - unfold memory_section. tiles_section.
  - unfold global_section. tiles_section.
  - unfold export_section. tiles_section.
  - unfold start_section. tiles_section.
  - unfold element_section. tiles_section.
  - unfold code_section. tiles_section.
  - unfold data_section. tiles_section.
  - unfold datacount_section. tiles_section.
Qed.

(** *** The driver *)

Lemma triple_sections_fuel (F : list Z) (b : t) (fuel : nat) :
  triple F (in_step F b) (sections_fuel fuel) (fun _ => finished F b).
Proof.
  induction fuel as [|fuel IH].
  - intros s r s' H E. cbn in E. injection E as <- <-. exact (in_step_tiled _ _ _ H).
  - cbn [sections_fuel]. apply triple_get_bind. intros s0 H0.
    destruct (Nat.ltb_spec 0 (remain (stream s0))) as [Hr|Hr].
    + apply (triple_weaken F _ (in_step F b)); [intros s ->; exact H0|].
      tiles.
      apply (triple_bind F _ _ (fun _ => in_step F b)); [|intros _; exact IH].
      apply triple_with_stream.
      match goal with
      | E : py_getitem _ SECTION_FUNC _ = Return _ |- _ =>
        exact (triple_SECTION_FUNC F _ _ (getitem_In _ _ _ _ E))
      end.
    + apply triple_ret. intros s ->. split; [exact H0|].
      destruct H0 as ((_ & Bd & _) & Hw & _). unfold wf, remain in *. rewrite <- Bd. lia.
Qed.

Lemma tile_from_none (F : list Z) (evs : list event) :
  fold_left (tile_step F) evs None = None.
Proof. induction evs as [|e evs IH]; [reflexivity | exact IH]. Qed.

(** An output in order up to [q] shows the first [q] bytes of the file. *)
Lemma tile_from_printed (F : list Z) (evs : list event) :
  forall p q, (p <= length F)%nat ->
              fold_left (tile_step F) evs (Some p) = Some q ->
              (q <= length F)%nat /\
              (firstn p F ++ printed_bytes evs)%list = firstn q F.
Proof.
  induction evs as [|e evs IH]; intros p q Hp H.
  - injection H as <-. split; [exact Hp | apply app_nil_r].
  - cbn [fold_left] in H. destruct e as [text|[sp|] msg]; cbn [printed_bytes tile_step] in *;
      try exact (IH p q Hp H).
    destruct (Nat.eqb_spec (fpos sp) p) as [Ef|]; cbn [andb] in H;
      [|rewrite tile_from_none in H; discriminate].
    destruct (bytes_eqb _ _) eqn:Ed; [|rewrite tile_from_none in H; discriminate].
    apply bytes_eqb_eq in Ed.
    assert (L : (length (data sp) <= length F - p)%nat).
    { rewrite Ed at 1. rewrite length_firstn, length_skipn. lia. }
    assert (Hp' : (p + length (data sp) <= length F)%nat) by lia.
    destruct (IH _ _ Hp' H) as [Hq E].
    split; [exact Hq|]. rewrite <- E, <- firstn_firstn_skipn, <- Ed, app_assoc. reflexivity.
Qed.

Lemma tile_end_printed (F : list Z) (evs : list event) (q : nat) :
  tile_end F evs = Some q -> (q <= length F)%nat /\ printed_bytes evs = firstn q F.
Proof.
  intros H. exact (tile_from_printed F evs 0 q (Nat.le_0_l _) H).
Qed.

(** The output of any run is in order, and reaches the end of the file
    when the run returns. *)
Lemma main_tile_end (path : string) (width : positive) (data : list Z) :
  exists shown : nat,
    tile_end data (out (snd (main path width data))) = Some shown /\
    (fst (main path width data) = Return tt -> shown = length data).
Proof.
  set (b := mk path data 0 0).
  assert (T : triple data (in_step data b)
                (print LINE_SEP ;;
                 print ("Path: " ++ path) ;;
                 print LINE_SEP ;;
                 magic <- on_stream (ReadData.read 4) ;;
                 dprint1 (Some magic) ("magic = " ++ repr_bytes (ReadData.data magic)) ;;
                 if negb (bytes_eqb (ReadData.data magic) FILE_MAGIC)
                 then raise (ValueError EmptyString)
                 else
                   version <- on_stream Cursor.long ;;
                   dprint1 (Some (ValueData.data version))
                           ("version = " ++ str_int (int version)) ;;
                   sections_fuel (S (length data)))
                (fun _ => finished data b)).
  { tiles. apply triple_sections_fuel. }
  assert (Pre : in_step data b (mkState b [] width)).
  { unfold in_step, behind, b. cbn [stream out rpos fpos ReadData.data].
    split; [apply same_buffer_refl|]. split; [unfold wf; cbn; lia|].
    split; [unfold shows; cbn [ReadData.data fpos skipn]; symmetry; apply firstn_all|].
    split; [reflexivity | lia]. }
  unfold main. fold b.
  destruct ((print LINE_SEP ;; _) (mkState b [] width)) as [r s'] eqn:H.
  cbn [fst snd]. specialize (T _ _ _ Pre H).
  destruct r as [[]|e|].
  - destruct T as [(_ & _ & _ & Ht & _) He]. eexists. split; [exact Ht|].
    intros _. rewrite He. reflexivity.
  - destruct T as [p Hp]. exists p. split; [exact Hp | discriminate].
  - destruct T as [p Hp]. exists p. split; [exact Hp | discriminate].
Qed.

(** X8.  The left column of any dump follows the file.  Whatever the
    file and however the run ends, the byte ranges written so far are, in
    the order of the output, consecutive ranges of the file starting at
    offset 0: each starts at the offset where the one before it ended and
    holds the bytes of the file at that offset, so that no byte is shown
    twice, out of order or under a wrong offset.  When the run returns,
    the ranges cover the whole file: every byte of the input is shown
    exactly once. *)
Theorem main_shows_file_in_order (path : string) (width : positive) (data : list Z) :
  exists shown : nat,
    tile_end data (out (snd (main path width data))) = Some shown /\
    (shown <= length data)%nat /\
    printed_bytes (out (snd (main path width data))) = firstn shown data /\
    (fst (main path width data) = Return tt ->
     shown = length data /\ printed_bytes (out (snd (main path width data))) = data).
Proof.
  destruct (main_tile_end path width data) as (shown & Ht & Hr). exists shown.
  destruct (tile_end_printed data _ _ Ht) as [Hle Hp].
  split; [exact Ht|]. split; [exact Hle|]. split; [exact Hp|].
  intros R. specialize (Hr R). split; [exact Hr|].
  rewrite Hp, Hr. apply firstn_all.
Qed.

(** ** Instructions at a known opcode *)

(** The opcode byte of an instruction without a prefix: the cursor
    stands after the byte, which [reload] has collected in a span. *)
Lemma plain_opcode_at (c : t) (b : Z) (rest : list Z) (entry : ins) :
  pending c = b :: rest ->
  (b =? 0xFC) || (b =? 0xFD) = false ->
  py_getitem list_index_msg DISASM b = Return entry ->
  forall (A : Type) (k : ins -> t -> M A) (log : list event) (width : positive),
  (s0 <- get ;;
   scode1 <- on_stream Cursor.byte ;;
   entry <- pure_outcome (py_getitem list_index_msg DISASM (int scode1)) ;;
   entry <- (if (int scode1 =? 0xFC) || (int scode1 =? 0xFD) then
               scode2 <- on_stream Cursor.leb128u ;;
               pure_outcome (ins_getitem entry (int scode2))
             else ret entry) ;;
   data <- on_stream (reload (rpos (stream s0))) ;;
   k entry data) (mkState c log width) =
  k entry (mk (path c) [b] (fpos c + rpos c) 0)
    (mkState (set_rpos c (rpos c + 1)) log width).
Proof.
  intros H Hp Hentry A k log width.
  rewrite (bind_return get _ _ _ _ eq_refl). cbn [stream].
  rewrite (bind_return _ _ _ _ _ (on_stream_eq _ _ _ _ log width (byte_at c b _ H))).
  cbn [int ValueData.value].
  rewrite (bind_return (pure_outcome _) _ _ (mkState (set_rpos c (rpos c + 1)) log width)
                       entry) by (unfold pure_outcome; rewrite Hentry; reflexivity).
  rewrite Hp. rewrite (bind_return (ret entry) _ _ _ _ eq_refl).
  assert (Hwf : wf (set_rpos c (rpos c + 1))).
  { unfold wf. cbn [set_rpos rpos data]. pose proof (pending_wf _ _ _ H). lia. }
  rewrite (bind_return _ _ _ _ _
             (on_stream_eq _ _ _ _ log width
                (reload_restores (rpos c) _ Hwf ltac:(cbn [set_rpos rpos]; lia)))).
  cbn [set_rpos rpos path data fpos].
  replace (rpos c + 1 - rpos c)%nat with 1%nat by lia.
  unfold pending in H. rewrite H. reflexivity.
Qed.

Lemma prefix_is_plane (b : Z) (entry : ins) :
  py_getitem list_index_msg DISASM b = Return entry ->
  (b =? 0xFC) || (b =? 0xFD) = true ->
  entry = Plane DISASM_FC \/ entry = Plane DISASM_FD.
Proof.
  intros H Hb. apply orb_true_iff in Hb as [E|E]; apply Z.eqb_eq in E; subst b;
    vm_compute in H; injection H as <-; [left | right]; reflexivity.
Qed.

(** X9.  An opcode byte whose slot in the table is empty ends the dump:
    [instruction] raises [NotImplementedError] with the byte in
    hexadecimal, has consumed that byte and has written nothing for it. *)
Theorem instruction_unassigned_opcode (c : t) (b : Z) (rest : list Z)
        (log : list event) (width : positive) (indent_base indent_level indent_step : Z) :
  pending c = b :: rest ->
  py_getitem list_index_msg DISASM b = Return No ->
  instruction indent_base indent_level indent_step (mkState c log width) =
  (Raise (NotImplementedError ("unknown instruction: 0x" ++ hex02 b)),
   mkState (set_rpos c (rpos c + 1)) log width).
Proof.
  intros H Hentry.
  assert (Hp : (b =? 0xFC) || (b =? 0xFD) = false).
  { destruct ((b =? 0xFC) || (b =? 0xFD)) eqn:E; [|reflexivity].
    destruct (prefix_is_plane b No Hentry E); discriminate. }
  unfold instruction. rewrite (plain_opcode_at c b rest No H Hp Hentry). reflexivity.
Qed.

Lemma instruction_unassigned_opcode_witness :
  let c := mk "f" [0x41; 0x00; 0x27; 0x0B] 10 2 in
  instruction 1 0 2 (mkState c [] 8) =
  (Raise (NotImplementedError "unknown instruction: 0x27"), mkState (set_rpos c 3) [] 8).
Proof.
  cbv zeta.
  exact (instruction_unassigned_opcode (mk "f" [0x41; 0x00; 0x27; 0x0B] 10 2) 0x27 [0x0B]
                                       [] 8 1 0 2 eq_refl eq_refl).
Defined.

Lemma leb128u_found (c : t) (pre : list Z) (b : Z) (rest : list Z) :
  pending c = (pre ++ b :: rest)%list -> Forall continued pre -> Z.land b 128 = 0 ->
  Cursor.leb128u c =
  (Return (ValueData.mk (decode_leb128u (pre ++ [b])%list)
                        (mk (path c) (pre ++ [b])%list (fpos c + rpos c) 0)),
   set_rpos c (rpos c + (length pre + 1))).
Proof.
  intros H Hpre Hb. unfold Cursor.leb128u.
  rewrite (bind_return _ _ _ _ _ (leb128_found c pre b rest H Hpre Hb)). reflexivity.
Qed.

(** X10.  Under a prefix byte ([0xFC] or [0xFD]) the second opcode is an
    unsigned LEB128 of any length, used as an index into a table of 256
    slots.  An index of 256 or more is not reported as an unknown
    instruction: the lookup raises [IndexError], nothing is written, and
    the cursor stands after the LEB128.  The message is that of the list,
    ['list index out of range'], for an index below [2^63]; from there on
    CPython refuses the index itself, with an [IndexError] of another
    text, which the statement leaves open. *)
Theorem instruction_prefixed_out_of_table (c : t) (p : Z) (pre : list Z) (b : Z)
        (rest : list Z) (log : list event) (width : positive)
        (indent_base indent_level indent_step : Z) :
  pending c = (p :: pre ++ b :: rest)%list ->
  p = 0xFC \/ p = 0xFD ->
  Forall continued pre -> Z.land b 128 = 0 ->
  256 <= decode_leb128u (pre ++ [b])%list ->
  exists msg : string,
    instruction indent_base indent_level indent_step (mkState c log width) =
    (Raise (IndexError msg),
     mkState (set_rpos c (rpos c + 1 + (length pre + 1))) log width) /\
    (decode_leb128u (pre ++ [b])%list < 2 ^ 63 -> msg = list_index_msg).
Proof.
  intros H Hp Hpre Hb Hbig. exists list_index_msg. split; [|reflexivity].
  unfold instruction.
  rewrite (bind_return get _ _ _ _ eq_refl). cbn [stream].
  rewrite (bind_return _ _ _ _ _ (on_stream_eq _ _ _ _ log width (byte_at c p _ H))).
  cbn [int ValueData.value].
  pose proof (pending_next c p _ H) as H1.
  pose proof (on_stream_eq _ _ _ _ log width (leb128u_found _ pre b rest H1 Hpre Hb)) as L.
  cbn [set_rpos rpos path data fpos] in L.
  assert (G : forall plane : list ins,
             length plane = 256%nat ->
             py_getitem list_index_msg plane (decode_leb128u (pre ++ [b])%list)
             = Raise (IndexError list_index_msg)).
  { intros plane Hlen. unfold py_getitem. rewrite Hlen.
    destruct (Z.ltb_spec (decode_leb128u (pre ++ [b])%list) 0) as [|_]; [lia|].
    destruct (Z.ltb_spec (decode_leb128u (pre ++ [b])%list) 0) as [|_]; [lia|].
    destruct (nth_error plane _) eqn:E; [|reflexivity].
    assert (Hlt : (Z.to_nat (decode_leb128u (pre ++ [b])%list) < length plane)%nat)
      by (apply nth_error_Some; rewrite E; discriminate).
    lia. }
  destruct Hp as [-> | ->].
  - rewrite (bind_return (pure_outcome _) _ _ (mkState (set_rpos c (rpos c + 1)) log width)
                         (Plane DISASM_FC) eq_refl).
    change ((252 =? 252) || (252 =? 253)) with true. cbv iota.
    rewrite (bind_raise (_ <- on_stream Cursor.leb128u ;; _) _ _
               (mkState (set_rpos c (rpos c + 1 + (length pre + 1))) log width)
               (IndexError list_index_msg)); [reflexivity|].
    rewrite (bind_return _ _ _ _ _ L). unfold pure_outcome. cbn [int ValueData.value ins_getitem].
    rewrite (G DISASM_FC eq_refl). reflexivity.
  - rewrite (bind_return (pure_outcome _) _ _ (mkState (set_rpos c (rpos c + 1)) log width)
                         (Plane DISASM_FD) eq_refl).
    change ((253 =? 252) || (253 =? 253)) with true. cbv iota.
    rewrite (bind_raise (_ <- on_stream Cursor.leb128u ;; _) _ _
               (mkState (set_rpos c (rpos c + 1 + (length pre + 1))) log width)
               (IndexError list_index_msg)); [reflexivity|].
    rewrite (bind_return _ _ _ _ _ L). unfold pure_outcome. cbn [int ValueData.value ins_getitem].
    rewrite (G DISASM_FD eq_refl). reflexivity.
Qed.

Lemma instruction_prefixed_out_of_table_witness :
  let c := mk "f" [0xFC; 0x80; 0x02; 0x0B] 0 0 in
  exists msg : string,
    instruction 1 0 2 (mkState c [] 8) =
    (Raise (IndexError msg), mkState (set_rpos c 3) [] 8) /\
    (decode_leb128u [0x80; 0x02] < 2 ^ 63 -> msg = "list index out of range").
Proof.
  cbv zeta.
  assert (Hpre : Forall continued [0x80])
    by (repeat constructor; unfold continued; cbn; discriminate).
  exact (instruction_prefixed_out_of_table (mk "f" [0xFC; 0x80; 0x02; 0x0B] 0 0) 0xFC
           [0x80] 0x02 [0x0B] [] 8 1 0 2 eq_refl (or_introl eq_refl) Hpre eq_refl
           ltac:(vm_compute; discriminate)).
Defined.
From Stdlib Require NArith DecimalFacts DecimalPos.

(** ** The width of decimal numbers *)








Lemma not_prefix (b : Z) (ops : list operand) (asm : list string) :
  py_getitem list_index_msg DISASM b = Return (Op ops asm) ->
  (b =? 0xFC) || (b =? 0xFD) = false.
Proof.
  intros H. destruct ((b =? 0xFC) || (b =? 0xFD)) eqn:E; [|reflexivity].
  destruct (prefix_is_plane b _ H E); discriminate.
Qed.




Lemma index_operand_at (c : t) (b : Z) (pre : list Z) (last : Z) (rest : list Z)
      (kind asm0 : string) (more : list string) (log : list event) (width : positive)
      (indent_base indent_level indent_step : Z) :
  pending c = (b :: pre ++ last :: rest)%list ->
  py_getitem list_index_msg DISASM b = Return (Op [OStr kind] (asm0 :: more)) ->
  existsb (String.eqb kind) index_operands = true ->
  Forall continued pre -> Z.land last 128 = 0 ->
  let level := if String.eqb asm0 "else" || String.eqb asm0 "end"
               then Z.max 0 (indent_level - 1) else indent_level in
  let indent := spaces ((indent_base + level) * indent_step) in
  instruction indent_base indent_level indent_step (mkState c log width) =
  (Return asm0,
   mkState (set_rpos c (rpos c + 1 + (length pre + 1)))
           ((log ++ [Dprint (Some (mk (path c) [b] (fpos c + rpos c) 0))
                            [Line (indent ++ asm0)]])
                 ++ [Dprint (Some (mk (path c) (pre ++ [last])%list (fpos c + (rpos c + 1)) 0))
                            [Line ((indent ++ "  --> ")
                                     ++ str_int (decode_leb128u (pre ++ [last])%list))]])
           width).
Proof.
  intros H Hentry Hkind Hpre Hlast level indent.
  unfold instruction.
  rewrite (plain_opcode_at c b _ _ H (not_prefix _ _ _ Hentry) Hentry).
  cbv beta iota delta [ins_is_empty].
  change (py_getitem list_index_msg (asm0 :: more) 0) with (Return asm0).
  rewrite (bind_return (pure_outcome (Return asm0)) _ _ _ _ eq_refl).
  cbv zeta. fold level. fold indent.
  rewrite (bind_return (dprint1 _ _) _ _ _ tt eq_refl).
  cbn [for_each operand_decode]. rewrite Hkind.
  pose proof (pending_next c b _ H) as H1.
  pose proof (leb128u_found _ pre last rest H1 Hpre Hlast) as L.
  cbn [set_rpos rpos path data fpos] in L.
  set (final := mkState (set_rpos c (rpos c + 1 + (length pre + 1)))
           ((log ++ [Dprint (Some (mk (path c) [b] (fpos c + rpos c) 0))
                            [Line (indent ++ asm0)]])
                 ++ [Dprint (Some (mk (path c) (pre ++ [last])%list (fpos c + (rpos c + 1)) 0))
                            [Line ((indent ++ "  --> ")
                                     ++ str_int (decode_leb128u (pre ++ [last])%list))]])
           width).
  rewrite (bind_return (_ ;; ret tt) _ _ final tt); [reflexivity|].
  rewrite (bind_return (_ <- on_stream Cursor.leb128u ;; _) _ _ final tt); [reflexivity|].
  rewrite (bind_return _ _ _ _ _ (on_stream_eq _ _ _ _ _ width L)).
  reflexivity.
Qed.



Lemma operand_decode_bt (asm0 indent : string) :
  operand_decode asm0 indent (OStr "bt") =
  (leb128 <- on_stream Cursor.leb128 ;;
   cbt <- pure_outcome (ReadData.getitem leb128 0) ;;
   sbt <- (if negb (Z.land cbt 0x40 =? 0)
           then ret (if cbt =? 0x40 then "(empty)" else get_valtype cbt)
           else v <- pure_outcome (decode_leb128s (ReadData.data leb128)) ;;
                ret (str_int v)) ;;
   dprint1 (Some leb128) (indent ++ sbt)).
Proof. reflexivity. Qed.

Lemma continued_not_valtype (b : Z) :
  continued b -> b <> 0x40 /\ get_valtype b = "(valtype:0x" ++ hex02 b ++ ")".
Proof.
  unfold continued. intros H.
  assert (N : forall k, Z.land k 128 = 0 -> (k =? b) = false).
  { intros k Hk. apply Z.eqb_neq. intros ->. contradiction. }
  split; [intros ->; apply H; reflexivity|].
  unfold get_valtype, VALTYPE, dict_or, REFTYPE, VECTYPE, NUMTYPE. cbn [app dict_get].
  rewrite !N by reflexivity. reflexivity.
Qed.

(** X13.  The block type of [block], [loop] and [if] is classified by
    its first byte alone.  When the LEB128 has more than one byte and bit 6
    of its first byte is set (a type index such as 64, encoded [C0 00]),
    the line shows that byte as an unknown value type and not the index;
    the bytes are consumed as one LEB128 all the same. *)
Theorem block_type_by_first_byte (c : t) (b first : Z) (pre : list Z) (last : Z)
        (rest : list Z) (asm0 : string) (more : list string) (log : list event)
        (width : positive) (indent_base indent_level indent_step : Z) :
  pending c = (b :: first :: pre ++ last :: rest)%list ->
  py_getitem list_index_msg DISASM b = Return (Op [OStr "bt"] (asm0 :: more)) ->
  continued first -> Z.land first 0x40 <> 0 ->
  Forall continued pre -> Z.land last 128 = 0 ->
  let level := if String.eqb asm0 "else" || String.eqb asm0 "end"
               then Z.max 0 (indent_level - 1) else indent_level in
  let indent := spaces ((indent_base + level) * indent_step) in
  instruction indent_base indent_level indent_step (mkState c log width) =
  (Return asm0,
   mkState (set_rpos c (rpos c + 1 + (length (first :: pre) + 1)))
           ((log ++ [Dprint (Some (mk (path c) [b] (fpos c + rpos c) 0))
                            [Line (indent ++ asm0)]])
                 ++ [Dprint (Some (mk (path c) (first :: pre ++ [last])%list
                                      (fpos c + (rpos c + 1)) 0))
                            [Line ((indent ++ "  --> ")
                                     ++ "(valtype:0x" ++ hex02 first ++ ")")]])
           width).
Proof.
  intros H Hentry Hfirst H6 Hpre Hlast level indent.
  unfold instruction.
  rewrite (plain_opcode_at c b _ _ H (not_prefix _ _ _ Hentry) Hentry).
  cbv beta iota delta [ins_is_empty].
  change (py_getitem list_index_msg (asm0 :: more) 0) with (Return asm0).
  rewrite (bind_return (pure_outcome (Return asm0)) _ _ _ _ eq_refl).
  cbv zeta. fold level. fold indent.
  rewrite (bind_return (dprint1 _ _) _ _ _ tt eq_refl).
  cbn [for_each]. rewrite operand_decode_bt.
  pose proof (pending_next c b _ H) as H1.
  pose proof (leb128_found _ (first :: pre) last rest H1 (Forall_cons _ Hfirst Hpre) Hlast) as L.
  cbn [set_rpos rpos path data fpos] in L.
  destruct (continued_not_valtype first Hfirst) as [N40 V].
  set (final := mkState (set_rpos c (rpos c + 1 + (length (first :: pre) + 1)))
           ((log ++ [Dprint (Some (mk (path c) [b] (fpos c + rpos c) 0))
                            [Line (indent ++ asm0)]])
                 ++ [Dprint (Some (mk (path c) (first :: pre ++ [last])%list
                                      (fpos c + (rpos c + 1)) 0))
                            [Line ((indent ++ "  --> ")
                                     ++ "(valtype:0x" ++ hex02 first ++ ")")]])
           width).
  rewrite (bind_return (_ ;; ret tt) _ _ final tt); [reflexivity|].
  rewrite (bind_return (_ <- on_stream Cursor.leb128 ;; _) _ _ final tt); [reflexivity|].
  rewrite (bind_return _ _ _ _ _ (on_stream_eq _ _ _ _ _ width L)).
  change (getitem (mk (path c) ((first :: pre) ++ [last]) (fpos c + (rpos c + 1)) 0) 0)
    with (Return (A := Z) first).
  rewrite (bind_return (pure_outcome (Return first)) _ _ _ _ eq_refl).
  destruct (Z.eqb_spec (Z.land first 64) 0) as [E|_]; [contradiction|].
  destruct (Z.eqb_spec first 64) as [E|_]; [contradiction|].
  cbn [negb]. rewrite V. reflexivity.
Qed.

Lemma block_type_by_first_byte_witness :
  let c := mk "f" [0x02; 0xC0; 0x00; 0x0B] 0 0 in
  instruction 1 0 2 (mkState c [] 8) =
  (Return "block",
   mkState (set_rpos c 3)
           [Dprint (Some (mk "f" [0x02] 0 0)) [Line "  block"];
            Dprint (Some (mk "f" [0xC0; 0x00] 1 0)) [Line "    --> (valtype:0xc0)"]] 8) /\
  decode_leb128s [0xC0; 0x00] = Return 64.
Proof.
  cbv zeta. split; [|reflexivity].
  exact (block_type_by_first_byte (mk "f" [0x02; 0xC0; 0x00; 0x0B] 0 0) 0x02 0xC0 [] 0x00
           [0x0B] "block" ["bt"] [] 8 1 0 2 eq_refl eq_refl
           ltac:(unfold continued; cbn; discriminate) ltac:(cbn; discriminate)
           (Forall_nil _) eq_refl).
Defined.

(** ** Sections at known bytes *)

Lemma section_remain_at (c : t) (log : list event) (width : positive) :
  wf c ->
  section_remain (mkState c log width) =
  (Return tt,
   mkState (set_rpos c (length (data c)))
           (match pending c with
            | [] => log
            | _ =>
              (log ++ [Dprint None [Line ("unknown data: size = "
                                            ++ str_int (Z.of_nat (length (pending c))))]])
                  ++ [Dprint (Some (mk (path c) (pending c) (fpos c + rpos c) 0))
                             (data_strings width (pending c) EmptyString)]
            end)
           width).
Proof.
  intros Hwf. unfold section_remain.
  rewrite (bind_return get _ _ _ _ eq_refl). cbn [stream BYTESW].
  rewrite (bind_return _ _ _ _ _ (on_stream_eq _ _ _ _ log width (load_rest c Hwf))).
  unfold len. cbn [data].
  destruct (pending c) as [|b rest]; reflexivity.
Qed.

(** X14.  [section_remain] never fails.  It leaves the cursor at the end
    of the buffer; when no byte was left it writes nothing, and otherwise
    it writes the number of bytes left and then those bytes, in one byte
    range, as an unknown tail. *)
Theorem section_remain_reports_rest (c : t) (log : list event) (width : positive) :
  wf c ->
  exists log',
    section_remain (mkState c log width) =
    (Return tt, mkState (set_rpos c (length (data c))) log' width) /\
    (remain c = 0%nat -> log' = log) /\
    ((0 < remain c)%nat ->
     log' = (log ++ [Dprint None [Line ("unknown data: size = "
                                          ++ str_int (Z.of_nat (remain c)))];
                     Dprint (Some (mk (path c) (pending c) (fpos c + rpos c) 0))
                            (data_strings width (pending c) EmptyString)])%list).
Proof.
  intros Hwf. rewrite (section_remain_at c log width Hwf).
  pose proof (pending_length c) as L.
  eexists. split; [reflexivity|]. split; intros H.
  - destruct (pending c); [reflexivity | cbn [length] in L; lia].
  - rewrite <- L. destruct (pending c) as [|b rest] eqn:E; [cbn [length] in L; lia|].
    rewrite <- app_assoc. reflexivity.
Qed.

Lemma section_remain_reports_rest_witness :
  let c := mk "f" [0x01; 0x02; 0x03] 4 1 in
  wf c /\
  section_remain (mkState c [] 8) =
  (Return tt,
   mkState (set_rpos c 3)
           [Dprint None [Line "unknown data: size = 2"];
            Dprint (Some (mk "f" [0x02; 0x03] 5 0)) [Line (dquote ++ ".." ++ dquote)]] 8).
Proof.
  cbv zeta.
  assert (Hwf : wf (mk "f" [0x01; 0x02; 0x03] 4 1)) by (unfold wf; cbn; lia).
  split; [exact Hwf|].
  destruct (section_remain_reports_rest (mk "f" [0x01; 0x02; 0x03] 4 1) [] 8 Hwf)
    as (log' & E & _ & H).
  rewrite E, (H ltac:(cbn; lia)). reflexivity.
Defined.

(** X15.  The flag byte of [limits] is accepted when it is 0 or 1 and
    refused otherwise, after the line [limits] has been written for it;
    the message of the exception shows the flag in decimal after [0x],
    followed by the characters [:02x]. *)
Theorem limits_flag_refused (c : t) (b : Z) (rest : list Z) (prefix : string)
        (log : list event) (width : positive) :
  pending c = b :: rest ->
  2 <= b ->
  limits prefix (mkState c log width) =
  (Raise (NotImplementedError ("unknown limits: 0x" ++ str_int b ++ ":02x")),
   mkState (set_rpos c (rpos c + 1))
           (log ++ [Dprint (Some (mk (path c) [b] (fpos c + rpos c) 0))
                           [Line (prefix ++ "limits")]])
           width).
Proof.
  intros H Hb. unfold limits.
  rewrite (bind_return _ _ _ _ _ (on_stream_eq _ _ _ _ log width (byte_at c b _ H))).
  cbv zeta. cbn [int ValueData.value ValueData.data].
  rewrite (bind_return (dprint1 _ _) _ _ _ tt eq_refl).
  destruct (Z.leb_spec 2 b) as [_|]; [reflexivity | lia].
Qed.

Lemma limits_flag_refused_witness :
  let c := mk "f" [0x01; 0x03; 0x01; 0x02] 0 1 in
  limits "  " (mkState c [] 8) =
  (Raise (NotImplementedError "unknown limits: 0x3:02x"),
   mkState (set_rpos c 2) [Dprint (Some (mk "f" [0x03] 1 0)) [Line "  limits"]] 8).
Proof.
  cbv zeta.
  exact (limits_flag_refused (mk "f" [0x01; 0x03; 0x01; 0x02] 0 1) 0x03 [0x01; 0x02] "  "
                             [] 8 eq_refl ltac:(lia)).
Defined.

(** X16.  The data count section is read as four bytes, little-endian,
    not as a LEB128.  A payload of fewer than four bytes (the usual
    encodings of a count below [2^21] have one to three) raises
    [IndexError] and nothing is written for it; with four bytes or more
    the count shown is the little-endian value of the first four, and the
    bytes after them are reported as an unknown tail. *)
Theorem datacount_section_reads_four_bytes (c : t) (log : list event) (width : positive) :
  wf c ->
  ((remain c < 4)%nat ->
   datacount_section (mkState c log width) =
   (Raise (IndexError bytes_index_msg), mkState (set_rpos c (length (data c))) log width)) /\
  (forall b0 b1 b2 b3 rest,
      pending c = b0 :: b1 :: b2 :: b3 :: rest ->
      is_byte b0 = true -> is_byte b1 = true -> is_byte b2 = true -> is_byte b3 = true ->
      let line := Dprint (Some (mk (path c) [b0; b1; b2; b3] (fpos c + rpos c) 0))
                         [Line ("data count = "
                                  ++ str_int (b0 + 2 ^ 8 * b1 + 2 ^ 16 * b2 + 2 ^ 24 * b3))] in
      exists tail,
        datacount_section (mkState c log width) =
        (Return tt,
         mkState (set_rpos c (length (data c))) ((log ++ [line]) ++ tail)%list width) /\
        printed_bytes tail = rest).
Proof.
  intros Hwf. split.
  - intros Hlt. unfold datacount_section.
    rewrite (bind_raise _ _ _ _ _ (on_stream_eq _ _ _ _ log width (long_short c Hwf Hlt))).
    reflexivity.
  - intros b0 b1 b2 b3 rest H H0 H1 H2 H3 line.
    unfold datacount_section.
    rewrite (bind_return _ _ _ _ _ (on_stream_eq _ _ _ _ log width (long_at c _ _ _ _ _ H))).
    cbn [int ValueData.value ValueData.data].
    rewrite (u32_le_value _ _ _ _ H0 H1 H2 H3).
    rewrite (bind_return (dprint1 _ _) _ _ _ tt eq_refl).
    assert (Hw4 : wf (set_rpos c (rpos c + 4))).
    { unfold wf in *. cbn [set_rpos rpos data].
      pose proof (pending_length c) as L. rewrite H in L. cbn [length] in L.
      unfold remain in L. lia. }
    cbn [stream out BYTESW]. rewrite (section_remain_at _ _ width Hw4).
    assert (P : pending (set_rpos c (rpos c + 4)) = rest).
    { exact (pending_after c [b0; b1; b2; b3] rest H). }
    rewrite P. cbn [set_rpos data path fpos rpos].
    destruct rest as [|r rest].
    + exists []. split; [rewrite app_nil_r; reflexivity | reflexivity].
    + eexists [_; _]. split.
      * unfold set_rpos. cbn [path data fpos rpos]. rewrite <- (app_assoc (log ++ [line])).
        reflexivity.
      * cbn [printed_bytes data]. apply app_nil_r.
Qed.

Lemma datacount_section_reads_four_bytes_witness :
  let c := mk "f" [0x01] 10 0 in
  wf c /\
  datacount_section (mkState c [] 8) = (Raise (IndexError bytes_index_msg), mkState (set_rpos c 1) [] 8).
Proof.
  cbv zeta.
  assert (Hwf : wf (mk "f" [0x01] 10 0)) by (unfold wf; cbn; lia).
  split; [exact Hwf|].
  exact (proj1 (datacount_section_reads_four_bytes (mk "f" [0x01] 10 0) [] 8 Hwf)
               ltac:(cbn; lia)).
Defined.

(** ** The character dump *)

Lemma data_string_length (row : list Z) : String.length (data_string row) = length row.
Proof.
  induction row as [|c row IH]; [reflexivity|].
  cbn [data_string fold_right length]. fold (data_string row).
  destruct ((32 <=? c) && (c <? 127)); cbn [chr append String.length]; rewrite IH; reflexivity.
Qed.

Lemma rows_partition (w : nat) :
  (1 <= w)%nat ->
  forall fuel data,
    (length data <= fuel)%nat ->
    concat (rows fuel w data) = data /\
    Forall (fun row => (1 <= length row <= w)%nat) (rows fuel w data) /\
    length (rows fuel w data) = ((length data + w - 1) / w)%nat.
Proof.
  intros Hw. induction fuel as [|fuel IH]; intros data Hlen.
  - destruct data; [|cbn [length] in Hlen; lia].
    cbn [rows concat length]. split; [reflexivity|]. split; [constructor|].
    symmetry. apply Nat.div_small. lia.
  - destruct data as [|b data].
    + cbn [rows concat length]. split; [reflexivity|]. split; [constructor|].
      symmetry. apply Nat.div_small. lia.
    + set (l := b :: data) in *.
      assert (Hl : (1 <= length l)%nat) by (unfold l; cbn [length]; lia).
      change (rows (S fuel) w l) with (firstn w l :: rows fuel w (skipn w l)).
      assert (Hs : (length (skipn w l) <= fuel)%nat) by (rewrite length_skipn; lia).
      destruct (IH _ Hs) as (Hc & Hf & Hn).
      split; [cbn [concat]; rewrite Hc; apply firstn_skipn|].
      split; [constructor; [rewrite length_firstn; lia | exact Hf]|].
      cbn [length]. rewrite Hn, length_skipn.
      destruct (Nat.le_gt_cases w (length l)) as [Hge|Hlt].
      * replace (length l + w - 1)%nat with ((length l - w + w - 1) + 1 * w)%nat by lia.
        rewrite Nat.div_add by lia. lia.
      * replace (length l - w)%nat with 0%nat by lia. cbn [Nat.add].
        rewrite (Nat.div_small (w - 1) w) by lia.
        apply (Nat.div_unique _ _ 1 (length l - 1)); lia.
Qed.

(** X17.  The character dump of a run of bytes (an unknown tail, the
    payload of a custom section, the bytes of a data segment) loses
    nothing: with a width of [w], the lines hold the bytes in order, each
    byte as one character, between one and [w] bytes a line, and there are
    [ceil(n / w)] lines for [n] bytes. *)
Theorem data_strings_cover (bytesw : positive) (data : list Z) (indent : string) :
  let w := Pos.to_nat bytesw in
  let chunks := rows (length data) w data in
  data_strings bytesw data indent
  = map (fun row => Line (indent ++ dquote ++ data_string row ++ dquote)) chunks /\
  concat chunks = data /\
  Forall (fun row => (1 <= length row <= w)%nat /\
                     String.length (data_string row) = length row) chunks /\
  length (data_strings bytesw data indent) = ((length data + w - 1) / w)%nat.
Proof.
  intros w chunks.
  destruct (rows_partition w (Pos2Nat.is_pos bytesw) (length data) data (Nat.le_refl _))
    as (Hc & Hf & Hn).
  split; [reflexivity|]. split; [exact Hc|]. split.
  - apply Forall_impl with (2 := Hf). intros row H. split; [exact H | apply data_string_length].
  - unfold data_strings. rewrite length_map. exact Hn.
Qed.

(** ** Names *)

Lemma utf8_at (c : t) (pre : list Z) (last : Z) (payload rest : list Z) :
  pending c = (pre ++ last :: payload ++ rest)%list ->
  Forall continued pre -> Z.land last 128 = 0 ->
  decode_leb128u (pre ++ [last])%list = Z.of_nat (length payload) ->
  Cursor.utf8 c =
  (if utf8_valid payload
   then Return (ValueData.mk (string_of_bytes payload)
                             (mk (path c) ((pre ++ [last]) ++ payload)%list (fpos c + rpos c) 0))
   else Raise UnicodeDecodeError,
   set_rpos c (rpos c + (length pre + 1) + length payload)).
Proof.
  intros H Hpre Hlast Hlen. unfold Cursor.utf8.
  rewrite (bind_return _ _ _ _ _ (leb128u_found c pre last _ H Hpre Hlast)).
  cbn [int ValueData.value]. rewrite Hlen, Nat2Z.id.
  set (c1 := set_rpos c (rpos c + (length pre + 1))).
  assert (P1 : pending c1 = (payload ++ rest)%list).
  { unfold c1. replace (length pre + 1)%nat with (length (pre ++ [last])%list)
      by (rewrite length_app; reflexivity).
    apply pending_after. rewrite <- app_assoc. exact H. }
  assert (R1 : (length payload <= remain c1)%nat).
  { rewrite <- pending_length, P1, length_app. lia. }
  destruct (load_enough (length payload) c1 R1) as [E _].
  rewrite P1, firstn_app_exact in E by reflexivity.
  rewrite (bind_return _ _ _ _ _ E).
  unfold bind, pure_outcome, codecs_decode, ret. cbn [data ValueData.data path fpos rpos].
  unfold c1. cbn [set_rpos path data fpos rpos].
  destruct (utf8_valid payload); reflexivity.
Qed.

Lemma utf8_short (c : t) (pre : list Z) (last : Z) (payload : list Z) :
  pending c = (pre ++ last :: payload)%list ->
  Forall continued pre -> Z.land last 128 = 0 ->
  Z.of_nat (length payload) < decode_leb128u (pre ++ [last])%list ->
  Cursor.utf8 c =
  (Raise (IOError ("not enough data: " ++ path c)), set_rpos c (length (data c))).
Proof.
  intros H Hpre Hlast Hlen. unfold Cursor.utf8.
  rewrite (bind_return _ _ _ _ _ (leb128u_found c pre last _ H Hpre Hlast)).
  cbn [int ValueData.value].
  set (c1 := set_rpos c (rpos c + (length pre + 1))).
  assert (P1 : pending c1 = payload).
  { unfold c1. replace (length pre + 1)%nat with (length (pre ++ [last])%list)
      by (rewrite length_app; reflexivity).
    apply pending_after. rewrite <- app_assoc. exact H. }
  assert (Hw1 : wf c1).
  { unfold wf, c1. cbn [set_rpos rpos data].
    pose proof (pending_length c) as L. rewrite H, length_app in L. cbn [length] in L.
    unfold remain in L. lia. }
  assert (R1 : (remain c1 < Z.to_nat (decode_leb128u (pre ++ [last])%list))%nat).
  { rewrite <- pending_length, P1. lia. }
  rewrite (bind_raise _ _ _ _ _ (load_short _ c1 Hw1 R1)). reflexivity.
Qed.

(** X18.  A name is a length (an unsigned LEB128) and that many bytes of
    strict UTF-8.  When the bytes are there, the name is returned with one
    span that covers the length and the bytes, or [UnicodeDecodeError] is
    raised when they are not well-formed; in both cases the cursor stands
    after them.  When fewer bytes are left than the length says, the read
    raises [IOError] and the cursor stands at the end of the buffer. *)
Theorem utf8_reads_a_name (c : t) (pre : list Z) (last : Z) (payload : list Z) :
  Forall continued pre -> Z.land last 128 = 0 ->
  (forall rest,
      pending c = (pre ++ last :: payload ++ rest)%list ->
      decode_leb128u (pre ++ [last])%list = Z.of_nat (length payload) ->
      Cursor.utf8 c =
      (if utf8_valid payload
       then Return (ValueData.mk (string_of_bytes payload)
                                 (mk (path c) ((pre ++ [last]) ++ payload)%list
                                     (fpos c + rpos c) 0))
       else Raise UnicodeDecodeError,
       set_rpos c (rpos c + (length pre + 1) + length payload))) /\
  (pending c = (pre ++ last :: payload)%list ->
   Z.of_nat (length payload) < decode_leb128u (pre ++ [last])%list ->
   Cursor.utf8 c =
   (Raise (IOError ("not enough data: " ++ path c)), set_rpos c (length (data c)))).
Proof.
  intros Hpre Hlast. split.
  - intros rest H Hlen. exact (utf8_at c pre last payload rest H Hpre Hlast Hlen).
  - intros H Hlen. exact (utf8_short c pre last payload H Hpre Hlast Hlen).
Qed.

Lemma utf8_reads_a_name_witness :
  let c := mk "f" [0x03; 0x65; 0x6E; 0x76; 0x00] 0 0 in
  Cursor.utf8 c =
  (Return (ValueData.mk "env" (mk "f" [0x03; 0x65; 0x6E; 0x76] 0 0)), set_rpos c 4) /\
  Cursor.utf8 (mk "f" [0x02; 0xC3; 0x28] 0 0) =
  (Raise UnicodeDecodeError, set_rpos (mk "f" [0x02; 0xC3; 0x28] 0 0) 3) /\
  Cursor.utf8 (mk "f" [0x03; 0x65] 0 0) =
  (Raise (IOError "not enough data: f"), set_rpos (mk "f" [0x03; 0x65] 0 0) 2).
Proof.
  cbv zeta. split; [|split].
  - exact (proj1 (utf8_reads_a_name (mk "f" [0x03; 0x65; 0x6E; 0x76; 0x00] 0 0) [] 0x03
                    [0x65; 0x6E; 0x76] (Forall_nil _) eq_refl) [0x00] eq_refl eq_refl).
  - exact (proj1 (utf8_reads_a_name (mk "f" [0x02; 0xC3; 0x28] 0 0) [] 0x02
                    [0xC3; 0x28] (Forall_nil _) eq_refl) [] eq_refl eq_refl).
  - exact (proj2 (utf8_reads_a_name (mk "f" [0x03; 0x65] 0 0) [] 0x03
                    [0x65] (Forall_nil _) eq_refl) eq_refl ltac:(vm_compute; reflexivity)).
Defined.

(** ** The driver at known bytes *)

Lemma main_after_header (path : string) (width : positive) (v0 v1 v2 v3 : Z) (body : list Z) :
  let data := (FILE_MAGIC ++ v0 :: v1 :: v2 :: v3 :: body)%list in
  main path width data =
  sections_fuel (S (length data))
    (mkState (mk path data 0 8) (header_lines path [v0; v1; v2; v3]) width).
Proof. reflexivity. Qed.

Lemma section_name_missing (sid : Z) :
  13 <= sid -> py_getitem tuple_index_msg SECTION_NAME sid = Raise (IndexError tuple_index_msg).
Proof.
  intros H. unfold py_getitem.
  destruct (Z.ltb_spec sid 0) as [|_]; [lia|].
  destruct (Z.ltb_spec sid 0) as [|_]; [lia|].
  destruct (nth_error SECTION_NAME (Z.to_nat sid)) eqn:E; [|reflexivity].
  assert (Hlt : (Z.to_nat sid < length SECTION_NAME)%nat)
    by (apply nth_error_Some; rewrite E; discriminate).
  cbn [SECTION_NAME length] in Hlt. lia.
Qed.

(** X19.  A section id of 13 or more, after a valid header, ends the
    dump with [IndexError]: the name of the section is looked up before
    its first line is written, so the id byte is consumed and only the
    separator line is written for the section. *)
Theorem main_unknown_section_id (path : string) (width : positive) (v0 v1 v2 v3 sid : Z)
        (rest : list Z) :
  13 <= sid ->
  let data := (FILE_MAGIC ++ v0 :: v1 :: v2 :: v3 :: sid :: rest)%list in
  main path width data =
  (Raise (IndexError tuple_index_msg),
   mkState (mk path data 0 9)
           (header_lines path [v0; v1; v2; v3] ++ [Print LINE_SEP]) width).
Proof.
  intros Hsid data. unfold data. rewrite main_after_header. fold data.
  cbn [sections_fuel].
  rewrite (bind_return get _ _ _ _ eq_refl).
  change (0 <? remain (stream (mkState (mk path data 0 8)
                                       (header_lines path [v0; v1; v2; v3]) width)))%nat
    with true. cbv iota.
  rewrite (bind_return (print LINE_SEP) _ _ _ tt eq_refl).
  rewrite (bind_return _ _ _ _ _
             (on_stream_eq _ _ _ _ _ width
                (byte_at (mk path data 0 8) sid rest eq_refl))).
  cbn [int ValueData.value].
  rewrite (section_name_missing sid Hsid). reflexivity.
Qed.

Lemma main_unknown_section_id_witness :
  main "f" 8 [0x00; 0x61; 0x73; 0x6D; 0x01; 0x00; 0x00; 0x00; 0x0D; 0x00] =
  (Raise (IndexError "tuple index out of range"),
   mkState (mk "f" [0x00; 0x61; 0x73; 0x6D; 0x01; 0x00; 0x00; 0x00; 0x0D; 0x00] 0 9)
           (header_lines "f" [0x01; 0x00; 0x00; 0x00] ++ [Print LINE_SEP]) 8).
Proof.
  exact (main_unknown_section_id "f" 8 0x01 0x00 0x00 0x00 0x0D [0x00] ltac:(lia)).
Defined.

(** The version is shown and not checked: a file that holds the magic
    and any four bytes after it is dumped without an error. *)
Lemma main_accepts_any_version (path : string) (width : positive) (v0 v1 v2 v3 : Z) :
  main path width (FILE_MAGIC ++ [v0; v1; v2; v3]) =
  (Return tt,
   mkState (mk path (FILE_MAGIC ++ [v0; v1; v2; v3]) 0 8)
           (header_lines path [v0; v1; v2; v3]) width).
Proof. reflexivity. Qed.

Lemma bytes_eqb_neq (a b : list Z) : a <> b -> bytes_eqb a b = false.
Proof. unfold bytes_eqb. destruct (list_eq_dec Z.eq_dec a b); [contradiction | reflexivity]. Qed.

(** X20.  A file whose first four bytes are not the magic (a shorter
    file, and the empty one, included) ends with [ValueError] after the
    line of the magic has been written for the bytes that were there. *)
Theorem main_bad_magic (path : string) (width : positive) (data : list Z) :
  firstn 4 data <> FILE_MAGIC ->
  main path width data =
  (Raise (ValueError EmptyString),
   mkState (mk path data 0 (length (firstn 4 data)))
           [Print LINE_SEP; Print ("Path: " ++ path); Print LINE_SEP;
            Dprint (Some (mk path (firstn 4 data) 0 0))
                   [Line ("magic = " ++ repr_bytes (firstn 4 data))]]
           width).
Proof.
  intros H. unfold main.
  rewrite (bind_return (print LINE_SEP) _ _ _ tt eq_refl).
  rewrite (bind_return (print _) _ _ _ tt eq_refl).
  rewrite (bind_return (print LINE_SEP) _ _ _ tt eq_refl).
  rewrite (bind_return (on_stream (read 4)) _ _ _ _ eq_refl).
  cbn [stream out BYTESW ReadData.data rpos skipn Nat.add fpos ReadData.path].
  rewrite (bind_return (dprint1 _ _) _ _ _ tt eq_refl).
  cbn [ReadData.data]. rewrite (bytes_eqb_neq _ _ H). reflexivity.
Qed.

Lemma main_bad_magic_witness :
  firstn 4 [0x7F; 0x45; 0x4C] <> FILE_MAGIC /\
  main "f" 8 [0x7F; 0x45; 0x4C] =
  (Raise (ValueError EmptyString),
   mkState (mk "f" [0x7F; 0x45; 0x4C] 0 3)
           [Print LINE_SEP; Print "Path: f"; Print LINE_SEP;
            Dprint (Some (mk "f" [0x7F; 0x45; 0x4C] 0 0))
                   [Line ("magic = " ++ repr_bytes [0x7F; 0x45; 0x4C])]] 8).
Proof.
  assert (H : firstn 4 [0x7F; 0x45; 0x4C] <> FILE_MAGIC) by discriminate.
  split; [exact H|]. exact (main_bad_magic "f" 8 [0x7F; 0x45; 0x4C] H).
Defined.

(** ** Integers within the limit of the conversion *)

Lemma continued_run_grows (data : list Z) :
  forall run, (run <= continued_run run data)%nat.
Proof.
  induction data as [|b data IH]; intros run; cbn [continued_run]; [lia|].
  destruct (Z.land b 128 =? 0); [lia|]. specialize (IH (S run)). lia.
Qed.

Lemma continued_run_monotone (data : list Z) :
  forall run run', (run <= run')%nat ->
                   (continued_run run data <= continued_run run' data)%nat.
Proof.
  induction data as [|b data IH]; intros run run' H; cbn [continued_run]; [exact H|].
  destruct (Z.land b 128 =? 0); [lia | apply IH; lia].
Qed.

Lemma continued_run_prefix (pre rest : list Z) :
  Forall continued pre ->
  forall run, (run + length pre <= continued_run run (pre ++ rest))%nat.
Proof.
  induction 1 as [|b pre Hb _ IH]; intros run; cbn [app length].
  - rewrite Nat.add_0_r. apply continued_run_grows.
  - cbn [continued_run]. unfold continued in Hb.
    destruct (Z.eqb_spec (Z.land b 128) 0) as [E|_]; [contradiction|].
    specialize (IH (S run)). lia.
Qed.

Lemma continued_run_suffix (before data : list Z) :
  forall run, (continued_run 0 data <= continued_run run (before ++ data))%nat.
Proof.
  induction before as [|b before IH]; intros run; cbn [app].
  - apply continued_run_monotone. lia.
  - cbn [continued_run]. destruct (Z.land b 128 =? 0).
    + specialize (IH 0%nat). lia.
    + apply IH.
Qed.

Lemma leb128_fit_converts : 128 ^ Z.of_nat leb128_fit < 10 ^ Z.of_nat int_max_str_digits.
Proof. vm_compute. reflexivity. Qed.

(** In a file of short integers, a LEB128 read anywhere converts to
    decimal, unsigned and signed. *)
Lemma short_integers_fit (data before pre : list Z) (last : Z) (rest : list Z) :
  short_integers data ->
  data = (before ++ pre ++ last :: rest)%list ->
  Forall continued pre ->
  str_fits (decode_leb128u (pre ++ [last])) /\
  exists s, decode_leb128s (pre ++ [last]) = Return s /\ str_fits s.
Proof.
  intros Hs -> Hpre. unfold short_integers in Hs.
  pose proof (continued_run_suffix before (pre ++ last :: rest) 0) as S1.
  pose proof (continued_run_prefix pre (last :: rest) Hpre 0) as S2.
  assert (L : (length (pre ++ [last]) <= leb128_fit)%nat)
    by (rewrite length_app; cbn [length]; lia).
  assert (P : 128 ^ Z.of_nat (length (pre ++ [last])) <= 128 ^ Z.of_nat leb128_fit)
    by (apply Z.pow_le_mono_r; lia).
  pose proof leb128_fit_converts as C.
  pose proof (leb128_value_range (pre ++ [last])) as R.
  assert (Hne : (pre ++ [last])%list <> []) by (destruct pre; discriminate).
  split.
  - unfold str_fits. rewrite decode_leb128u_value. lia.
  - rewrite (decode_leb128s_value _ Hne). eexists. split; [reflexivity|].
    unfold str_fits. rewrite Z.shiftl_1_l.
    replace (2 ^ (7 * Z.of_nat (length (pre ++ [last]))))
      with (128 ^ Z.of_nat (length (pre ++ [last])))
      by (change 128 with (2 ^ 7); rewrite <- Z.pow_mul_r by lia; reflexivity).
    destruct (Z.testbit _ 6); lia.
Qed.

(** ** The exceptions of a dump *)

Lemma getitem_input_error {A : Type} (msg : string) (l : list A) (key : Z) (e : exn) :
  py_getitem msg l key = Raise e -> input_error e = true.
Proof.
  unfold py_getitem. destruct (_ <? 0); [intros H; injection H as <-; reflexivity|].
  destruct (nth_error l _); [discriminate | intros H; injection H as <-; reflexivity].
Qed.

Lemma decode_leb128s_input_error (bs : list Z) (e : exn) :
  decode_leb128s bs = Raise e -> input_error e = true.
Proof.
  unfold decode_leb128s.
  destruct (py_getitem bytes_index_msg bs (-1)) eqn:E; try discriminate.
  intros H. injection H as <-. exact (getitem_input_error _ _ _ _ E).
Qed.

Lemma codecs_decode_input_error (bs : list Z) (e : exn) :
  codecs_decode bs = Raise e -> input_error e = true.
Proof.
  unfold codecs_decode. destruct (utf8_valid bs); [discriminate|].
  intros H. injection H as <-. reflexivity.
Qed.

(** *** The primitive reads *)

Lemma plain_bind {A B : Type} (m : SE t A) (k : A -> SE t B) :
  plain m -> (forall a, plain (k a)) -> plain (bind m k).
Proof.
  intros Hm Hk c r c' H.
  apply bind_inv in H as [(a & c1 & H1 & H2) | [(e & H1 & ->) | (H1 & ->)]].
  - destruct (Hm _ _ _ H1) as [D1 _]. destruct (Hk a _ _ _ H2) as [D2 E2].
    split; [congruence | exact E2].
  - destruct (Hm _ _ _ H1) as [D1 E1].
    split; [exact D1 | intros e' X; injection X as <-; exact (E1 e eq_refl)].
  - split; [exact (proj1 (Hm _ _ _ H1)) | discriminate].
Qed.

Lemma plain_ret {A : Type} (a : A) : plain (ret a).
Proof. intros c r c' H. injection H as <- <-. split; [reflexivity | discriminate]. Qed.

Lemma plain_pure {A : Type} (o : outcome A) :
  (forall e, o = Raise e -> input_error e = true) -> plain (pure_outcome o).
Proof. intros Ho c r c' H. injection H as <- <-. split; [reflexivity | exact Ho]. Qed.

Lemma plain_read (size : nat) : plain (read size).
Proof. intros c r c' H. injection H as <- <-. split; [reflexivity | discriminate]. Qed.

Lemma plain_load (size : nat) : plain (load size).
Proof.
  intros c r c' H. unfold load in H.
  apply bind_inv in H as [(sp & c1 & Hr & H) | [(e & Hr & _) | (Hr & _)]];
    try (unfold read in Hr; discriminate).
  destruct (plain_read size _ _ _ Hr) as [D _].
  unfold bind, get, ret, raise in H.
  destruct (len sp =? size)%nat; injection H as <- <-; (split; [exact D|]).
  - discriminate.
  - intros e E. injection E as <-. reflexivity.
Qed.

Lemma plain_reload (saved : nat) : plain (reload saved).
Proof.
  intros c r c' H. unfold reload in H.
  destruct (saved <=? rpos c)%nat.
  - exact (plain_load _ _ _ _ H).
  - injection H as <- <-. split; [reflexivity|]. intros e E. injection E as <-. reflexivity.
Qed.

Lemma plain_byte : plain Cursor.byte.
Proof.
  unfold Cursor.byte. apply plain_bind; [apply plain_load | intros span].
  apply plain_bind; [apply plain_pure, getitem_input_error | intros b; apply plain_ret].
Qed.

Lemma plain_long : plain Cursor.long.
Proof.
  unfold Cursor.long. apply plain_bind; [apply plain_read | intros span].
  repeat (apply plain_bind; [apply plain_pure, getitem_input_error | intros ?]).
  apply plain_ret.
Qed.

Lemma plain_leb128 : plain Cursor.leb128.
Proof.
  intros c r c' H. unfold Cursor.leb128 in H.
  destruct (Cursor.leb128_scan _ _).
  - exact (plain_read _ _ _ _ H).
  - injection H as <- <-. split; [reflexivity|]. intros e E. injection E as <-. reflexivity.
Qed.

Lemma plain_leb128u : plain Cursor.leb128u.
Proof.
  unfold Cursor.leb128u. apply plain_bind; [apply plain_leb128 | intros; apply plain_ret].
Qed.

Lemma plain_utf8 : plain Cursor.utf8.
Proof.
  unfold Cursor.utf8. apply plain_bind; [apply plain_leb128u | intros cnt].
  apply plain_bind; [apply plain_load | intros pay].
  apply plain_bind; [apply plain_pure, codecs_decode_input_error | intros; apply plain_ret].
Qed.

(** *** Rules *)

Lemma guarded_bind {A B : Type} (m : M A) (k : A -> M B) :
  guarded m -> (forall a, guarded (k a)) -> guarded (bind m k).
Proof.
  intros Hm Hk s r s' Hs H.
  apply bind_inv in H as [(a & s1 & H1 & H2) | [(e & H1 & ->) | (H1 & ->)]].
  - exact (Hk a _ _ _ (proj1 (Hm _ _ _ Hs H1)) H2).
  - destruct (Hm _ _ _ Hs H1) as [B1 E1].
    split; [exact B1 | intros e' X; injection X as <-; exact (E1 e eq_refl)].
  - split; [exact (proj1 (Hm _ _ _ Hs H1)) | discriminate].
Qed.

Lemma guarded_assoc {A B C : Type} (m : M A) (k1 : A -> M B) (k2 : B -> M C) :
  guarded (bind m (fun a => bind (k1 a) k2)) -> guarded (bind (bind m k1) k2).
Proof.
  intros Hm s r s' Hs H. apply (Hm _ _ _ Hs). rewrite <- H.
  unfold bind. destruct (m s) as [[a|e|] s1]; reflexivity.
Qed.

Lemma guarded_ret_bind {A B : Type} (a : A) (k : A -> M B) :
  guarded (k a) -> guarded (bind (ret a) k).
Proof. intros Hk s r s' Hs H. exact (Hk _ _ _ Hs H). Qed.

Lemma guarded_ret {A : Type} (a : A) : guarded (ret a).
Proof. intros s r s' Hs H. injection H as <- <-. split; [exact Hs | discriminate]. Qed.

Lemma guarded_get : guarded (@get state).
Proof. intros s r s' Hs H. injection H as <- <-. split; [exact Hs | discriminate]. Qed.

Lemma guarded_raise {A : Type} (e : exn) : input_error e = true -> guarded (@raise state A e).
Proof.
  intros He s r s' Hs H. injection H as <- <-. split; [exact Hs|].
  intros e' E. injection E as <-. exact He.
Qed.

Lemma guarded_emit (e : event) : guarded (emit e).
Proof. intros s r s' Hs H. injection H as <- <-. split; [exact Hs | discriminate]. Qed.

Lemma guarded_pure_bind {A B : Type} (o : outcome A) (k : A -> M B) :
  (forall e, o = Raise e -> input_error e = true) ->
  (forall a, o = Return a -> guarded (k a)) ->
  guarded (bind (pure_outcome o) k).
Proof.
  intros Ho Hk s r s' Hs H. unfold bind, pure_outcome in H. destruct o as [a|e|].
  - exact (Hk a eq_refl _ _ _ Hs H).
  - injection H as <- <-. split; [exact Hs|]. intros e' E. injection E as <-. exact (Ho e eq_refl).
  - injection H as <- <-. split; [exact Hs | discriminate].
Qed.

Lemma guarded_on_stream {A : Type} (m : SE t A) : plain m -> guarded (on_stream m).
Proof.
  intros Hm s r s' Hs H. apply on_stream_inv in H as (c' & H & ->).
  destruct (Hm _ _ _ H) as [D E]. cbn [stream].
  split; [unfold bytes_buffer; rewrite D; exact Hs | exact E].
Qed.

Lemma bytes_slice (l : list Z) (n r : nat) :
  Forall (fun b => is_byte b = true) l ->
  Forall (fun b => is_byte b = true) (firstn n (skipn r l)).
Proof.
  intros H.
  assert (S : Forall (fun b => is_byte b = true) (skipn r l)).
  { revert l H. induction r as [|r IH]; intros l H; [exact H|].
    destruct l as [|b l]; [constructor|]. cbn [skipn]. apply IH. inversion H; assumption. }
  revert S. generalize (skipn r l) as l'. clear. intros l'. revert n.
  induction l' as [|b l' IH]; intros n H; destruct n; cbn [firstn]; try constructor.
  - inversion H; assumption.
  - apply IH. inversion H; assumption.
Qed.

(** A decoder that goes on with the span of a [read] or a [load]: the
    span is a buffer of bytes. *)
Lemma guarded_read_bind {B : Type} (size : nat) (k : t -> M B) :
  (forall span, bytes_buffer span -> guarded (k span)) ->
  guarded (bind (on_stream (read size)) k).
Proof.
  intros Hk s r s' Hs H.
  apply bind_inv in H as [(span & s1 & H1 & H2) | [(e & H1 & ->) | (H1 & ->)]];
    destruct (guarded_on_stream _ (plain_read size) _ _ _ Hs H1) as [B1 E1].
  - apply on_stream_inv in H1 as (c1 & H1 & _). unfold read in H1. injection H1 as <- _.
    refine (Hk _ _ _ _ _ B1 H2). unfold bytes_buffer. cbn [data]. apply bytes_slice. exact Hs.
  - split; [exact B1 | intros e' X; injection X as <-; exact (E1 e eq_refl)].
  - split; [exact B1 | discriminate].
Qed.

Lemma guarded_load_bind {B : Type} (size : nat) (k : t -> M B) :
  (forall span, bytes_buffer span -> guarded (k span)) ->
  guarded (bind (on_stream (load size)) k).
Proof.
  intros Hk s r s' Hs H.
  apply bind_inv in H as [(span & s1 & H1 & H2) | [(e & H1 & ->) | (H1 & ->)]];
    destruct (guarded_on_stream _ (plain_load size) _ _ _ Hs H1) as [B1 E1].
  - apply on_stream_inv in H1 as (c1 & H1 & _).
    apply load_returns_read in H1. unfold read in H1. injection H1 as <- _.
    refine (Hk _ _ _ _ _ B1 H2). unfold bytes_buffer. cbn [data]. apply bytes_slice. exact Hs.
  - split; [exact B1 | intros e' X; injection X as <-; exact (E1 e eq_refl)].
  - split; [exact B1 | discriminate].
Qed.

(** The value of a byte read from a buffer of bytes is a byte. *)
Lemma guarded_byte_bind {B : Type} (k : Integer -> M B) :
  (forall v, is_byte (int v) = true -> guarded (k v)) ->
  guarded (bind (on_stream Cursor.byte) k).
Proof.
  intros Hk s r s' Hs H.
  apply bind_inv in H as [(v & s1 & H1 & H2) | [(e & H1 & ->) | (H1 & ->)]];
    destruct (guarded_on_stream _ plain_byte _ _ _ Hs H1) as [B1 E1].
  - refine (Hk v _ _ _ _ B1 H2).
    apply on_stream_inv in H1 as (c1 & H1 & _). unfold Cursor.byte in H1.
    apply bind_inv in H1 as [(span & c2 & Hl & H1) | [(e & _ & ?) | (_ & ?)]];
      try discriminate.
    apply load_returns_read in Hl. unfold read in Hl. injection Hl as <- _.
    unfold bind, pure_outcome, ret, getitem in H1. cbn [data] in H1.
    destruct (py_getitem _ _ 0) as [b| |] eqn:G; try discriminate.
    injection H1 as <- _. cbn [int ValueData.value].
    apply getitem_In in G.
    pose proof (bytes_slice _ 1 (rpos (stream s)) Hs) as F.
    rewrite Forall_forall in F. exact (F b G).
  - split; [exact B1 | intros e' X; injection X as <-; exact (E1 e eq_refl)].
  - split; [exact B1 | discriminate].
Qed.

Lemma guarded_with_stream {A : Type} (sub : t) (m : M A) :
  bytes_buffer sub -> guarded m -> guarded (with_stream sub m).
Proof.
  intros Hsub Hm s r s' Hs H. unfold with_stream in H.
  destruct (m (mkState sub (out s) (BYTESW s))) as [r0 s0] eqn:E.
  injection H as <- <-. cbn [stream].
  split; [exact Hs | exact (proj2 (Hm (mkState sub (out s) (BYTESW s)) _ _ Hsub E))].
Qed.

Lemma guarded_for_range_from (body : Z -> M unit) (n : nat) (start : Z) :
  (forall i, guarded (body i)) -> guarded (for_range_from start n body).
Proof.
  intros Hbody. revert start. induction n as [|n IH]; intros start; cbn [for_range_from].
  - apply guarded_ret.
  - apply guarded_bind; [apply Hbody | intros _; apply IH].
Qed.

Lemma guarded_for_range (body : Z -> M unit) (n : Z) :
  (forall i, guarded (body i)) -> guarded (for_range n body).
Proof. apply guarded_for_range_from. Qed.

Lemma guarded_for_each {A : Type} (body : A -> M unit) (xs : list A) :
  (forall x, guarded (body x)) -> guarded (for_each xs body).
Proof.
  intros Hbody. induction xs as [|x xs IH]; cbn [for_each].
  - apply guarded_ret.
  - apply guarded_bind; [apply Hbody | intros _; exact IH].
Qed.

Ltac guards_step :=
  match goal with
  | |- guarded (let _ := _ in _) => cbv zeta
  | |- guarded ((fun _ => _) _) => cbv beta
  | |- guarded (ret _) => apply guarded_ret
  | |- guarded get => apply guarded_get
  | |- guarded (raise _) => apply guarded_raise; reflexivity
  | |- guarded (dprint1 _ _) => apply guarded_emit
  | |- guarded (dprint _ _) => apply guarded_emit
  | |- guarded (print _) => apply guarded_emit
  | |- guarded (on_stream Cursor.byte) => exact (guarded_on_stream _ plain_byte)
  | |- guarded (on_stream Cursor.long) => exact (guarded_on_stream _ plain_long)
  | |- guarded (on_stream Cursor.utf8) => exact (guarded_on_stream _ plain_utf8)
  | |- guarded (on_stream Cursor.leb128u) => exact (guarded_on_stream _ plain_leb128u)
  | |- guarded (on_stream Cursor.leb128) => exact (guarded_on_stream _ plain_leb128)
  | |- guarded (on_stream (load _)) => exact (guarded_on_stream _ (plain_load _))
  | |- guarded (bind (pure_outcome (py_getitem _ _ _)) _) =>
    apply guarded_pure_bind; [apply getitem_input_error | intros ? ?]
  | |- guarded (bind (pure_outcome (getitem _ _)) _) =>
    apply guarded_pure_bind; [apply getitem_input_error | intros ? ?]
  | |- guarded (bind (pure_outcome (decode_leb128s _)) _) =>
    apply guarded_pure_bind; [apply decode_leb128s_input_error | intros ? ?]
  | |- guarded (bind (pure_outcome (Integer_code _)) _) =>
    apply guarded_pure_bind;
    [intros ? E; injection E as <-; reflexivity | intros ? ?; discriminate]
  | |- guarded (bind (on_stream (load _)) _) => apply guarded_load_bind; intros ? ?
  | |- guarded (bind (on_stream (read _)) _) => apply guarded_read_bind; intros ? ?
  | H : bytes_buffer ?sub |- guarded (with_stream ?sub _) =>
    apply (guarded_with_stream _ _ H)
  | |- guarded (for_range _ _) => apply guarded_for_range; intros ?
  | |- guarded (for_each _ _) => apply guarded_for_each; intros ?
  | |- guarded (bind _ _) => apply guarded_bind; [| intros ?]
  | |- guarded (if ?b then _ else _) => destruct b
  | |- guarded (match ?x with _ => _ end) => destruct x
  end.

Ltac guards := repeat guards_step.

Lemma guarded_read_valtype : guarded read_valtype.
Proof. unfold read_valtype. guards. Qed.

Lemma guarded_read_reftype : guarded read_reftype.
Proof. unfold read_reftype. guards. Qed.

Lemma guarded_operand_decode (asm0 indent : string) (op : operand) :
  guarded (operand_decode asm0 indent op).
Proof.
  unfold operand_decode. destruct op as [n|op]; guards;
    first [apply guarded_read_valtype | apply guarded_read_reftype].
Qed.

(** *** The shape of the opcode table *)

Lemma planes_are_flat (plane : list ins) (code2 : Z) (entry : ins) :
  plane = DISASM_FC \/ plane = DISASM_FD ->
  py_getitem list_index_msg plane code2 = Return entry -> flat entry = true.
Proof.
  intros Hp H. apply getitem_In in H.
  assert (A : forallb flat DISASM_FC && forallb flat DISASM_FD = true)
    by (vm_compute; reflexivity).
  apply andb_true_iff in A as [A1 A2]. rewrite forallb_forall in A1, A2.
  destruct Hp as [-> | ->]; auto.
Qed.

Lemma plain_opcodes_are_flat (b : Z) (entry : ins) :
  is_byte b = true -> (b =? 0xFC) || (b =? 0xFD) = false ->
  py_getitem list_index_msg DISASM b = Return entry -> flat entry = true.
Proof.
  intros Hb Hp H. apply is_byte_range in Hb.
  unfold py_getitem in H.
  destruct (Z.ltb_spec b 0) as [|_]; [lia|].
  destruct (Z.ltb_spec b 0) as [|_]; [lia|].
  destruct (nth_error DISASM (Z.to_nat b)) as [entry'|] eqn:E; [|discriminate].
  injection H as <-.
  assert (A : forallb (fun n => match nth_error DISASM n with
                                | Some entry => flat entry || (n =? 252)%nat || (n =? 253)%nat
                                | None => false
                                end) (seq 0 256) = true)
    by (vm_compute; reflexivity).
  rewrite forallb_forall in A.
  specialize (A (Z.to_nat b) ltac:(apply in_seq; lia)). rewrite E in A.
  apply orb_false_iff in Hp as [H252 H253].
  apply Z.eqb_neq in H252, H253.
  destruct (Nat.eqb_spec (Z.to_nat b) 252) as [|_]; [lia|].
  destruct (Nat.eqb_spec (Z.to_nat b) 253) as [|_]; [lia|].
  rewrite !orb_false_r in A. exact A.
Qed.

Lemma guarded_instruction (indent_base indent_level indent_step : Z) :
  guarded (instruction indent_base indent_level indent_step).
Proof.
  unfold instruction. apply guarded_bind; [apply guarded_get | intros s0]. cbv zeta.
  apply guarded_byte_bind. intros scode1 Hbyte.
  apply guarded_pure_bind; [apply getitem_input_error | intros entry Hentry].
  assert (K : forall entry' : ins,
             flat entry' = true ->
             guarded
               (data <- on_stream (reload (rpos (stream s0))) ;;
                if ins_is_empty entry'
                then raise (NotImplementedError
                              ("unknown instruction: " ++ hex_bytes (ReadData.data data)))
                else
                  match entry' with
                  | Op ops asm =>
                    asm0 <- pure_outcome (py_getitem list_index_msg asm 0) ;;
                    let indent_level :=
                      if String.eqb asm0 "else" || String.eqb asm0 "end"
                      then Z.max 0 (indent_level - 1) else indent_level in
                    let indent_depth := (indent_base + indent_level) * indent_step in
                    let indent := spaces indent_depth in
                    dprint1 (Some data) (indent ++ asm0) ;;
                    let indent := indent ++ "  --> " in
                    for_each ops (operand_decode asm0 indent) ;;
                    ret asm0
                  | _ => raise (TypeError "opcode plane used as an entry")
                  end)).
  { intros entry' Hflat.
    apply guarded_bind; [exact (guarded_on_stream _ (plain_reload _)) | intros data].
    destruct entry' as [|ops asm|plane]; [| | discriminate]; cbn [ins_is_empty]; cbv iota.
    - apply guarded_raise. reflexivity.
    - guards. apply guarded_operand_decode. }
  destruct ((int scode1 =? 0xFC) || (int scode1 =? 0xFD)) eqn:Hp.
  - apply guarded_assoc.
    apply guarded_bind; [exact (guarded_on_stream _ plain_leb128u) | intros scode2].
    destruct (prefix_is_plane _ _ Hentry Hp) as [-> | ->]; cbn [ins_getitem];
      (apply guarded_pure_bind; [apply getitem_input_error | intros entry2 H2]);
      apply K.
    + exact (planes_are_flat _ _ _ (or_introl eq_refl) H2).
    + exact (planes_are_flat _ _ _ (or_intror eq_refl) H2).
  - apply guarded_ret_bind. apply K.
    exact (plain_opcodes_are_flat _ _ Hbyte Hp Hentry).
Qed.

Lemma guarded_expression_fuel (fuel : nat) :
  forall indent_base indent_level indent_step,
    guarded (expression_fuel fuel indent_base indent_level indent_step).
Proof.
  induction fuel as [|fuel IH]; intros indent_base indent_level indent_step.
  - intros s r s' Hs H. injection H as <- <-. split; [exact Hs | discriminate].
  - cbn [expression_fuel]. apply guarded_bind; [apply guarded_get | intros s0].
    destruct (0 <? remain (stream s0))%nat; [|apply guarded_ret].
    apply guarded_bind; [apply guarded_instruction | intros asm].
    destruct (String.eqb asm "end"); [apply guarded_ret|].
    apply guarded_bind; [|intros _; apply IH].
    destruct (existsb _ _); [apply IH | apply guarded_ret].
Qed.

Lemma guarded_expression (indent_base indent_level indent_step : Z) :
  guarded (expression indent_base indent_level indent_step).
Proof.
  unfold expression. apply guarded_bind; [apply guarded_get | intros s0].
  apply guarded_expression_fuel.
Qed.

Ltac guards_section :=
  repeat first
         [ match goal with
           | |- guarded (expression _ _ _) => apply guarded_expression
           | |- guarded read_valtype => apply guarded_read_valtype
           | |- guarded section_remain => unfold section_remain
           | |- guarded (value_type _) => unfold value_type
           | |- guarded (reference_type _) => unfold reference_type
           | |- guarded (limits _) => unfold limits
           | |- guarded (mutability _) => unfold mutability
           | |- guarded (result_type _ _) => unfold result_type
           end
         | guards_step ].

Lemma guarded_SECTION_FUNC (handler : M unit) : In handler SECTION_FUNC -> guarded handler.
Proof.
  unfold SECTION_FUNC. cbn [In]. intros H.
  repeat (destruct H as [<- | H]); [..| contradiction].
  - unfold custom_section. guards_section.
  - unfold type_section. guards_section.
  - unfold import_section. guards_section.
  - unfold function_section. guards_section.
  - unfold table_section. guards_section.
  - unfold memory_section. guards_section.
  - unfold global_section. guards_section.
  - unfold export_section. guards_section.
  - unfold start_section. guards_section.
  - unfold element_section. guards_section.
  - unfold code_section. guards_section.
  - unfold data_section. guards_section.
  - unfold datacount_section. guards_section.
Qed.

Lemma guarded_sections_fuel (fuel : nat) : guarded (sections_fuel fuel).
Proof.
  induction fuel as [|fuel IH].
  - intros s r s' Hs H. injection H as <- <-. split; [exact Hs | discriminate].
  - cbn [sections_fuel]. apply guarded_bind; [apply guarded_get | intros s0].
    destruct (0 <? remain (stream s0))%nat; [|apply guarded_ret].
    guards.
    + match goal with
      | E : py_getitem _ SECTION_FUNC _ = Return _ |- _ =>
        exact (guarded_SECTION_FUNC _ (getitem_In _ _ _ _ E))
      end.
    + exact IH.
Qed.

(** X21.  Once the magic has been accepted, a dump of bytes ends with a
    return or with one of [IOError], [IndexError], [NotImplementedError],
    [UnicodeDecodeError] and [AttributeError]: [ValueError] answers a wrong
    magic only, and the opcode table is never used against its shape (the
    entries under the two prefixes are tables, and no other entry is).
    The file is within the limits of the interpreter: no LEB128 in it is
    longer than [leb128_fit] bytes, so that every number shown converts to
    decimal, and it holds at most [max_nesting] block opcodes, so that the
    walker stays within the recursion limit. *)
Theorem main_raises_input_errors (path : string) (width : positive) (data : list Z)
        (e : exn) :
  Forall (fun b => is_byte b = true) data ->
  firstn 4 data = FILE_MAGIC ->
  short_integers data ->
  shallow data ->
  fst (main path width data) = Raise e ->
  input_error e = true.
Proof.
  intros Hbytes Hmagic _ _. unfold main.
  rewrite (bind_return (print LINE_SEP) _ _ _ tt eq_refl).
  rewrite (bind_return (print _) _ _ _ tt eq_refl).
  rewrite (bind_return (print LINE_SEP) _ _ _ tt eq_refl).
  rewrite (bind_return (on_stream (read 4)) _ _ _ _ eq_refl).
  cbn [stream out BYTESW ReadData.data rpos skipn Nat.add fpos ReadData.path].
  rewrite (bind_return (dprint1 _ _) _ _ _ tt eq_refl).
  cbn [ReadData.data]. rewrite Hmagic. cbn [negb bytes_eqb].
  change (negb (bytes_eqb FILE_MAGIC FILE_MAGIC)) with false. cbv iota.
  match goal with
  | |- fst (?m ?s) = _ -> _ =>
    assert (G : guarded m) by (guards; apply guarded_sections_fuel);
    destruct (m s) as [r s'] eqn:H;
    assert (B : bytes_buffer (stream s)) by exact Hbytes;
    intros E; cbn [fst] in E; exact (proj2 (G _ _ _ B H) e E)
  end.
Qed.

Lemma main_raises_input_errors_witness :
  let file := [0x00; 0x61; 0x73; 0x6D; 0x01; 0x00; 0x00; 0x00; 0x0C; 0x01; 0x01] in
  Forall (fun b => is_byte b = true) file /\ firstn 4 file = FILE_MAGIC /\
  short_integers file /\ shallow file /\
  fst (main "f" 8 file) = Raise (IndexError bytes_index_msg) /\
  input_error (IndexError bytes_index_msg) = true.
Proof.
  cbv zeta.
  assert (Hb : Forall (fun b => is_byte b = true)
                      [0x00; 0x61; 0x73; 0x6D; 0x01; 0x00; 0x00; 0x00; 0x0C; 0x01; 0x01])
    by (repeat constructor).
  assert (Hs : short_integers
                 [0x00; 0x61; 0x73; 0x6D; 0x01; 0x00; 0x00; 0x00; 0x0C; 0x01; 0x01])
    by (apply Nat.ltb_lt; vm_compute; reflexivity).
  assert (Hd : shallow [0x00; 0x61; 0x73; 0x6D; 0x01; 0x00; 0x00; 0x00; 0x0C; 0x01; 0x01])
    by (apply Nat.leb_le; vm_compute; reflexivity).
  split; [exact Hb|]. split; [reflexivity|]. split; [exact Hs|]. split; [exact Hd|].
  split; [reflexivity|].
  exact (main_raises_input_errors "f" 8 _ _ Hb eq_refl Hs Hd eq_refl).
Defined.

(** ** The walker on well-nested sequences *)

Lemma printed_bytes_app (l1 l2 : list event) :
  printed_bytes (l1 ++ l2) = (printed_bytes l1 ++ printed_bytes l2)%list.
Proof.
  induction l1 as [|e l1 IH]; [reflexivity|].
  destruct e as [text|[sp|] msg]; cbn [app printed_bytes]; rewrite IH;
    [| rewrite app_assoc |]; reflexivity.
Qed.


Lemma pending_remain (c : t) (b : Z) (rest : list Z) :
  pending c = b :: rest -> (0 <? remain c)%nat = true.
Proof.
  intros H. apply Nat.ltb_lt. rewrite <- pending_length, H. cbn [length]. lia.
Qed.

(** One instruction of each of the four kinds, as the walker sees it:
    the mnemonic returned, the bytes consumed, the lines written. *)
Lemma straight_at (c : t) (b : Z) (rest : list Z) (log : list event) (width : positive)
      (indent_base indent_level indent_step : Z) :
  straight b = true -> pending c = b :: rest ->
  exists asm0 lines,
    instruction indent_base indent_level indent_step (mkState c log width) =
    (Return asm0, mkState (set_rpos c (rpos c + 1)) (log ++ lines) width) /\
    closes asm0 = false /\ nests asm0 = false /\ printed_bytes lines = [b].
Proof.
  unfold straight. intros Hb H.
  destruct (py_getitem list_index_msg DISASM b) as [[|[|? ?] [|asm0 more]|]| |] eqn:E;
    try discriminate.
  apply andb_true_iff in Hb as [Hc Hn]. apply negb_true_iff in Hc, Hn.
  exists asm0. eexists [_]. split.
  - unfold instruction. rewrite (plain_opcode_at c b rest _ H (not_prefix _ _ _ E) E).
    reflexivity.
  - split; [exact Hc | split; [exact Hn | reflexivity]].
Qed.

Lemma end_at (c : t) (rest : list Z) (log : list event) (width : positive)
      (indent_base indent_level indent_step : Z) :
  pending c = 0x0B :: rest ->
  exists lines,
    instruction indent_base indent_level indent_step (mkState c log width) =
    (Return "end", mkState (set_rpos c (rpos c + 1)) (log ++ lines) width) /\
    printed_bytes lines = [0x0B].
Proof.
  intros H. eexists [_]. split.
  - unfold instruction.
    rewrite (plain_opcode_at c 0x0B rest (Op [] ["end"]) H eq_refl eq_refl).
    reflexivity.
  - reflexivity.
Qed.

Lemma takes_index_at (c : t) (b : Z) (pre : list Z) (last : Z) (rest : list Z)
      (log : list event) (width : positive) (indent_base indent_level indent_step : Z) :
  takes_index b = true -> pending c = (b :: pre ++ last :: rest)%list ->
  Forall continued pre -> Z.land last 128 = 0 ->
  exists asm0 lines,
    instruction indent_base indent_level indent_step (mkState c log width) =
    (Return asm0, mkState (set_rpos c (rpos c + 1 + (length pre + 1))) (log ++ lines) width) /\
    closes asm0 = false /\ nests asm0 = false /\
    printed_bytes lines = (b :: pre ++ [last])%list.
Proof.
  unfold takes_index. intros Hb H Hpre Hlast.
  destruct (py_getitem list_index_msg DISASM b)
    as [[|[|[?|kind] [|? ?]] [|asm0 more]|]| |] eqn:E; try discriminate.
  apply andb_true_iff in Hb as [Hb Hn]. apply andb_true_iff in Hb as [Hk Hc].
  apply negb_true_iff in Hc, Hn.
  exists asm0. eexists [_; _]. split.
  - rewrite (index_operand_at c b pre last rest kind asm0 more log width _ _ _
               H E Hk Hpre Hlast).
    rewrite <- app_assoc. reflexivity.
  - split; [exact Hc | split; [exact Hn |]].
    cbn [printed_bytes data app]. rewrite app_nil_r. reflexivity.
Qed.

Lemma opens_at (c : t) (b bt : Z) (rest : list Z) (log : list event) (width : positive)
      (indent_base indent_level indent_step : Z) :
  opens b = true -> pending c = b :: bt :: rest -> Z.land bt 128 = 0 ->
  exists asm0 lines,
    instruction indent_base indent_level indent_step (mkState c log width) =
    (Return asm0, mkState (set_rpos c (rpos c + 2)) (log ++ lines) width) /\
    closes asm0 = false /\ nests asm0 = true /\ printed_bytes lines = [b; bt].
Proof.
  unfold opens. intros Hb H Hbt.
  destruct (py_getitem list_index_msg DISASM b)
    as [[|[|[?|kind] [|? ?]] [|asm0 more]|]| |] eqn:E; try discriminate.
  apply andb_true_iff in Hb as [Hb Hn]. apply andb_true_iff in Hb as [Hk Hc].
  apply String.eqb_eq in Hk. subst kind. apply negb_true_iff in Hc.
  set (level := if String.eqb asm0 "else" || String.eqb asm0 "end"
                then Z.max 0 (indent_level - 1) else indent_level).
  set (indent := spaces ((indent_base + level) * indent_step)).
  set (sbt := if Z.land bt 64 =? 0
              then str_int (decode_leb128u [bt])
              else if bt =? 64 then "(empty)" else get_valtype bt).
  set (lines := [Dprint (Some (mk (path c) [b] (fpos c + rpos c) 0)) [Line (indent ++ asm0)];
                 Dprint (Some (mk (path c) [bt] (fpos c + (rpos c + 1)) 0))
                        [Line ((indent ++ "  --> ") ++ sbt)]]).
  exists asm0, lines.
  split; [|split; [exact Hc | split; [exact Hn | reflexivity]]].
  unfold lines.
  replace (log ++ [Dprint (Some (mk (path c) [b] (fpos c + rpos c) 0)) [Line (indent ++ asm0)];
                   Dprint (Some (mk (path c) [bt] (fpos c + (rpos c + 1)) 0))
                          [Line ((indent ++ "  --> ") ++ sbt)]])%list
    with ((log ++ [Dprint (Some (mk (path c) [b] (fpos c + rpos c) 0))
                          [Line (indent ++ asm0)]])
              ++ [Dprint (Some (mk (path c) [bt] (fpos c + (rpos c + 1)) 0))
                         [Line ((indent ++ "  --> ") ++ sbt)]])%list
    by (rewrite <- app_assoc; reflexivity).
  clear lines.
  set (final := mkState (set_rpos c (rpos c + 2))
                  ((log ++ [Dprint (Some (mk (path c) [b] (fpos c + rpos c) 0))
                                   [Line (indent ++ asm0)]])
                       ++ [Dprint (Some (mk (path c) [bt] (fpos c + (rpos c + 1)) 0))
                                  [Line ((indent ++ "  --> ") ++ sbt)]])%list width).
  unfold instruction.
  rewrite (plain_opcode_at c b _ _ H (not_prefix _ _ _ E) E).
  cbv beta iota delta [ins_is_empty].
  change (py_getitem list_index_msg (asm0 :: more) 0) with (Return asm0).
  rewrite (bind_return (pure_outcome (Return asm0)) _ _ _ _ eq_refl).
  cbv zeta. fold level. fold indent.
  rewrite (bind_return (dprint1 _ _) _ _ _ tt eq_refl).
  cbn [for_each]. rewrite operand_decode_bt.
  pose proof (pending_next c b _ H) as H1.
  pose proof (leb128_at _ bt rest H1 Hbt) as L.
  cbn [set_rpos rpos path data fpos] in L.
  replace (rpos c + 1 + 1)%nat with (rpos c + 2)%nat in L by lia.
  rewrite (bind_return (_ ;; ret tt) _ _ final tt); [reflexivity|].
  rewrite (bind_return (_ <- on_stream Cursor.leb128 ;; _) _ _ final tt); [reflexivity|].
  rewrite (bind_return _ _ _ _ _ (on_stream_eq _ _ _ _ _ width L)).
  change (getitem (mk (path c) [bt] (fpos c + (rpos c + 1)) 0) 0) with (Return (A := Z) bt).
  rewrite (bind_return (pure_outcome (Return bt)) _ _ _ _ eq_refl).
  assert (D : decode_leb128s [bt] = Return (if Z.land bt 64 =? 0
                                            then decode_leb128u [bt]
                                            else decode_leb128u [bt] - Z.shiftl 1 7))
    by reflexivity.
  cbn [data]. rewrite D. unfold final, sbt.
  destruct (Z.land bt 64 =? 0); reflexivity.
Qed.

Lemma closes_false (asm0 : string) : closes asm0 = false -> String.eqb asm0 "end" = false.
Proof. intros H. exact H. Qed.

Lemma body_fuel (depth : nat) (bs : list Z) :
  body depth bs ->
  forall (fuel : nat) (c : t) (rest : list Z) (log : list event) (width : positive)
         (indent_base indent_level indent_step : Z),
    (length bs <= fuel)%nat ->
    pending c = (bs ++ rest)%list ->
    exists lines,
      expression_fuel fuel indent_base indent_level indent_step (mkState c log width) =
      (Return tt, mkState (set_rpos c (rpos c + length bs)) (log ++ lines) width) /\
      printed_bytes lines = bs.
Proof.
  induction 1 as [depth | depth b rest' Hb _ IH
                  | depth b pre last rest' Hb Hpre Hlast _ _ IH
                  | depth b bt inner rest' Hb Hbt _ IHi _ IHr];
    intros fuel c rest log width indent_base indent_level indent_step Hfuel H;
    (destruct fuel as [|fuel]; [cbn [length] in Hfuel; lia|]);
    rewrite expression_fuel_unfold; cbn [stream];
    rewrite (pending_remain c _ _ H).
  - destruct (end_at c rest log width indent_base indent_level indent_step H)
      as (lines & E & P).
    exists lines. rewrite (bind_return _ _ _ _ _ E). split; [reflexivity | exact P].
  - destruct (straight_at c b (rest' ++ rest) log width indent_base indent_level indent_step
                          Hb H) as (asm0 & lines & E & Hc & Hn & P).
    rewrite (bind_return _ _ _ _ _ E). rewrite (closes_false _ Hc).
    fold (nests asm0). rewrite Hn. rewrite (bind_return (ret tt) _ _ _ tt eq_refl).
    destruct (IH fuel (set_rpos c (rpos c + 1)) rest (log ++ lines)%list width
                 indent_base indent_level indent_step
                 ltac:(cbn [length] in Hfuel; lia)
                 (pending_next c b _ H)) as (lines2 & E2 & P2).
    exists (lines ++ lines2)%list. rewrite E2. split.
    + replace (rpos c + length (b :: rest'))%nat
        with (rpos (set_rpos c (rpos c + 1)) + length rest')%nat
        by (cbn [length set_rpos rpos]; lia).
      rewrite app_assoc. reflexivity.
    + rewrite printed_bytes_app, P, P2. reflexivity.
  - destruct (takes_index_at c b pre last (rest' ++ rest) log width
                             indent_base indent_level indent_step Hb
                             ltac:(rewrite H; cbn [app]; rewrite <- app_assoc; reflexivity)
                             Hpre Hlast) as (asm0 & lines & E & Hc & Hn & P).
    rewrite (bind_return _ _ _ _ _ E). rewrite (closes_false _ Hc).
    fold (nests asm0). rewrite Hn. rewrite (bind_return (ret tt) _ _ _ tt eq_refl).
    assert (H1 : pending (set_rpos c (rpos c + 1 + (length pre + 1))) = (rest' ++ rest)%list).
    { replace (rpos c + 1 + (length pre + 1))%nat
        with (rpos c + length (b :: pre ++ [last])%list)%nat
        by (cbn [length]; rewrite length_app; cbn [length]; lia).
      apply pending_after. rewrite H. cbn [app]. rewrite <- !app_assoc. reflexivity. }
    assert (Hf : (length rest' <= fuel)%nat).
    { cbn [length] in Hfuel. rewrite length_app in Hfuel. cbn [length] in Hfuel. lia. }
    destruct (IH fuel _ rest (log ++ lines)%list width indent_base indent_level indent_step Hf H1)
      as (lines2 & E2 & P2).
    exists (lines ++ lines2)%list. rewrite E2. split.
    + replace (rpos c + length (b :: pre ++ last :: rest'))%nat
        with (rpos (set_rpos c (rpos c + 1 + (length pre + 1))) + length rest')%nat
        by (cbn [length set_rpos rpos]; rewrite length_app; cbn [length]; lia).
      rewrite app_assoc. reflexivity.
    + rewrite printed_bytes_app, P, P2. cbn [app]. rewrite <- app_assoc. reflexivity.
  - destruct (opens_at c b bt (inner ++ rest' ++ rest) log width
                       indent_base indent_level indent_step Hb
                       ltac:(rewrite H; cbn [app]; rewrite <- app_assoc; reflexivity)
                       Hbt) as (asm0 & lines & E & Hc & Hn & P).
    rewrite (bind_return _ _ _ _ _ E). rewrite (closes_false _ Hc).
    fold (nests asm0). rewrite Hn.
    assert (H1 : pending (set_rpos c (rpos c + 2)) = (inner ++ rest' ++ rest)%list).
    { apply (pending_after c [b; bt]). rewrite H. cbn [app]. rewrite <- app_assoc.
      reflexivity. }
    assert (Hfi : (length inner <= fuel)%nat /\ (length rest' <= fuel)%nat).
    { cbn [length] in Hfuel. rewrite length_app in Hfuel. lia. }
    destruct (IHi fuel _ (rest' ++ rest)%list (log ++ lines)%list width
                  indent_base (indent_level + 1) indent_step (proj1 Hfi) H1)
      as (lines2 & E2 & P2).
    rewrite (bind_return _ _ _ _ _ E2).
    assert (H2 : pending (set_rpos (set_rpos c (rpos c + 2))
                                   (rpos (set_rpos c (rpos c + 2)) + length inner))
                 = (rest' ++ rest)%list) by (apply pending_after; exact H1).
    destruct (IHr fuel _ rest ((log ++ lines) ++ lines2)%list width
                  indent_base indent_level indent_step (proj2 Hfi) H2)
      as (lines3 & E3 & P3).
    exists (lines ++ lines2 ++ lines3)%list. rewrite E3. split.
    + replace (rpos c + length (b :: bt :: inner ++ rest'))%nat
        with (rpos (set_rpos (set_rpos c (rpos c + 2))
                             (rpos (set_rpos c (rpos c + 2)) + length inner))
              + length rest')%nat
        by (cbn [length set_rpos rpos]; rewrite length_app; lia).
      rewrite !app_assoc. reflexivity.
    + rewrite !printed_bytes_app, P, P2, P3. reflexivity.
Qed.

(** X22.  The walker reads one whole sequence.  On bytes that begin with
    a well-nested sequence of instructions (instructions without operand,
    [else] among them, instructions with one index or constant, and
    blocks with a one-byte block type), [expression] returns at the [end]
    that closes the sequence, not at an [end] of a block inside it: it has
    consumed exactly the bytes of the sequence and written them, in order,
    and what follows is left unread.  The sequence is within the limits of
    the interpreter: its blocks nest at most [max_nesting] deep, and its
    operands are within the limit of the conversion to decimal. *)
Theorem expression_reads_one_body (depth : nat) (bs : list Z) (c : t) (rest : list Z)
        (log : list event) (width : positive) (indent_base indent_level indent_step : Z) :
  body depth bs ->
  (depth <= max_nesting)%nat ->
  pending c = (bs ++ rest)%list ->
  exists lines,
    expression indent_base indent_level indent_step (mkState c log width) =
    (Return tt, mkState (set_rpos c (rpos c + length bs)) (log ++ lines) width) /\
    printed_bytes lines = bs /\
    pending (set_rpos c (rpos c + length bs)) = rest.
Proof.
  intros Hbody _ H. unfold expression.
  rewrite (bind_return get _ _ _ _ eq_refl). cbn [stream].
  assert (Hfuel : (length bs <= S (remain c))%nat).
  { rewrite <- pending_length, H, length_app. lia. }
  destruct (body_fuel depth bs Hbody _ c rest log width indent_base indent_level indent_step
                      Hfuel H) as (lines & E & P).
  exists lines. split; [exact E|]. split; [exact P | exact (pending_after c bs rest H)].
Qed.

Lemma expression_reads_one_body_witness :
  let c := mk "f" [0x02; 0x40; 0x20; 0x00; 0x04; 0x40; 0x01; 0x05; 0x01; 0x0B; 0x0B; 0x0B;
                   0x41; 0x00; 0x0B] 0 0 in
  body 2 [0x02; 0x40; 0x20; 0x00; 0x04; 0x40; 0x01; 0x05; 0x01; 0x0B; 0x0B; 0x0B] /\
  (2 <= max_nesting)%nat /\
  exists lines,
    expression 1 0 2 (mkState c [] 8) = (Return tt, mkState (set_rpos c 12) lines 8) /\
    pending (set_rpos c 12) = [0x41; 0x00; 0x0B].
Proof.
  cbv zeta.
  assert (F : str_fits (decode_leb128u [0x00])) by (vm_compute; reflexivity).
  assert (B : body 2 [0x02; 0x40; 0x20; 0x00; 0x04; 0x40; 0x01; 0x05; 0x01; 0x0B; 0x0B; 0x0B]).
  { apply (body_block 1 0x02 0x40 [0x20; 0x00; 0x04; 0x40; 0x01; 0x05; 0x01; 0x0B; 0x0B]
                      [0x0B] eq_refl eq_refl); [|apply body_end].
    apply (body_index 1 0x20 [] 0x00 _ eq_refl (Forall_nil _) eq_refl F).
    apply (body_block 0 0x04 0x40 [0x01; 0x05; 0x01; 0x0B] [0x0B] eq_refl eq_refl);
      [|apply body_end].
    apply (body_straight 0 0x01 _ eq_refl). apply (body_straight 0 0x05 _ eq_refl).
    apply (body_straight 0 0x01 _ eq_refl). apply body_end. }
  assert (D : (2 <= max_nesting)%nat) by (unfold max_nesting; lia).
  split; [exact B|]. split; [exact D|].
  destruct (expression_reads_one_body 2 _
              (mk "f" [0x02; 0x40; 0x20; 0x00; 0x04; 0x40; 0x01; 0x05; 0x01; 0x0B; 0x0B; 0x0B;
                       0x41; 0x00; 0x0B] 0 0) [0x41; 0x00; 0x0B] [] 8 1 0 2 B D eq_refl)
    as (lines & E & _ & P).
  exists lines. split; [exact E | exact P].
Defined.
From Stdlib Require Import NArith HexadecimalFacts HexadecimalPos.


(** ** The width of hexadecimal numbers *)

Lemma pow16_succ (n : nat) : (16 ^ N.of_nat (S n) = 16 * 16 ^ N.of_nat n)%N.
Proof. rewrite Nat2N.inj_succ, N.pow_succ_r'. reflexivity. Qed.

(** Doubling a number written with its least significant digit first
    keeps its number of digits, or adds a digit for a carry. *)
Lemma double_digits (d : Hexadecimal.uint) :
  (Hexadecimal.nb_digits (Hexadecimal.Little.double d) = Hexadecimal.nb_digits d \/
   (Hexadecimal.nb_digits (Hexadecimal.Little.double d) = S (Hexadecimal.nb_digits d) /\
    (16 ^ N.of_nat (Hexadecimal.nb_digits d) <= 2 * Unsigned.of_lu d)%N)) /\
  (Hexadecimal.nb_digits (Hexadecimal.Little.succ_double d) = Hexadecimal.nb_digits d \/
   (Hexadecimal.nb_digits (Hexadecimal.Little.succ_double d) = S (Hexadecimal.nb_digits d) /\
    (16 ^ N.of_nat (Hexadecimal.nb_digits d) <= 2 * Unsigned.of_lu d + 1)%N)).
Proof.
  induction d as [|d IH|d IH|d IH|d IH|d IH|d IH|d IH|d IH|d IH|d IH|d IH|d IH|d IH|d IH
                  |d IH|d IH];
    [ split; [left; reflexivity | right; split; [reflexivity | cbn; lia]] | .. ];
    destruct IH as [[A|[A LA]] [B|[B LB]]];
    cbn [Hexadecimal.Little.double Hexadecimal.Little.succ_double Hexadecimal.nb_digits
         Unsigned.of_lu];
    rewrite ?A, ?B, ?pow16_succ;
    (split; [first [left; reflexivity | right; split; [reflexivity | lia]]
            | first [left; reflexivity | right; split; [reflexivity | lia]]]).
Qed.

Lemma of_lu_to_little (p : positive) : Unsigned.of_lu (Pos.to_little_hex_uint p) = N.pos p.
Proof.
  rewrite <- Unsigned.of_lu_rev. exact (Unsigned.of_to p).
Qed.

(** A positive number has a first digit that is not zero. *)
Lemma to_little_lower (p : positive) :
  (16 ^ N.of_nat (Hexadecimal.nb_digits (Pos.to_little_hex_uint p)) <= 16 * N.pos p)%N.
Proof.
  rewrite <- (of_lu_to_little p).
  induction p as [p IH|p IH|]; cbn [Pos.to_little_hex_uint].
  - destruct (double_digits (Pos.to_little_hex_uint p)) as [_ [B|[B LB]]].
    + rewrite B, Unsigned.of_lu_succ_double, N.succ_double_spec. lia.
    + rewrite B, pow16_succ, Unsigned.of_lu_succ_double, N.succ_double_spec. lia.
  - destruct (double_digits (Pos.to_little_hex_uint p)) as [[A|[A LA]] _].
    + rewrite A, Unsigned.of_lu_double, N.double_spec. lia.
    + rewrite A, pow16_succ, Unsigned.of_lu_double, N.double_spec. lia.
  - cbn. lia.
Qed.

Lemma of_lu_upper (d : Hexadecimal.uint) :
  (Unsigned.of_lu d < 16 ^ N.of_nat (Hexadecimal.nb_digits d))%N.
Proof.
  induction d; cbn [Unsigned.of_lu Hexadecimal.nb_digits]; rewrite ?pow16_succ;
    [cbn; lia | lia ..].
Qed.

Lemma string_of_uint_length (d : Hexadecimal.uint) :
  String.length (NilEmpty.string_of_uint d) = Hexadecimal.nb_digits d.
Proof.
  induction d; cbn [NilEmpty.string_of_uint Hexadecimal.nb_digits String.length];
    congruence.
Qed.

(** The number of characters of [f'{n:x}'], for a positive [n]. *)
Lemma hex_int_length (p : positive) :
  let width := N.of_nat (String.length (hex_int (Z.pos p))) in
  (16 ^ width <= 16 * N.pos p /\ N.pos p < 16 ^ width)%N.
Proof.
  cbv zeta. unfold hex_int. cbn [Z.to_hex_int NilZero.string_of_int].
  assert (E : String.length (NilZero.string_of_uint (Pos.to_hex_uint p))
              = Hexadecimal.nb_digits (Pos.to_little_hex_uint p)).
  { pose proof (Unsigned.to_uint_nonnil p) as N.
    unfold NilZero.string_of_uint.
    destruct (Pos.to_hex_uint p) eqn:D; try congruence;
      rewrite <- D, string_of_uint_length; unfold Pos.to_hex_uint;
      apply nb_digits_rev. }
  rewrite E. split; [apply to_little_lower|].
  rewrite <- (of_lu_to_little p) at 1. apply of_lu_upper.
Qed.

(** A number below [16^k] is written with at most [k] digits. *)
Lemma hex_int_fits (n : Z) (k : nat) :
  0 <= n < 16 ^ Z.of_nat k -> (1 <= k)%nat -> (String.length (hex_int n) <= k)%nat.
Proof.
  intros [H0 Hk] K. destruct n as [|p|p]; [cbn; lia | | lia].
  destruct (hex_int_length p) as [L _]. cbv zeta in L.
  set (w := String.length (hex_int (Z.pos p))) in *.
  destruct (Nat.le_gt_cases w k) as [|Hgt]; [assumption | exfalso].
  assert (M : (16 ^ N.of_nat (S k) <= 16 ^ N.of_nat w)%N)
    by (apply N.pow_le_mono_r; lia).
  rewrite pow16_succ in M.
  assert (P : (N.pos p < 16 ^ N.of_nat k)%N).
  { apply N2Z.inj_lt. rewrite N2Z.inj_pow. cbn [Z.of_N]. rewrite nat_N_Z. exact Hk. }
  lia.
Qed.

(** A smaller number is not written with more digits. *)
Lemma hex_int_monotone (n m : Z) :
  0 <= n <= m -> (String.length (hex_int n) <= String.length (hex_int m))%nat.
Proof.
  intros [H0 H]. destruct n as [|p|p]; [|destruct m as [|q|q]; try lia | lia].
  - destruct m as [|q|q]; [cbn; lia | | lia].
    destruct (hex_int_length q) as [_ U]. cbv zeta in U.
    destruct (String.length (hex_int (Z.pos q))); [cbn in U; lia | cbn; lia].
  - destruct (hex_int_length p) as [L _]. destruct (hex_int_length q) as [_ U].
    cbv zeta in L, U.
    set (w := String.length (hex_int (Z.pos p))) in *.
    set (v := String.length (hex_int (Z.pos q))) in *.
    destruct (Nat.le_gt_cases w v) as [|Hgt]; [assumption | exfalso].
    assert (M : (16 ^ N.of_nat (S v) <= 16 ^ N.of_nat w)%N)
      by (apply N.pow_le_mono_r; lia).
    rewrite pow16_succ in M. lia.
Qed.

(** ** The layout of the left column *)

Lemma length_append (s1 s2 : string) :
  String.length (s1 ++ s2) = (String.length s1 + String.length s2)%nat.
Proof.
  induction s1 as [|c s1 IH]; cbn [append String.length Nat.add]; [|rewrite IH]; reflexivity.
Qed.

Lemma length_repeat_string (c : string) (n : nat) :
  String.length (repeat_string c n) = (n * String.length c)%nat.
Proof.
  induction n as [|n IH]; [reflexivity|].
  cbn [repeat_string]. rewrite length_append, IH. lia.
Qed.

Lemma str_take_length (n : nat) (s : string) :
  String.length (str_take n s) = Nat.min n (String.length s).
Proof.
  unfold str_take. revert n. induction s as [|c s IH]; intros [|n]; cbn; try reflexivity.
  rewrite IH. reflexivity.
Qed.

Lemma str_take_append (n : nat) (s1 s2 : string) :
  (String.length s1 <= n)%nat ->
  str_take n (s1 ++ s2) = s1 ++ str_take (n - String.length s1) s2.
Proof.
  unfold str_take. revert n. induction s1 as [|c s1 IH]; intros n H.
  - cbn [append String.length]. rewrite Nat.sub_0_r. reflexivity.
  - cbn [String.length] in H. destruct n as [|n]; [lia|].
    cbn [append substring String.length Nat.sub]. rewrite IH by lia. reflexivity.
Qed.

Lemma str_take_blanks (k n : nat) :
  (k <= n)%nat -> str_take k (repeat_string " " n) = repeat_string " " k.
Proof.
  unfold str_take. revert n. induction k as [|k IH]; intros n H.
  - destruct n; reflexivity.
  - destruct n as [|n]; [lia|]. cbn [repeat_string append substring].
    rewrite IH by lia. reflexivity.
Qed.

Lemma hex_int_nonempty (n : Z) : 0 <= n -> (1 <= String.length (hex_int n))%nat.
Proof.
  intros H. destruct n as [|p|p]; [cbn; lia | | lia].
  destruct (hex_int_length p) as [_ U]. cbv zeta in U.
  destruct (String.length (hex_int (Z.pos p))); [cbn in U; lia | lia].
Qed.

(** [f'{d:02x}'] of a byte has two characters. *)
Lemma hex02_length (b : Z) : is_byte b = true -> String.length (hex02 b) = 2%nat.
Proof.
  intros H. apply is_byte_range in H.
  pose proof (hex_int_fits b 2 ltac:(cbn; lia) ltac:(lia)) as U.
  pose proof (hex_int_nonempty b ltac:(lia)) as L.
  unfold hex02. cbv zeta.
  destruct (Nat.ltb_spec (String.length (hex_int b)) 2).
  - cbn [append String.length]. lia.
  - lia.
Qed.

Lemma hex_row_length (row : list Z) :
  Forall (fun b => is_byte b = true) row -> row <> [] ->
  String.length (join " " (map hex02 row)) = (3 * length row - 1)%nat.
Proof.
  induction 1 as [|b row Hb _ IH]; intros N; [congruence|].
  destruct row as [|b' row].
  - cbn [map join length]. rewrite hex02_length by exact Hb. reflexivity.
  - change (join " " (map hex02 (b :: b' :: row)))
      with (hex02 b ++ " " ++ join " " (map hex02 (b' :: row))).
    rewrite !length_append, hex02_length, IH by (assumption || discriminate).
    cbn [String.length length]. lia.
Qed.

(** An offset inside the file is written with [fposw] digits. *)
Lemma ADRFMT_length (file_len addr : nat) :
  (addr < file_len)%nat ->
  String.length (ADRFMT (fposw file_len) addr) = (fposw file_len + 1)%nat.
Proof.
  intros H. unfold ADRFMT, fposw. cbv zeta.
  pose proof (hex_int_monotone (Z.of_nat addr) (Z.of_nat file_len - 1) ltac:(lia)) as M.
  rewrite !length_append, length_repeat_string. cbn [String.length]. lia.
Qed.

Lemma rows_nil (fuel w : nat) : rows fuel w [] = [].
Proof. destruct fuel; reflexivity. Qed.

(** The rows of a span inside the file are not cut: [LEFTW] leaves room
    for the offset and [BYTESW] bytes. *)
Lemma left_rows_whole (file_len : nat) (bytesw : positive) :
  forall (fuel : nat) (data : list Z) (addr : nat),
    (length data <= fuel)%nat ->
    (addr + length data <= file_len)%nat ->
    Forall (fun b => is_byte b = true) data ->
    let chunks := rows fuel (Pos.to_nat bytesw) data in
    left_rows (fposw file_len) bytesw addr chunks
    = whole_rows (fposw file_len) bytesw addr chunks /\
    Forall (fun text => String.length text = LEFTW (fposw file_len) bytesw)
           (left_rows (fposw file_len) bytesw addr chunks).
Proof.
  pose proof (Pos2Nat.is_pos bytesw) as Hw.
  induction fuel as [|fuel IH]; intros data addr Hfuel Hin Hbytes chunks; unfold chunks.
  - cbn [rows left_rows whole_rows]. split; [reflexivity | constructor].
  - destruct data as [|b data]; [cbn [rows left_rows whole_rows]; split; [reflexivity|constructor]|].
    set (l := b :: data) in *.
    change (rows (S fuel) (Pos.to_nat bytesw) l)
      with (firstn (Pos.to_nat bytesw) l :: rows fuel (Pos.to_nat bytesw)
                   (skipn (Pos.to_nat bytesw) l)).
    cbn [left_rows whole_rows].
    set (row := firstn (Pos.to_nat bytesw) l).
    assert (Hl : (1 <= length l)%nat) by (unfold l; cbn [length]; lia).
    assert (Hrow : (1 <= length row <= Pos.to_nat bytesw)%nat)
      by (unfold row; rewrite length_firstn; lia).
    assert (Brow : Forall (fun b => is_byte b = true) row)
      by (exact (bytes_slice l (Pos.to_nat bytesw) 0 Hbytes)).
    assert (Nrow : row <> []) by (intros E; rewrite E in Hrow; cbn [length] in Hrow; lia).
    assert (E : str_take (LEFTW (fposw file_len) bytesw)
                         (ADRFMT (fposw file_len) addr ++ " "
                            ++ join " " (map hex02 row) ++ LPAD (fposw file_len) bytesw)
                = ADRFMT (fposw file_len) addr ++ " " ++ join " " (map hex02 row)
                    ++ repeat_string " " (3 * (Pos.to_nat bytesw - length row))).
    { pose proof (ADRFMT_length file_len addr ltac:(lia)) as LA.
      pose proof (hex_row_length row Brow Nrow) as LR.
      unfold LEFTW, LPAD in *.
      rewrite str_take_append by lia. f_equal.
      rewrite LA.
      rewrite (str_take_append _ " ") by (cbn [String.length]; lia). f_equal.
      rewrite str_take_append by (rewrite LR; cbn [String.length]; lia). f_equal.
      rewrite LR. cbn [String.length].
      replace (fposw file_len + 2 + Pos.to_nat bytesw * 3 - 1 - (fposw file_len + 1) - 1
               - (3 * length row - 1))%nat
        with (3 * (Pos.to_nat bytesw - length row))%nat by lia.
      apply str_take_blanks. unfold LEFTW. lia. }
    assert (Rest : left_rows (fposw file_len) bytesw (addr + Pos.to_nat bytesw)
                     (rows fuel (Pos.to_nat bytesw) (skipn (Pos.to_nat bytesw) l))
                   = whole_rows (fposw file_len) bytesw (addr + Pos.to_nat bytesw)
                       (rows fuel (Pos.to_nat bytesw) (skipn (Pos.to_nat bytesw) l)) /\
                   Forall (fun text => String.length text = LEFTW (fposw file_len) bytesw)
                     (left_rows (fposw file_len) bytesw (addr + Pos.to_nat bytesw)
                        (rows fuel (Pos.to_nat bytesw) (skipn (Pos.to_nat bytesw) l)))).
    { destruct (skipn (Pos.to_nat bytesw) l) as [|b' rest'] eqn:Es.
      - rewrite rows_nil. cbn [left_rows whole_rows]. split; [reflexivity | constructor].
      - rewrite <- Es.
        assert (Ls : length (skipn (Pos.to_nat bytesw) l) = (length l - Pos.to_nat bytesw)%nat)
          by apply length_skipn.
        assert (Lp : (1 <= length (skipn (Pos.to_nat bytesw) l))%nat)
          by (rewrite Es; cbn [length]; lia).
        apply IH; [lia | lia |].
        rewrite <- (firstn_skipn (Pos.to_nat bytesw) l) in Hbytes.
        apply Forall_app in Hbytes. exact (proj2 Hbytes). }
    destruct Rest as [R1 R2]. split.
    + rewrite E, R1. reflexivity.
    + constructor; [|exact R2].
      rewrite E, !length_append, length_repeat_string.
      rewrite (ADRFMT_length file_len addr) by lia.
      rewrite (hex_row_length row Brow Nrow). unfold LEFTW. cbn [String.length]. lia.
Qed.

Lemma left_rows_count (fw : nat) (bytesw : positive) (addr : nat) (chunks : list (list Z)) :
  length (left_rows fw bytesw addr chunks) = length chunks.
Proof.
  revert addr. induction chunks as [|row chunks IH]; intros addr; [reflexivity|].
  cbn [left_rows length]. rewrite IH. reflexivity.
Qed.

(** The left column holds digits, colons and blanks, and no line feed. *)
Lemma line_feeds_append (s1 s2 : string) :
  line_feeds (s1 ++ s2) = (line_feeds s1 + line_feeds s2)%nat.
Proof.
  induction s1 as [|c s1 IH]; [reflexivity|].
  cbn [append line_feeds]. rewrite IH. lia.
Qed.

Lemma line_feeds_repeat (c : string) (n : nat) :
  line_feeds c = 0%nat -> line_feeds (repeat_string c n) = 0%nat.
Proof.
  intros H. induction n as [|n IH]; [reflexivity|].
  cbn [repeat_string]. rewrite line_feeds_append, H, IH. reflexivity.
Qed.

Lemma line_feeds_digits (d : Hexadecimal.uint) :
  line_feeds (NilEmpty.string_of_uint d) = 0%nat.
Proof.
  induction d; cbn [NilEmpty.string_of_uint line_feeds]; [reflexivity | exact IHd ..].
Qed.

Lemma line_feeds_hex_int (n : Z) : line_feeds (hex_int n) = 0%nat.
Proof.
  assert (U : forall d, line_feeds (NilZero.string_of_uint d) = 0%nat).
  { intros d. unfold NilZero.string_of_uint.
    destruct d; try reflexivity; apply line_feeds_digits. }
  unfold hex_int. destruct (Z.to_hex_int n) as [d|d]; cbn [NilZero.string_of_int].
  - apply U.
  - cbn [line_feeds]. apply U.
Qed.

Lemma line_feeds_hex02 (b : Z) : line_feeds (hex02 b) = 0%nat.
Proof.
  unfold hex02. cbv zeta. destruct (_ <? 2)%nat.
  - rewrite line_feeds_append, line_feeds_hex_int. reflexivity.
  - apply line_feeds_hex_int.
Qed.

Lemma line_feeds_hex_row (row : list Z) : line_feeds (join " " (map hex02 row)) = 0%nat.
Proof.
  induction row as [|b row IH]; [reflexivity|].
  destruct row as [|b' row]; [apply line_feeds_hex02|].
  change (join " " (map hex02 (b :: b' :: row)))
    with (hex02 b ++ " " ++ join " " (map hex02 (b' :: row))).
  rewrite !line_feeds_append, line_feeds_hex02, IH. reflexivity.
Qed.

Lemma line_feeds_LPAD (fw : nat) (bytesw : positive) : line_feeds (LPAD fw bytesw) = 0%nat.
Proof. apply line_feeds_repeat. reflexivity. Qed.

Lemma whole_rows_one_line (fw : nat) (bytesw : positive) (chunks : list (list Z)) :
  forall addr, Forall (fun text => line_feeds text = 0%nat) (whole_rows fw bytesw addr chunks).
Proof.
  induction chunks as [|row chunks IH]; intros addr; cbn [whole_rows]; constructor;
    [|apply IH].
  unfold ADRFMT. cbv zeta.
  rewrite !line_feeds_append, line_feeds_hex_int, line_feeds_hex_row.
  rewrite !line_feeds_repeat by reflexivity. reflexivity.
Qed.

Lemma combine_fst_forall (P : string -> Prop) (left : list string) (right : list line) :
  Forall P left -> Forall (fun ln : string * line => P (fst ln)) (combine left right).
Proof.
  intros H. revert right. induction H as [|text left Ht _ IH]; intros right.
  - constructor.
  - destruct right as [|r right]; [constructor|]. cbn [combine].
    constructor; [exact Ht | apply IH].
Qed.

Lemma LPAD_length (fw : nat) (bytesw : positive) :
  String.length (LPAD fw bytesw) = LEFTW fw bytesw.
Proof. unfold LPAD. rewrite length_repeat_string. cbn [String.length]. lia. Qed.

(** The span lies inside a file of [file_len] bytes and holds bytes. *)
Lemma dprint_calls_layout (file_len : nat) (bytesw : positive) (data : option t)
      (message : list line) :
  match data with
  | Some sp => (fpos sp + length (ReadData.data sp) <= file_len)%nat /\ bytes_buffer sp
  | None => True
  end ->
  let fw := fposw file_len in
  let w := Pos.to_nat bytesw in
  let n := match data with
           | Some sp => length (ReadData.data sp)
           | None => 0%nat
           end in
  length (dprint_calls fw bytesw data message) = Nat.max ((n + w - 1) / w) (length message) /\
  Forall (fun call => String.length (fst call) = LEFTW fw bytesw /\
                      line_feeds (fst call) = 0%nat)
         (dprint_calls fw bytesw data message).
Proof.
  intros Hin fw w n. unfold dprint_calls.
  set (left := match data with
               | None => []
               | Some d => left_rows fw bytesw (fpos d)
                                     (rows (length (ReadData.data d)) (Pos.to_nat bytesw)
                                           (ReadData.data d))
               end).
  assert (L : length left = ((n + w - 1) / w)%nat /\
              Forall (fun text => String.length text = LEFTW fw bytesw /\
                                  line_feeds text = 0%nat) left).
  { unfold left, n. destruct data as [sp|].
    - destruct Hin as [Hin Hb].
      rewrite left_rows_count.
      destruct (rows_partition w (Pos2Nat.is_pos bytesw) _ (ReadData.data sp) (Nat.le_refl _))
        as (_ & _ & Hn).
      split; [exact Hn|].
      destruct (left_rows_whole file_len bytesw _ (ReadData.data sp) _ (Nat.le_refl _) Hin Hb)
        as [Hw Hl].
      apply Forall_and; [exact Hl|]. fold fw in Hw. rewrite Hw. apply whole_rows_one_line.
    - split; [symmetry; apply Nat.div_small; pose proof (Pos2Nat.is_pos bytesw); lia
             | constructor]. }
  destruct L as [Ln La]. cbv zeta. split.
  - rewrite length_combine, !length_app, !repeat_length, Ln. lia.
  - apply (combine_fst_forall (fun text => String.length text = LEFTW fw bytesw /\
                                           line_feeds text = 0%nat)).
    apply Forall_app. split; [exact La|].
    apply Forall_forall. intros text Ht. apply repeat_spec in Ht. subst text.
    split; [apply LPAD_length | apply line_feeds_LPAD].
Qed.

(** X23.  The layout of one call of [dprint], for a span that lies
    inside the file and holds bytes.  [dprint] calls [print] as many times
    as the longer of its two columns has entries: [ceil(n / BYTESW)] rows
    for [n] bytes, or the entries of the message.  Every call starts a
    line with the left column, which has exactly [LEFTW] characters and no
    line feed among them, so that the separators of these lines stand in
    one column; and no row is cut short by [[:LEFTW]]: each reads as its
    offset in [fposw] digits, a colon, its bytes in two hexadecimal digits
    each, and blanks.  What follows the separator is the entry as it is:
    an entry that holds a line feed (a name is written as decoded) goes on
    in a further line of the output, which has no left column. *)
Theorem dprint_layout (file_len : nat) (bytesw : positive) (sp : t) (message : list line) :
  (fpos sp + length (ReadData.data sp) <= file_len)%nat ->
  bytes_buffer sp ->
  let fw := fposw file_len in
  let w := Pos.to_nat bytesw in
  let chunks := rows (length (ReadData.data sp)) w (ReadData.data sp) in
  length (dprint_calls fw bytesw (Some sp) message)
  = Nat.max ((length (ReadData.data sp) + w - 1) / w) (length message) /\
  Forall (fun call => String.length (fst call) = LEFTW fw bytesw /\
                      line_feeds (fst call) = 0%nat)
         (dprint_calls fw bytesw (Some sp) message) /\
  left_rows fw bytesw (fpos sp) chunks = whole_rows fw bytesw (fpos sp) chunks.
Proof.
  intros Hin Hb fw w chunks.
  destruct (dprint_calls_layout file_len bytesw (Some sp) message (conj Hin Hb)) as [Hn Ha].
  split; [exact Hn|]. split; [exact Ha|].
  exact (proj1 (left_rows_whole file_len bytesw _ (ReadData.data sp) _ (Nat.le_refl _) Hin Hb)).
Qed.

Lemma dprint_layout_witness :
  let sp := mk "f" [0; 97; 115; 109]%Z 0 0 in
  (fpos sp + length (ReadData.data sp) <= 300)%nat /\ bytes_buffer sp /\
  left_rows (fposw 300) 3 0 (rows 4 3 [0; 97; 115; 109]%Z)
  = ["000: 00 61 73"; "003: 6d      "].
Proof.
  cbv zeta.
  assert (Hin : (fpos (mk "f" [0; 97; 115; 109]%Z 0 0)
                 + length (ReadData.data (mk "f" [0; 97; 115; 109]%Z 0 0)) <= 300)%nat)
    by (cbn; lia).
  assert (Hb : bytes_buffer (mk "f" [0; 97; 115; 109]%Z 0 0))
    by (repeat constructor).
  split; [exact Hin|]. split; [exact Hb|].
  refine (eq_trans (proj2 (proj2 (dprint_layout 300 3 _ [Line "magic"] Hin Hb))) _).
  reflexivity.
Defined.

(** ** The left column of a whole dump *)

(** A byte range of an output in order lies inside the file and holds
    its bytes. *)
Lemma tile_step_inside (F : list Z) (p p' : nat) (e : event) :
  (p <= length F)%nat -> tile_step F (Some p) e = Some p' -> (p' <= length F)%nat.
Proof.
  intros Hp H. destruct e as [text|[sp|] message]; cbn [tile_step] in H;
    try (injection H as <-; exact Hp).
  destruct (Nat.eqb_spec (fpos sp) p) as [Ef|]; cbn [andb] in H; [|discriminate].
  destruct (bytes_eqb _ _) eqn:Ed; [|discriminate].
  injection H as <-. apply bytes_eqb_eq in Ed.
  apply (f_equal (@length Z)) in Ed.
  rewrite length_firstn, length_skipn in Ed. lia.
Qed.

Lemma tile_from_inside (F : list Z) (evs : list event) :
  forall p q,
    (p <= length F)%nat ->
    fold_left (tile_step F) evs (Some p) = Some q ->
    forall sp message,
      In (Dprint (Some sp) message) evs ->
      (fpos sp + length (ReadData.data sp) <= length F)%nat /\ shows F sp.
Proof.
  induction evs as [|e evs IH]; intros p q Hp H sp message Hin; [destruct Hin|].
  cbn [fold_left] in H.
  destruct (tile_step F (Some p) e) as [p'|] eqn:Es;
    [|rewrite tile_from_none in H; discriminate].
  pose proof (tile_step_inside F p p' e Hp Es) as Hp'.
  destruct Hin as [->|Hin]; [|exact (IH p' q Hp' H sp message Hin)].
  cbn [tile_step] in Es.
  destruct (Nat.eqb_spec (fpos sp) p) as [Ef|]; cbn [andb] in Es; [|discriminate].
  destruct (bytes_eqb _ _) eqn:Ed; [|discriminate].
  injection Es as <-. apply bytes_eqb_eq in Ed. unfold shows. rewrite Ef.
  split; [exact Hp' | exact Ed].
Qed.

(** X24.  The left column of a whole dump.  For a file of bytes, every
    call of [print] that [main] makes through [dprint], however the run
    ends, starts a line with a left column of exactly [LEFTW] characters,
    none of them a line feed, with [fposw] the number of hexadecimal
    digits of the last offset of the file: the separators of these lines
    stand in one column, and no row of bytes is cut short by [[:LEFTW]],
    whatever the width of the rows.  What follows the separator is the
    entry as it is: an entry that holds a line feed (the name of a custom
    section, an import or an export) goes on in a further line of the
    output, which has no left column. *)
Theorem main_left_column_aligned (path : string) (width : positive) (data : list Z)
        (span : option t) (message : list line) :
  Forall (fun b => is_byte b = true) data ->
  In (Dprint span message) (out (snd (main path width data))) ->
  let fw := fposw (length data) in
  Forall (fun call => String.length (fst call) = LEFTW fw width /\
                      line_feeds (fst call) = 0%nat)
         (dprint_calls fw width span message) /\
  match span with
  | Some sp =>
    let chunks := rows (length (ReadData.data sp)) (Pos.to_nat width) (ReadData.data sp) in
    left_rows fw width (fpos sp) chunks = whole_rows fw width (fpos sp) chunks
  | None => True
  end.
Proof.
  intros Hbytes Hin fw.
  destruct (main_tile_end path width data) as (shown & Ht & _).
  assert (Inside : match span with
                   | Some sp => (fpos sp + length (ReadData.data sp) <= length data)%nat /\
                                bytes_buffer sp
                   | None => True
                   end).
  { destruct span as [sp|]; [|exact I].
    destruct (tile_from_inside data _ 0%nat shown (Nat.le_0_l _) Ht sp message Hin) as [Hle Hs].
    split; [exact Hle|]. unfold bytes_buffer. rewrite Hs. apply bytes_slice. exact Hbytes. }
  split.
  - exact (proj2 (dprint_calls_layout (length data) width span message Inside)).
  - destruct span as [sp|]; [|exact I]. destruct Inside as [Hle Hb].
    exact (proj1 (left_rows_whole (length data) width _ (ReadData.data sp) _
                                  (Nat.le_refl _) Hle Hb)).
Qed.

Lemma main_left_column_aligned_witness :
  let input := [0x7F; 0x45; 0x4C] in
  let span := mk "f" input 0 0 in
  let message := [Line ("magic = " ++ repr_bytes input)] in
  Forall (fun b => is_byte b = true) input /\
  In (Dprint (Some span) message) (out (snd (main "f" 2 input))) /\
  Forall (fun call => String.length (fst call) = 8%nat /\ line_feeds (fst call) = 0%nat)
         [("0: 7f 45", Line "magic = b'\x7fEL'"); ("2: 4c   ", Line EmptyString)].
Proof.
  cbv zeta.
  assert (Hb : Forall (fun b => is_byte b = true) [0x7F; 0x45; 0x4C])
    by (repeat constructor).
  assert (Hin : In (Dprint (Some (mk "f" [0x7F; 0x45; 0x4C] 0 0))
                           [Line ("magic = " ++ repr_bytes [0x7F; 0x45; 0x4C])])
                   (out (snd (main "f" 2 [0x7F; 0x45; 0x4C]))))
    by (vm_compute; do 3 right; left; reflexivity).
  split; [exact Hb|]. split; [exact Hin|].
  exact (proj1 (main_left_column_aligned "f" 2 [0x7F; 0x45; 0x4C] _ _ Hb Hin)).
Defined.
